(** * Hack-VM: the translator from the Hack virtual machine language to Hack
    assembly (hack_vm.py), embedded in Rocq.

    The development follows the layout of the Python module:
    - [Py]: the Python built-ins the module relies on (string methods,
      [int], [str], ["%d"] formatting, [re.match], exceptions);
    - the command classes;
    - [HackParser]: one parser per command class and [ParseCommand];
    - [HackCodeGenerator]: the assembly templates and one generator per
      command class;
    - the module-level pipeline ([ParseProgram] ... [LinkPrograms]);
    - [Hack]: the Hack computer that runs the emitted assembly text, used
      to state what the generated sequences do;
    - the properties. *)

From Stdlib Require Import ZArith List String Ascii Bool Lia.
From Stdlib Require Import Decimal DecimalString DecimalZ.
Import ListNotations.
Local Open Scope Z_scope.
Local Open Scope string_scope.

(* ================================================================== *)
(** * Python built-ins *)
(* ================================================================== *)

Module Py.

(** Exceptions that can escape the functions of the module. *)
Inductive exn : Type :=
| VMError (message : string)
| ValueError
| TypeError
| AttributeError
| KeyError.

(** A computation either returns a value or raises. *)
Inductive result (A : Type) : Type :=
| Ret (a : A)
| Raise (e : exn).
Arguments Ret {A} a.
Arguments Raise {A} e.

Definition bind {A B : Type} (m : result A) (k : A -> result B) : result B :=
  match m with
  | Ret a => k a
  | Raise e => Raise e
  end.

(** [map(f, xs)] of Python 2: eager, left to right; the first exception
    escapes and the remaining elements are never visited. *)
Fixpoint map_result {A B : Type} (f : A -> result B) (xs : list A)
  : result (list B) :=
  match xs with
  | [] => Ret []
  | x :: xs' =>
      bind (f x) (fun y => bind (map_result f xs') (fun ys => Ret (y :: ys)))
  end.

(** ** Characters *)

Definition char_between (lo hi c : ascii) : bool :=
  (nat_of_ascii lo <=? nat_of_ascii c)%nat && (nat_of_ascii c <=? nat_of_ascii hi)%nat.

(** [c.isspace()] on a byte string: TAB, LF, VT, FF, CR and SPACE. *)
Definition isspace (c : ascii) : bool :=
  let n := nat_of_ascii c in
  ((9 <=? n)%nat && (n <=? 13)%nat) || (n =? 32)%nat.

Definition isdigit_char (c : ascii) : bool := char_between "0" "9" c.

Definition isalpha_char (c : ascii) : bool :=
  char_between "a" "z" c || char_between "A" "Z" c.

(** ** String methods *)

Fixpoint lstrip (s : string) : string :=
  match s with
  | EmptyString => EmptyString
  | String c s' => if isspace c then lstrip s' else s
  end.

Fixpoint rstrip (s : string) : string :=
  match s with
  | EmptyString => EmptyString
  | String c s' =>
      match rstrip s' with
      | EmptyString => if isspace c then EmptyString else String c EmptyString
      | r => String c r
      end
  end.

(** [s.strip()] *)
Definition strip (s : string) : string := rstrip (lstrip s).

(** [s.index(sub)]: the position of the first occurrence, [None] standing
    for the [ValueError] the caller catches. *)
Fixpoint index (sub s : string) : option nat :=
  if String.prefix sub s then Some O
  else match s with
       | EmptyString => None
       | String _ s' => option_map S (index sub s')
       end.

(** [s[:n]] *)
Fixpoint slice_to (n : nat) (s : string) : string :=
  match n, s with
  | O, _ => EmptyString
  | S _, EmptyString => EmptyString
  | S n', String c s' => String c (slice_to n' s')
  end.

(** [s.split()]: the maximal runs of non-whitespace characters. *)
Fixpoint split (s : string) : list string :=
  match s with
  | EmptyString => []
  | String c s' =>
      if isspace c then split s'
      else match s' with
           | EmptyString => [String c EmptyString]
           | String c' _ =>
               if isspace c' then String c EmptyString :: split s'
               else match split s' with
                    | t :: ts => String c t :: ts
                    | [] => [String c EmptyString]
                    end
           end
  end.

Fixpoint all_chars (p : ascii -> bool) (s : string) : bool :=
  match s with
  | EmptyString => true
  | String c s' => p c && all_chars p s'
  end.

(** [s.isdigit()]: non-empty and made of decimal digits only. *)
Definition isdigit (s : string) : bool :=
  match s with
  | EmptyString => false
  | _ => all_chars isdigit_char s
  end.

(** [int(s)].  Python also accepts a sign and surrounding blanks; every call
    site of the module passes a token produced by [split] (so free of
    blanks) that begins with a digit, and on those [int] succeeds exactly
    when the token consists of digits only, raising [ValueError]
    otherwise. *)
Definition int (s : string) : result Z :=
  if isdigit s then
    match NilEmpty.uint_of_string s with
    | Some d => Ret (Z.of_uint d)
    | None => Raise ValueError
    end
  else Raise ValueError.

(** ["%d" % z] and [str(z)] for an integer. *)
Definition str_of_int (z : Z) : string := NilEmpty.string_of_int (Z.to_int z).

(** A value that the generator passes to [str]: an integer or a string. *)
Inductive value : Type :=
| VInt (z : Z)
| VStr (s : string).

Definition str (v : value) : string :=
  match v with
  | VInt z => str_of_int z
  | VStr s => s
  end.

(** [sep.join(xs)] *)
Definition join (sep : string) (xs : list string) : string :=
  String.concat sep xs.

(** [os.linesep] (POSIX). *)
Definition linesep : string := String (ascii_of_nat 10) EmptyString.

(** [sub in s] for strings. *)
Definition contains (sub s : string) : bool :=
  match index sub s with Some _ => true | None => false end.

(** ** Regular expressions

    The two patterns of the module are sequences of character classes, each
    taken once, zero or more times ([*]) or one or more times ([+]).
    Matching is written with a continuation that receives the rest of the
    subject; what the continuation demands of the rest is the difference
    between [re.match] (nothing: the pattern is anchored at the start only)
    and a match of the whole subject. *)

Inductive quantifier : Type := Once | Star | Plus.

Definition regex : Type := list ((ascii -> bool) * quantifier).

Fixpoint match_star (cls : ascii -> bool) (k : string -> bool) (s : string)
  : bool :=
  k s ||
  match s with
  | EmptyString => false
  | String c s' => cls c && match_star cls k s'
  end.

Fixpoint match_items (r : regex) (k : string -> bool) (s : string) : bool :=
  match r with
  | [] => k s
  | (cls, Once) :: r' =>
      match s with
      | EmptyString => false
      | String c s' => cls c && match_items r' k s'
      end
  | (cls, Star) :: r' => match_star cls (match_items r' k) s
  | (cls, Plus) :: r' =>
      match s with
      | EmptyString => false
      | String c s' => cls c && match_star cls (match_items r' k) s'
      end
  end.

(** [re.match(r, s)] as a truth value: some prefix of [s] matches [r]. *)
Definition re_match (r : regex) (s : string) : bool :=
  match_items r (fun _ => true) s.

(** The whole of [s] matches [r]. *)
Definition re_fullmatch (r : regex) (s : string) : bool :=
  match_items r (fun rest => String.eqb rest EmptyString) s.

End Py.

Import Py.

Notation "x <- m ;; k" := (Py.bind m (fun x => k))
  (at level 61, m at next level, right associativity).

(* ================================================================== *)
(** * The command classes *)
(* ================================================================== *)

Inductive command : Type :=
| AddCommand
| SubCommand
| NegCommand
| EqCommand
| GtCommand
| LtCommand
| AndCommand
| OrCommand
| NotCommand
| PushCommand (segment : string) (index : Z)
| PopCommand (segment : string) (index : Z)
| LabelCommand (label_name : string)
| GotoCommand (label_name : string)
| IfGotoCommand (label_name : string)
| FunctionCommand (function_name : string) (local_variables : Z)
| CallCommand (function_name : string) (arguments : Z)
| ReturnCommand
| EmptyCommand
| ErrorCommand (line : string).

(** [command.__class__.__name__ == "ErrorCommand"] *)
Definition is_ErrorCommand (c : command) : bool :=
  match c with ErrorCommand _ => true | _ => false end.

(* ================================================================== *)
(** * HackParser *)
(* ================================================================== *)

Module HackParser.

(** What a [ParseXCommand] method hands back: a command instance, or
    [False] (here [None]); it may also raise. *)
Definition parsed : Type := result (option command).

Definition _SEGMENT_NAMES : list string :=
  ["argument"; "local"; "static"; "constant"; "this"; "that"; "pointer"; "temp"].

Definition in_list (s : string) (l : list string) : bool :=
  existsb (String.eqb s) l.

Definition label_head (c : ascii) : bool :=
  isalpha_char c || Ascii.eqb c "_" || Ascii.eqb c "." || Ascii.eqb c ":".

Definition label_tail (c : ascii) : bool :=
  isalpha_char c || isdigit_char c
  || Ascii.eqb c "_" || Ascii.eqb c "." || Ascii.eqb c ":".

(** [re.compile(r"[a-zA-Z_\.:][a-zA-Z0-9_\.:]*")] *)
Definition _RE_LABEL : regex := [(label_head, Once); (label_tail, Star)].

(** [re.compile(r"\d+")] *)
Definition _RE_NUMBER : regex := [(isdigit_char, Plus)].

Definition _TrimProgramLine (line : string) : string :=
  match index "//" line with
  | Some i => strip (slice_to i line)
  | None => strip line
  end.

Definition _ParseSimpleCommand (line command_name : string) (constructor : command)
  : parsed :=
  if String.eqb line command_name then Ret (Some constructor) else Ret None.

Definition _ParseGenericLabelCommand (line command_name : string)
  (constructor : string -> command) : parsed :=
  match split line with
  | [p0; p1] =>
      if String.eqb p0 command_name && re_match _RE_LABEL p1
      then Ret (Some (constructor p1))
      else Ret None
  | _ => Ret None
  end.

Definition _ParseGenericFunctionCommand (line command_name : string)
  (constructor : string -> Z -> command) : parsed :=
  match split line with
  | [p0; p1; p2] =>
      if String.eqb p0 command_name && re_match _RE_LABEL p1
         && re_match _RE_NUMBER p2
      then n <- int p2 ;; Ret (Some (constructor p1 n))
      else Ret None
  | _ => Ret None
  end.

Definition ParseAddCommand (line : string) : parsed :=
  _ParseSimpleCommand line "add" AddCommand.
Definition ParseSubCommand (line : string) : parsed :=
  _ParseSimpleCommand line "sub" SubCommand.
Definition ParseNegCommand (line : string) : parsed :=
  _ParseSimpleCommand line "neg" NegCommand.
Definition ParseEqCommand (line : string) : parsed :=
  _ParseSimpleCommand line "eq" EqCommand.
Definition ParseGtCommand (line : string) : parsed :=
  _ParseSimpleCommand line "gt" GtCommand.
Definition ParseLtCommand (line : string) : parsed :=
  _ParseSimpleCommand line "lt" LtCommand.
Definition ParseAndCommand (line : string) : parsed :=
  _ParseSimpleCommand line "and" AndCommand.
Definition ParseOrCommand (line : string) : parsed :=
  _ParseSimpleCommand line "or" OrCommand.
Definition ParseNotCommand (line : string) : parsed :=
  _ParseSimpleCommand line "not" NotCommand.

Definition ParsePushCommand (line : string) : parsed :=
  match split line with
  | [p0; p1; p2] =>
      if String.eqb p0 "push" && in_list p1 _SEGMENT_NAMES && isdigit p2
      then n <- int p2 ;; Ret (Some (PushCommand p1 n))
      else Ret None
  | _ => Ret None
  end.

Definition ParsePopCommand (line : string) : parsed :=
  match split line with
  | [p0; p1; p2] =>
      if String.eqb p0 "pop" && in_list p1 _SEGMENT_NAMES
         && negb (String.eqb p1 "constant") && isdigit p2
      then n <- int p2 ;; Ret (Some (PopCommand p1 n))
      else Ret None
  | _ => Ret None
  end.

Definition ParseLabelCommand (line : string) : parsed :=
  _ParseGenericLabelCommand line "label" LabelCommand.
Definition ParseGotoCommand (line : string) : parsed :=
  _ParseGenericLabelCommand line "goto" GotoCommand.
Definition ParseIfGotoCommand (line : string) : parsed :=
  _ParseGenericLabelCommand line "if-goto" IfGotoCommand.
Definition ParseFunctionCommand (line : string) : parsed :=
  _ParseGenericFunctionCommand line "function" FunctionCommand.
Definition ParseCallCommand (line : string) : parsed :=
  _ParseGenericFunctionCommand line "call" CallCommand.

Definition ParseReturnCommand (line : string) : parsed :=
  if String.eqb line "return" then Ret (Some ReturnCommand) else Ret None.

Definition ParseEmptyCommand (line : string) : parsed :=
  _ParseSimpleCommand line "" EmptyCommand.

Definition ParseErrorCommand (line : string) : parsed :=
  Ret (Some (ErrorCommand line)).

(** The order in which the commands are attempted; each class stands for
    its [Parse<class>] method, which [ParseCommand] looks up by name. *)
Definition _COMMAND_PARSE_ORDER : list (string -> parsed) :=
  [ ParseAddCommand; ParseSubCommand; ParseNegCommand; ParseEqCommand;
    ParseGtCommand; ParseLtCommand; ParseAndCommand; ParseOrCommand;
    ParseNotCommand; ParsePushCommand; ParsePopCommand; ParseLabelCommand;
    ParseGotoCommand; ParseIfGotoCommand; ParseFunctionCommand;
    ParseCallCommand; ParseReturnCommand; ParseEmptyCommand;
    ParseErrorCommand ].

(** The [for] loop of [ParseCommand]: the first truthy result is returned;
    falling off the end of the loop returns Python's [None]. *)
Fixpoint first_result (parsers : list (string -> parsed)) (line : string)
  : parsed :=
  match parsers with
  | [] => Ret None
  | p :: rest =>
      r <- p line ;;
      match r with
      | Some c => Ret (Some c)
      | None => first_result rest line
      end
  end.

Definition ParseCommand (line : string) : parsed :=
  let line := _TrimProgramLine line in
  first_result _COMMAND_PARSE_ORDER line.

End HackParser.

Import HackParser.

(* ================================================================== *)
(** * HackCodeGenerator *)
(* ================================================================== *)

Module HackCodeGenerator.

(** What a [GenerateAsmXCommand] method hands back: a list of assembly
    lines, or Python's [None] when no branch of the method returns. *)
Definition generated : Type := result (option (list string)).

(** [sum(chunks, [])] over lists. *)
Definition sum_lists (chunks : list (list string)) : list string :=
  List.concat chunks.

(** [chunk * n] *)
Definition times (chunk : list string) (n : Z) : list string :=
  List.concat (List.repeat chunk (Z.to_nat n)).

(** Mapping from names to the addresses in RAM that represent them. *)
Definition _SEGMENT_MAPPING : list (string * Z) :=
  [ ("sp", 0); ("temp", 5); ("pointer", 3); ("argument", 2);
    ("local", 1); ("this", 3); ("that", 4); ("static", 16) ].

(** [d[key]] *)
Fixpoint getitem (d : list (string * Z)) (key : string) : result Z :=
  match d with
  | [] => Raise KeyError
  | (k, v) :: d' => if String.eqb k key then Ret v else getitem d' key
  end.

Definition _ApplyBinaryTemplate (op : string) : list string :=
  [ "@SP";
    "M=M-1";
    "A=M";
    "D=M";
    "A=A-1";
    if negb (String.eqb op "-") then "M=D" ++ op ++ "M" else "M=M-D" ].

Definition _ApplyUnaryTemplate (op : string) : list string :=
  [ "@SP";
    "A=M";
    "A=A-1";
    "M=" ++ op ++ "M" ].

Definition _ApplyComparisonTemplate (op name : string) (number : Z)
  : list string :=
  let branch_label := name ++ "$" ++ str_of_int number ++ "$branch" in
  let end_label := name ++ "$" ++ str_of_int number ++ "$end" in
  [ "@SP";
    "M=M-1";
    "A=M";
    "D=M";
    "A=A-1";
    "D=D-M";
    "@" ++ branch_label;
    "D;" ++ op;
    "@SP";
    "A=M-1";
    "M=0";
    "@" ++ end_label;
    "0;JMP";
    "(" ++ branch_label ++ ")";
    "@SP";
    "A=M-1";
    "M=0";
    "M=!M";
    "(" ++ end_label ++ ")" ].

Definition _ApplyPushTemplate : list string :=
  [ "@SP";
    "A=M";
    "M=D";
    "@SP";
    "M=M+1" ].

Definition _ApplyPushConstantTemplate (value : Z) : list string :=
  List.app [ "@" ++ str_of_int value;
     "D=A" ] _ApplyPushTemplate.

Definition _ApplyPushDirectTemplate (value : Py.value) : list string :=
  List.app [ "@" ++ str value;
     "D=M" ] _ApplyPushTemplate.

Definition _ApplyPushIndirectTemplate (segment_base index : Z) : list string :=
  List.app [ "@" ++ str_of_int segment_base;
     "D=M";
     "@" ++ str_of_int index;
     "A=D+A";
     "D=M" ] _ApplyPushTemplate.

Definition _ApplyPopDirectTemplate (value : Py.value) : list string :=
  [ "@SP";
    "M=M-1";
    "A=M";
    "D=M";
    "@" ++ str value;
    "M=D" ].

Definition _ApplyPopIndirectTemplate (segment_base index : Z) : list string :=
  [ "@" ++ str_of_int segment_base;
    "D=M";
    "@" ++ str_of_int index;
    "D=D+A";
    "@13";
    "M=D";
    "@SP";
    "M=M-1";
    "A=M";
    "D=M";
    "@13";
    "A=M";
    "M=D" ].

Definition _FromMemoryToD (address : Z) : list string :=
  [ "@" ++ str (VInt address);
    "D=M" ].

Definition _FromMemoryDToD : list string :=
  [ "A=D";
    "D=M" ].

Definition _FromDToMemory (address : Z) : list string :=
  [ "@" ++ str (VInt address);
    "M=D" ].

Definition _FromDToMemoryIndirect (address : Z) : list string :=
  [ "@" ++ str (VInt address);
    "A=M";
    "M=D" ].

Definition _FromMemoryToMemory (from_address to_address : Z) : list string :=
  sum_lists [ _FromMemoryToD from_address; _FromDToMemory to_address ].

Definition _AddConstantToD (constant : Z) : list string :=
  let op := if (constant <? 0)%Z then "-" else "+" in
  let constant := if (constant <? 0)%Z then (- constant)%Z else constant in
  [ "@" ++ str_of_int constant;
    "D=D" ++ op ++ "A" ].

Definition _PopToD : list string :=
  [ "@SP";
    "M=M-1";
    "A=M";
    "D=M" ].

Definition _PushConstant (constant : Py.value) : list string :=
  [ "@" ++ str constant;
    "D=A";
    "@SP";
    "M=M+1";
    "A=M-1";
    "M=D" ].

Definition _PushFromMemory (address : Z) : list string :=
  sum_lists [ _FromMemoryToD address;
              [ "@SP";
                "M=M+1";
                "A=M-1";
                "M=D" ] ].

Definition _CreateLabel (label_name : string) : list string :=
  [ "(" ++ str (VStr label_name) ++ ")" ].

Definition _GotoLabel (label_name : string) : list string :=
  [ "@" ++ str (VStr label_name);
    "0;JMP" ].

Definition _GotoLocationFromMemory (address : Z) : list string :=
  [ "@" ++ str (VInt address);
    "A=M";
    "0;JMP" ].

Definition GenerateAsmAddCommand (name function_name : string) (number : Z)
  : generated := Ret (Some (_ApplyBinaryTemplate "+")).
Definition GenerateAsmSubCommand (name function_name : string) (number : Z)
  : generated := Ret (Some (_ApplyBinaryTemplate "-")).
Definition GenerateAsmNegCommand (name function_name : string) (number : Z)
  : generated := Ret (Some (_ApplyUnaryTemplate "-")).
Definition GenerateAsmEqCommand (name function_name : string) (number : Z)
  : generated := Ret (Some (_ApplyComparisonTemplate "JEQ" name number)).
Definition GenerateAsmGtCommand (name function_name : string) (number : Z)
  : generated := Ret (Some (_ApplyComparisonTemplate "JLT" name number)).
Definition GenerateAsmLtCommand (name function_name : string) (number : Z)
  : generated := Ret (Some (_ApplyComparisonTemplate "JGT" name number)).
Definition GenerateAsmAndCommand (name function_name : string) (number : Z)
  : generated := Ret (Some (_ApplyBinaryTemplate "&")).
Definition GenerateAsmOrCommand (name function_name : string) (number : Z)
  : generated := Ret (Some (_ApplyBinaryTemplate "|")).
Definition GenerateAsmNotCommand (name function_name : string) (number : Z)
  : generated := Ret (Some (_ApplyUnaryTemplate "!")).

Definition GenerateAsmPushCommand (segment : string) (index : Z)
  (name function_name : string) (number : Z) : generated :=
  if String.eqb segment "constant" then
    Ret (Some (_ApplyPushConstantTemplate index))
  else if in_list segment ["temp"; "pointer"] then
    base <- getitem _SEGMENT_MAPPING segment ;;
    Ret (Some (_ApplyPushDirectTemplate (VInt (base + index))))
  else if in_list segment ["argument"; "local"; "this"; "that"] then
    base <- getitem _SEGMENT_MAPPING segment ;;
    Ret (Some (_ApplyPushIndirectTemplate base index))
  else if String.eqb segment "static" then
    Ret (Some (_ApplyPushDirectTemplate
                 (VStr (name ++ "." ++ str_of_int index))))
  else Ret None.

Definition GenerateAsmPopCommand (segment : string) (index : Z)
  (name function_name : string) (number : Z) : generated :=
  if in_list segment ["temp"; "pointer"] then
    base <- getitem _SEGMENT_MAPPING segment ;;
    Ret (Some (_ApplyPopDirectTemplate (VInt (base + index))))
  else if in_list segment ["argument"; "local"; "this"; "that"] then
    base <- getitem _SEGMENT_MAPPING segment ;;
    Ret (Some (_ApplyPopIndirectTemplate base index))
  else if String.eqb segment "static" then
    Ret (Some (_ApplyPopDirectTemplate
                 (VStr (name ++ "." ++ str_of_int index))))
  else Ret None.

Definition GenerateAsmLabelCommand (label_name : string)
  (name function_name : string) (number : Z) : generated :=
  Ret (Some [ "(" ++ function_name ++ "$" ++ label_name ++ ")" ]).

Definition GenerateAsmGotoCommand (label_name : string)
  (name function_name : string) (number : Z) : generated :=
  Ret (Some [ "@" ++ function_name ++ "$" ++ label_name;
              "0;JMP" ]).

Definition GenerateAsmIfGotoCommand (label_name : string)
  (name function_name : string) (number : Z) : generated :=
  Ret (Some [ "@SP";
              "M=M-1";
              "A=M";
              "D=M";
              "@" ++ function_name ++ "$" ++ label_name;
              "D;JNE" ]).

Definition GenerateAsmFunctionCommand (function_name' : string)
  (local_variables : Z) (name function_name : string) (number : Z)
  : generated :=
  Ret (Some (sum_lists [ _CreateLabel function_name';
                         times (_PushConstant (VInt 0)) local_variables ])).

Definition GenerateAsmCallCommand (function_name' : string) (arguments : Z)
  (name function_name : string) (number : Z) : generated :=
  let goto_name := function_name' in
  let return_address := name ++ "$" ++ str_of_int number ++ "$return-address" in
  local <- getitem _SEGMENT_MAPPING "local" ;;
  argument <- getitem _SEGMENT_MAPPING "argument" ;;
  this <- getitem _SEGMENT_MAPPING "this" ;;
  that <- getitem _SEGMENT_MAPPING "that" ;;
  sp <- getitem _SEGMENT_MAPPING "sp" ;;
  Ret (Some (sum_lists [
    _PushConstant (VStr return_address);
    _PushFromMemory local;
    _PushFromMemory argument;
    _PushFromMemory this;
    _PushFromMemory that;
    _FromMemoryToD sp;
    _AddConstantToD (- arguments - 5);
    _FromDToMemory argument;
    _FromMemoryToMemory sp local;
    _GotoLabel goto_name;
    _CreateLabel return_address ])).

Definition GenerateAsmReturnCommand (name function_name : string) (number : Z)
  : generated :=
  local <- getitem _SEGMENT_MAPPING "local" ;;
  argument <- getitem _SEGMENT_MAPPING "argument" ;;
  sp <- getitem _SEGMENT_MAPPING "sp" ;;
  that <- getitem _SEGMENT_MAPPING "that" ;;
  this <- getitem _SEGMENT_MAPPING "this" ;;
  Ret (Some (sum_lists [
    _FromMemoryToMemory local 13;
    _FromMemoryToD 13;
    _AddConstantToD (-5);
    _FromMemoryDToD;
    _FromDToMemory 14;
    _PopToD;
    _FromDToMemoryIndirect argument;
    _FromMemoryToD argument;
    _AddConstantToD 1;
    _FromDToMemory sp;
    _FromMemoryToD 13;
    _AddConstantToD (-1);
    _FromMemoryDToD;
    _FromDToMemory that;
    _FromMemoryToD 13;
    _AddConstantToD (-2);
    _FromMemoryDToD;
    _FromDToMemory this;
    _FromMemoryToD 13;
    _AddConstantToD (-3);
    _FromMemoryDToD;
    _FromDToMemory argument;
    _FromMemoryToD 13;
    _AddConstantToD (-4);
    _FromMemoryDToD;
    _FromDToMemory local;
    _GotoLocationFromMemory 14 ])).

Definition GenerateAsmEmptyCommand (name function_name : string) (number : Z)
  : generated := Ret (Some []).

(** [GenerateAsm]: the generator is looked up by the name of the command's
    class.  There is no [GenerateAsmErrorCommand], and none for the class
    of [None], so [getattr] raises [AttributeError] for those. *)
Definition GenerateAsm (command : option command) (name function_name : string)
  (number : Z) : generated :=
  match command with
  | None => Raise AttributeError
  | Some AddCommand => GenerateAsmAddCommand name function_name number
  | Some SubCommand => GenerateAsmSubCommand name function_name number
  | Some NegCommand => GenerateAsmNegCommand name function_name number
  | Some EqCommand => GenerateAsmEqCommand name function_name number
  | Some GtCommand => GenerateAsmGtCommand name function_name number
  | Some LtCommand => GenerateAsmLtCommand name function_name number
  | Some AndCommand => GenerateAsmAndCommand name function_name number
  | Some OrCommand => GenerateAsmOrCommand name function_name number
  | Some NotCommand => GenerateAsmNotCommand name function_name number
  | Some (PushCommand segment index) =>
      GenerateAsmPushCommand segment index name function_name number
  | Some (PopCommand segment index) =>
      GenerateAsmPopCommand segment index name function_name number
  | Some (LabelCommand l) => GenerateAsmLabelCommand l name function_name number
  | Some (GotoCommand l) => GenerateAsmGotoCommand l name function_name number
  | Some (IfGotoCommand l) => GenerateAsmIfGotoCommand l name function_name number
  | Some (FunctionCommand f k) =>
      GenerateAsmFunctionCommand f k name function_name number
  | Some (CallCommand f n) =>
      GenerateAsmCallCommand f n name function_name number
  | Some ReturnCommand => GenerateAsmReturnCommand name function_name number
  | Some EmptyCommand => GenerateAsmEmptyCommand name function_name number
  | Some (ErrorCommand _) => Raise AttributeError
  end.

Definition GenerateBootstrapAsm : generated :=
  call <- GenerateAsmCallCommand "Sys.init" 0 "Sys" "" 1000000 ;;
  match call with
  | Some call => Ret (Some (sum_lists [ [ "@256"; "D=A"; "@0"; "M=D" ]; call ]))
  | None => Raise TypeError
  end.

End HackCodeGenerator.

(* ================================================================== *)
(** * The module-level pipeline *)
(* ================================================================== *)

(** The loop of [ParseProgram] that collects one entry per [ErrorCommand];
    [line_number] is the 0-based index of the head of [commands]. *)
Fixpoint collect_errors (program_name : string) (line_number : Z)
  (commands : list (option command)) : list string :=
  match commands with
  | [] => []
  | Some (ErrorCommand line) :: rest =>
      (program_name ++ "." ++ str_of_int (line_number + 1) ++ ": " ++ line)
      :: collect_errors program_name (line_number + 1) rest
  | _ :: rest => collect_errors program_name (line_number + 1) rest
  end.

Definition ParseProgram (program_lines : list string) (program_name : string)
  : result (list (option command)) :=
  program_commands <- map_result ParseCommand program_lines ;;
  let errors := collect_errors program_name 0 program_commands in
  if (0 <? List.length errors)%nat
  then Raise (VMError ("Error: " ++ join linesep errors))
  else Ret program_commands.

Fixpoint parent_functions_from (current_function : string)
  (program_commands : list (option command)) : list string :=
  match program_commands with
  | [] => []
  | command :: rest =>
      let current_function :=
        match command with
        | Some (FunctionCommand function_name _) => function_name
        | _ => current_function
        end in
      current_function :: parent_functions_from current_function rest
  end.

Definition IdentifyParentFunctions (program_commands : list (option command))
  : list string :=
  parent_functions_from "DEFAULT_FUNCTION" program_commands.

(** [range(n)] *)
Definition range (n : nat) : list Z := List.map Z.of_nat (List.seq 0 n).

(** [zip(a, b, c, d)] *)
Fixpoint zip4 {A B C D : Type} (a : list A) (b : list B) (c : list C)
  (d : list D) : list (A * B * C * D) :=
  match a, b, c, d with
  | x :: a', y :: b', z :: c', w :: d' => (x, y, z, w) :: zip4 a' b' c' d'
  | _, _, _, _ => []
  end.

Definition DecorateCommands (program_commands : list (option command))
  (program_name : string) : list (option command * string * string * Z) :=
  zip4 program_commands
       (List.repeat program_name (List.length program_commands))
       (IdentifyParentFunctions program_commands)
       (range (List.length program_commands)).

Definition GenerateAsm
  (decorated_program_commands : list (option command * string * string * Z))
  : result (list (option (list string))) :=
  map_result
    (fun c => let '(c0, c1, c2, c3) := c in
              HackCodeGenerator.GenerateAsm c0 c1 c2 c3)
    decorated_program_commands.

(** [sum(asm_chunks, [])]; adding [None] to a list raises [TypeError]. *)
Fixpoint FlattenAsm (asm_chunks : list (option (list string)))
  : result (list string) :=
  match asm_chunks with
  | [] => Ret []
  | Some chunk :: rest =>
      tail <- FlattenAsm rest ;; Ret (List.app chunk tail)
  | None :: _ => Raise TypeError
  end.

Definition AssembleProgram (program_lines : list string) (program_name : string)
  : result (list string) :=
  program_commands <- ParseProgram program_lines program_name ;;
  asm_chunks <- GenerateAsm (DecorateCommands program_commands program_name) ;;
  FlattenAsm asm_chunks.

Definition LinkPrograms (programs : list (string * list string))
  : result (list string) :=
  chunks <- map_result (fun p => AssembleProgram (snd p) (fst p)) programs ;;
  Ret (List.concat chunks).

Definition AttachBootstrapCode (program_asm : list string)
  : result (list string) :=
  bootstrap <- HackCodeGenerator.GenerateBootstrapAsm ;;
  match bootstrap with
  | Some bootstrap => Ret (List.app bootstrap program_asm)
  | None => Raise TypeError
  end.

(* ================================================================== *)
(** * The Hack computer *)
(* ================================================================== *)

(** The target of the translation: a 16-bit machine with an address
    register [A], a data register [D], a program counter and a RAM; [M]
    denotes the RAM cell addressed by [A].  The machine below runs the
    assembly text itself: the ROM holds the emitted lines (label
    definitions removed, as the assembler does), and a symbol table gives
    the addresses the assembler chose for labels and variables. *)

Module Hack.

(** Arithmetic results are reduced to 16 bits. *)
Definition wrap (z : Z) : Z := z mod 65536.

(** The two's complement reading of a word. *)
Definition signed (w : Z) : Z := if (w <? 32768)%Z then w else w - 65536.

(** True and false as the VM represents them. *)
Definition all_ones : Z := 65535.

Record machine : Type := mkMachine
  { PC : Z;
    A : Z;
    D : Z;
    RAM : Z -> Z }.

Definition store (ram : Z -> Z) (address v : Z) : Z -> Z :=
  fun x => if (x =? address)%Z then v else ram x.

Fixpoint assoc {V : Type} (key : string) (table : list (string * V))
  : option V :=
  match table with
  | [] => None
  | (k, v) :: table' => if String.eqb k key then Some v else assoc key table'
  end.

(** ** Instructions *)

Inductive cexp : Type :=
| C_0 | C_1 | C_m1 | C_D | C_A | C_M
| C_notD | C_notA | C_notM | C_negD | C_negA | C_negM
| C_Dp1 | C_Ap1 | C_Mp1 | C_Dm1 | C_Am1 | C_Mm1
| C_DpA | C_DpM | C_DmA | C_DmM | C_AmD | C_MmD
| C_DandA | C_DandM | C_DorA | C_DorM.

Definition comp_table : list (string * cexp) :=
  [ ("0", C_0); ("1", C_1); ("-1", C_m1); ("D", C_D); ("A", C_A); ("M", C_M);
    ("!D", C_notD); ("!A", C_notA); ("!M", C_notM);
    ("-D", C_negD); ("-A", C_negA); ("-M", C_negM);
    ("D+1", C_Dp1); ("A+1", C_Ap1); ("M+1", C_Mp1);
    ("D-1", C_Dm1); ("A-1", C_Am1); ("M-1", C_Mm1);
    ("D+A", C_DpA); ("D+M", C_DpM); ("D-A", C_DmA); ("D-M", C_DmM);
    ("A-D", C_AmD); ("M-D", C_MmD);
    ("D&A", C_DandA); ("D&M", C_DandM); ("D|A", C_DorA); ("D|M", C_DorM) ].

Inductive jump : Type := JGT | JEQ | JGE | JLT | JNE | JLE | JMP.

Definition jump_table : list (string * jump) :=
  [ ("JGT", JGT); ("JEQ", JEQ); ("JGE", JGE); ("JLT", JLT);
    ("JNE", JNE); ("JLE", JLE); ("JMP", JMP) ].

Inductive instr : Type :=
| AInstr (operand : string)
| CInstr (dest : string) (c : cexp) (j : option jump).

(** [cut sep s]: the text before the first [sep] and the text after it. *)
Fixpoint cut (sep : ascii) (s : string) : option (string * string) :=
  match s with
  | EmptyString => None
  | String c s' =>
      if Ascii.eqb c sep then Some (EmptyString, s')
      else match cut sep s' with
           | Some (before, after) => Some (String c before, after)
           | None => None
           end
  end.

Definition dest_char (c : ascii) : bool :=
  Ascii.eqb c "A" || Ascii.eqb c "M" || Ascii.eqb c "D".

(** [dest=comp;jump], where [dest=] and [;jump] may be absent. *)
Definition parse_C (s : string) : option instr :=
  let '(dest, rest) :=
    match cut "=" s with Some (d, r) => (d, r) | None => (EmptyString, s) end in
  let '(c, j) :=
    match cut ";" rest with
    | Some (c, j) => (c, Some j)
    | None => (rest, None)
    end in
  if all_chars dest_char dest then
    match assoc c comp_table with
    | Some e =>
        match j with
        | None => Some (CInstr dest e None)
        | Some j =>
            match assoc j jump_table with
            | Some j => Some (CInstr dest e (Some j))
            | None => None
            end
        end
    | None => None
    end
  else None.

Definition parse (s : string) : option instr :=
  match s with
  | String "@" operand => Some (AInstr operand)
  | _ => parse_C s
  end.

(** A line [(X)] defines the label [X]; it occupies no ROM cell. *)
Fixpoint drop_last (s : string) : string :=
  match s with
  | EmptyString => EmptyString
  | String c EmptyString => EmptyString
  | String c s' => String c (drop_last s')
  end.

Definition label_of (s : string) : option string :=
  match s with
  | String "(" rest => Some (drop_last rest)
  | _ => None
  end.

Definition is_label (s : string) : bool :=
  match s with
  | String "(" _ => true
  | _ => false
  end.

(** The operand of an A-instruction [@X]. *)
Definition operand_of (s : string) : option string :=
  match s with
  | String "@" operand => Some operand
  | _ => None
  end.

Fixpoint defined_labels (asm : list string) : list string :=
  match asm with
  | [] => []
  | s :: asm' =>
      match label_of s with
      | Some l => l :: defined_labels asm'
      | None => defined_labels asm'
      end
  end.

Fixpoint referenced_symbols (asm : list string) : list string :=
  match asm with
  | [] => []
  | s :: asm' =>
      match operand_of s with
      | Some x => x :: referenced_symbols asm'
      | None => referenced_symbols asm'
      end
  end.

(** The lines that end up in ROM. *)
Fixpoint instructions (asm : list string) : list string :=
  match asm with
  | [] => []
  | s :: asm' => if is_label s then instructions asm' else s :: instructions asm'
  end.

(** The first pass of the assembler: each label gets the ROM address of the
    instruction that follows its definition, [base] being the address of
    the first line of [asm]. *)
Fixpoint label_table (base : Z) (asm : list string) : list (string * Z) :=
  match asm with
  | [] => []
  | s :: asm' =>
      match label_of s with
      | Some l => (l, base) :: label_table base asm'
      | None => label_table (base + 1) asm'
      end
  end.

Definition predefined : list (string * Z) :=
  [ ("SP", 0); ("LCL", 1); ("ARG", 2); ("THIS", 3); ("THAT", 4);
    ("R0", 0); ("R1", 1); ("R2", 2); ("R3", 3); ("R4", 4); ("R5", 5);
    ("R6", 6); ("R7", 7); ("R8", 8); ("R9", 9); ("R10", 10); ("R11", 11);
    ("R12", 12); ("R13", 13); ("R14", 14); ("R15", 15);
    ("SCREEN", 16384); ("KBD", 24576) ].

(** ** Execution *)

Definition eval (c : cexp) (a d m : Z) : Z :=
  match c with
  | C_0 => 0
  | C_1 => 1
  | C_m1 => wrap (-1)
  | C_D => d
  | C_A => a
  | C_M => m
  | C_notD => wrap (Z.lnot d)
  | C_notA => wrap (Z.lnot a)
  | C_notM => wrap (Z.lnot m)
  | C_negD => wrap (- d)
  | C_negA => wrap (- a)
  | C_negM => wrap (- m)
  | C_Dp1 => wrap (d + 1)
  | C_Ap1 => wrap (a + 1)
  | C_Mp1 => wrap (m + 1)
  | C_Dm1 => wrap (d - 1)
  | C_Am1 => wrap (a - 1)
  | C_Mm1 => wrap (m - 1)
  | C_DpA => wrap (d + a)
  | C_DpM => wrap (d + m)
  | C_DmA => wrap (d - a)
  | C_DmM => wrap (d - m)
  | C_AmD => wrap (a - d)
  | C_MmD => wrap (m - d)
  | C_DandA => wrap (Z.land d a)
  | C_DandM => wrap (Z.land d m)
  | C_DorA => wrap (Z.lor d a)
  | C_DorM => wrap (Z.lor d m)
  end.

Definition taken (j : option jump) (v : Z) : bool :=
  match j with
  | None => false
  | Some JGT => (0 <? signed v)%Z
  | Some JEQ => (v =? 0)%Z
  | Some JGE => (0 <=? signed v)%Z
  | Some JLT => (signed v <? 0)%Z
  | Some JNE => negb (v =? 0)%Z
  | Some JLE => (signed v <=? 0)%Z
  | Some JMP => true
  end.

Definition has (c : ascii) (dest : string) : bool :=
  negb (all_chars (fun x => negb (Ascii.eqb x c)) dest).

Section Run.

(** The addresses given to the symbols that are neither numbers nor
    predefined: labels and variables. *)
Variable symtab : string -> Z.

(** The program, one instruction per cell. *)
Variable rom : list string.

(** The value an A-instruction loads: a constant of at most 15 bits, a
    predefined symbol, or the address of a label or variable. *)
Definition resolve (operand : string) : option Z :=
  if isdigit operand then
    match int operand with
    | Ret n => if (n <? 32768)%Z then Some n else None
    | Raise _ => None
    end
  else
    match assoc operand predefined with
    | Some a => Some a
    | None => Some (symtab operand)
    end.

Definition exec_instr (i : instr) (m : machine) : option machine :=
  match i with
  | AInstr operand =>
      match resolve operand with
      | Some v => Some (mkMachine (PC m + 1) v (D m) (RAM m))
      | None => None
      end
  | CInstr dest c j =>
      let v := eval c (A m) (D m) (RAM m (A m)) in
      Some (mkMachine
              (if taken j v then A m else PC m + 1)
              (if has "A" dest then v else A m)
              (if has "D" dest then v else D m)
              (if has "M" dest then store (RAM m) (A m) v else RAM m))
  end.

Definition exec (line : string) (m : machine) : option machine :=
  match parse line with
  | Some i => exec_instr i m
  | None => None
  end.

Definition step (m : machine) : option machine :=
  if (PC m <? 0)%Z then None
  else match nth_error rom (Z.to_nat (PC m)) with
       | Some line => exec line m
       | None => None
       end.

Fixpoint run (n : nat) (m : machine) : option machine :=
  match n with
  | O => Some m
  | S n' =>
      match step m with
      | Some m' => run n' m'
      | None => None
      end
  end.

(** Executing a sequence of lines one after the other; defined as long as
    no line transfers control. *)
Fixpoint exec_seq (code : list string) (m : machine) : option machine :=
  match code with
  | [] => Some m
  | line :: code' =>
      match exec line m with
      | Some m' =>
          if (PC m' =? PC m + 1)%Z then exec_seq code' m' else None
      | None => None
      end
  end.

(** [code] sits in ROM from address [base] on. *)
Definition in_rom (base : nat) (code : list string) : Prop :=
  firstn (List.length code) (skipn base rom) = code.

(** The instructions of [asm] sit in ROM from address [base] on. *)
Definition loaded_at (base : nat) (asm : list string) : Prop :=
  in_rom base (instructions asm).

(** The symbol table agrees with the labels that [asm], loaded at [base],
    defines. *)
Definition labels_resolved (base : nat) (asm : list string) : Prop :=
  Forall (fun la => symtab (fst la) = snd la) (label_table (Z.of_nat base) asm).

End Run.

(** The successor of a state after an instruction that falls through and
    writes [v] to [A], to [D] or to [M]. *)
Definition next_A (v : Z) (m : machine) : machine :=
  mkMachine (PC m + 1) v (D m) (RAM m).
Definition next_D (v : Z) (m : machine) : machine :=
  mkMachine (PC m + 1) (A m) v (RAM m).
Definition next_M (v : Z) (m : machine) : machine :=
  mkMachine (PC m + 1) (A m) (D m) (store (RAM m) (A m) v).

(** The symbol table of a program assembled on its own: its labels, any
    other symbol being taken for a variable at [default]. *)
Definition symtab_of (asm : list string) (default : Z) : string -> Z :=
  fun x => match assoc x (label_table 0 asm) with
           | Some a => a
           | None => default
           end.

End Hack.

Import Hack.

(* ================================================================== *)
(** * Vocabulary of the properties *)
(* ================================================================== *)

(** The instruction grammars: every parser of [_COMMAND_PARSE_ORDER] but
    the last one, the fallback that accepts any text as malformed. *)
Definition grammar_parsers : list (string -> parsed) :=
  removelast _COMMAND_PARSE_ORDER.

(** The commands the grammars can produce: not [ErrorCommand], and a
    segment out of [_SEGMENT_NAMES] ([constant] excluded for [pop]). *)
Definition well_formed (c : command) : bool :=
  match c with
  | ErrorCommand _ => false
  | PushCommand segment _ => in_list segment _SEGMENT_NAMES
  | PopCommand segment _ =>
      in_list segment _SEGMENT_NAMES && negb (String.eqb segment "constant")
  | _ => true
  end.

(** The malformed lines of a parsed program, each with its 0-based
    position and the text it carries. *)
Definition malformed_lines (commands : list (option command))
  : list (Z * string) :=
  flat_map
    (fun ic => match snd ic with
               | Some (ErrorCommand line) => [(fst ic, line)]
               | _ => []
               end)
    (combine (range (List.length commands)) commands).

(** The same, for a program fragment whose first line is at position [k]. *)
Definition malformed_from (k : nat) (commands : list (option command))
  : list (Z * string) :=
  flat_map
    (fun ic => match snd ic with
               | Some (ErrorCommand line) => [(fst ic, line)]
               | _ => []
               end)
    (combine (List.map Z.of_nat (List.seq k (List.length commands))) commands).

(** The diagnostic entry of the malformed line at 0-based position
    [fst il] of program [program_name]. *)
Definition diagnostic (program_name : string) (il : Z * string) : string :=
  program_name ++ "." ++ str_of_int (fst il + 1) ++ ": " ++ snd il.

Definition is_comparison (c : command) : bool :=
  match c with
  | EqCommand | GtCommand | LtCommand => true
  | _ => false
  end.

Definition branch_label (name : string) (number : Z) : string :=
  name ++ "$" ++ str_of_int number ++ "$branch".

Definition end_label (name : string) (number : Z) : string :=
  name ++ "$" ++ str_of_int number ++ "$end".

Definition return_address (name : string) (number : Z) : string :=
  name ++ "$" ++ str_of_int number ++ "$return-address".

(** The part of the call sequence that runs before control is transferred:
    it saves the frame and repositions [ARG] and [LCL]. *)
Definition call_frame_code (name : string) (number arguments : Z)
  : list string :=
  HackCodeGenerator.sum_lists [
    HackCodeGenerator._PushConstant (VStr (return_address name number));
    HackCodeGenerator._PushFromMemory 1;
    HackCodeGenerator._PushFromMemory 2;
    HackCodeGenerator._PushFromMemory 3;
    HackCodeGenerator._PushFromMemory 4;
    HackCodeGenerator._FromMemoryToD 0;
    HackCodeGenerator._AddConstantToD (- arguments - 5);
    HackCodeGenerator._FromDToMemory 2;
    HackCodeGenerator._FromMemoryToMemory 0 1 ].

(** The RAM after the call sequence, run with stack pointer [sp], for
    [n] arguments, [ra] being the address of the return label. *)
Definition call_ram (ram : Z -> Z) (sp n ra : Z) : Z -> Z :=
  let r1 := store (store ram 0 (sp + 1)) sp ra in
  let r2 := store (store r1 0 (sp + 2)) (sp + 1) (ram 1) in
  let r3 := store (store r2 0 (sp + 3)) (sp + 2) (ram 2) in
  let r4 := store (store r3 0 (sp + 4)) (sp + 3) (ram 3) in
  let r5 := store (store r4 0 (sp + 5)) (sp + 4) (ram 4) in
  let r6 := store r5 2 (wrap (sp + 5 - n - 5)) in
  store r6 1 (sp + 5).

(** The part of the return sequence that runs before control goes back to
    the caller. *)
Definition return_frame_code : list string :=
  HackCodeGenerator.sum_lists [
    HackCodeGenerator._FromMemoryToMemory 1 13;
    HackCodeGenerator._FromMemoryToD 13;
    HackCodeGenerator._AddConstantToD (-5);
    HackCodeGenerator._FromMemoryDToD;
    HackCodeGenerator._FromDToMemory 14;
    HackCodeGenerator._PopToD;
    HackCodeGenerator._FromDToMemoryIndirect 2;
    HackCodeGenerator._FromMemoryToD 2;
    HackCodeGenerator._AddConstantToD 1;
    HackCodeGenerator._FromDToMemory 0;
    HackCodeGenerator._FromMemoryToD 13;
    HackCodeGenerator._AddConstantToD (-1);
    HackCodeGenerator._FromMemoryDToD;
    HackCodeGenerator._FromDToMemory 4;
    HackCodeGenerator._FromMemoryToD 13;
    HackCodeGenerator._AddConstantToD (-2);
    HackCodeGenerator._FromMemoryDToD;
    HackCodeGenerator._FromDToMemory 3;
    HackCodeGenerator._FromMemoryToD 13;
    HackCodeGenerator._AddConstantToD (-3);
    HackCodeGenerator._FromMemoryDToD;
    HackCodeGenerator._FromDToMemory 2;
    HackCodeGenerator._FromMemoryToD 13;
    HackCodeGenerator._AddConstantToD (-4);
    HackCodeGenerator._FromMemoryDToD;
    HackCodeGenerator._FromDToMemory 1 ].

(** The RAM after the return sequence, run with [LCL = frame],
    [ARG = arg] and stack pointer [sp]. *)
Definition return_ram (ram : Z -> Z) (frame arg sp : Z) : Z -> Z :=
  let r1 := store ram 13 frame in
  let r2 := store r1 14 (ram (frame - 5)) in
  let r3 := store r2 0 (sp - 1) in
  let r4 := store r3 arg (ram (sp - 1)) in
  let r5 := store r4 0 (arg + 1) in
  let r6 := store r5 4 (ram (frame - 1)) in
  let r7 := store r6 3 (ram (frame - 2)) in
  let r8 := store r7 2 (ram (frame - 3)) in
  store r8 1 (ram (frame - 4)).

(** ** A small program, used to run the properties on concrete data *)

Definition example_lines : list string :=
  [ "call Foo.f 2";
    "label END";
    "goto END";
    "function Foo.f 1";
    "push constant 7";
    "push argument 1";
    "add";
    "return" ].

Definition example_asm : list string :=
  match AssembleProgram example_lines "Foo" with
  | Ret asm => asm
  | Raise _ => []
  end.

Definition example_rom : list string := instructions example_asm.

Definition example_symtab : string -> Z := symtab_of example_asm 16.

(** The caller has pushed the two arguments 11 and 22 on a stack that
    starts at 256. *)
Definition example_ram : Z -> Z :=
  fun x =>
    match x with
    | 0 => 258
    | 1 => 300
    | 2 => 400
    | 3 => 3000
    | 4 => 4000
    | 256 => 11
    | 257 => 22
    | _ => 0
    end.

Definition example_machine : machine := mkMachine 0 0 0 example_ram.

(** The state of the example in which the callee reaches its [return]. *)
Definition example_at_return : machine :=
  match run example_symtab example_rom 71 example_machine with
  | Some m => m
  | None => example_machine
  end.

(** The comparison template, cut at its branch: what runs up to the
    conditional jump, the fall-through path and the path of the branch. *)
Definition comparison_prologue (name : string) (number : Z) : list string :=
  [ "@SP"; "M=M-1"; "A=M"; "D=M"; "A=A-1"; "D=D-M";
    "@" ++ branch_label name number ].

Definition comparison_branch (op : string) : list string :=
  [ "D;" ++ op ].

Definition comparison_false (name : string) (number : Z) : list string :=
  [ "@SP"; "A=M-1"; "M=0"; "@" ++ end_label name number ].

Definition comparison_true : list string :=
  [ "@SP"; "A=M-1"; "M=0"; "M=!M" ].

(** The jump mnemonic of each comparison. *)
Definition comparison_jumps : list (command * string * jump) :=
  [ (EqCommand, "JEQ", JEQ); (GtCommand, "JLT", JLT); (LtCommand, "JGT", JGT) ].

(** The comparisons of the VM on 16-bit two's complement values, [x] being
    the value pushed first and [y] the top of the stack. *)
Definition vm_compare (c : command) (x y : Z) : bool :=
  match c with
  | EqCommand => (signed x =? signed y)%Z
  | GtCommand => (signed y <? signed x)%Z
  | LtCommand => (signed x <? signed y)%Z
  | _ => false
  end.

(** Wherever [asm] is loaded, running it from its first instruction, for
    as many steps as it has instructions, takes [m] to [m']. *)
Definition executes (symtab : string -> Z) (asm : list string)
  (m m' : machine) : Prop :=
  forall rom base,
    loaded_at rom base asm -> PC m = Z.of_nat base ->
    run symtab rom (List.length (instructions asm)) m = Some m'.

(** The assembly of [lt] at position 2 of file [Foo], assembled on its
    own. *)
Definition example_lt_asm : list string :=
  HackCodeGenerator._ApplyComparisonTemplate "JGT" "Foo" 2.





(** ** The grammar of the specification

    The definitions of this part follow the words of the specification of
    the parser, not the code: they say what it is for a line to match an
    instruction grammar, so that the parser can be compared with them. *)

(** "Strip a trailing line-comment (text from the first occurrence of the
    two-character comment marker onward)" *)
Fixpoint spec_strip_comment (line : string) : string :=
  match line with
  | EmptyString => EmptyString
  | String c rest =>
      if String.prefix "//" line then EmptyString
      else String c (spec_strip_comment rest)
  end.

(** "... and surrounding whitespace": the trimmed text, against which the
    grammars are matched. *)
Definition spec_trimmed_text (line : string) : string :=
  strip (spec_strip_comment line).

Definition spec_zero_operand : list string :=
  ["add"; "sub"; "neg"; "eq"; "gt"; "lt"; "and"; "or"; "not"].

Definition spec_segment_names : list string :=
  ["argument"; "local"; "static"; "constant"; "this"; "that"; "pointer";
   "temp"].

(** "starts with a letter, underscore, period, or colon, followed by zero
    or more letters/digits/underscore/period/colon" *)
Definition spec_label_start (c : ascii) : bool :=
  isalpha_char c || Ascii.eqb c "_" || Ascii.eqb c "." || Ascii.eqb c ":".

Definition spec_label_char (c : ascii) : bool :=
  spec_label_start c || isdigit_char c.

Definition spec_label_identifier (s : string) : bool :=
  match s with
  | EmptyString => false
  | String c rest => spec_label_start c && all_chars spec_label_char rest
  end.

(** "a non-negative integer literal": one decimal digit or more. *)
Definition spec_integer_literal (s : string) : bool :=
  match s with
  | EmptyString => false
  | _ => all_chars isdigit_char s
  end.

(** The trimmed text [text] matches one of the instruction grammars: a
    zero-operand keyword, [push], [pop], [label] / [goto] / [if-goto],
    [function] / [call], [return], or the blank line. *)
Definition spec_matches_grammar (text : string) : bool :=
  in_list text spec_zero_operand
  || match split text with
     | [kw; name] =>
         in_list kw ["label"; "goto"; "if-goto"] && spec_label_identifier name
     | [kw; a; b] =>
         String.eqb kw "push" && in_list a spec_segment_names
           && spec_integer_literal b
         || String.eqb kw "pop" && in_list a spec_segment_names
              && negb (String.eqb a "constant") && spec_integer_literal b
         || in_list kw ["function"; "call"] && spec_label_identifier a
              && spec_integer_literal b
     | _ => false
     end
  || String.eqb text "return"
  || String.eqb text "".

(** [s] begins with a character of the class [cls]. *)
Definition begins_with (cls : ascii -> bool) (s : string) : bool :=
  match s with
  | EmptyString => false
  | String c _ => cls c
  end.

(** The lines whose operands begin as the grammar wants, whatever follows:
    a two-token [label], [goto] or [if-goto] line whose second token
    begins like a label, and a three-token [function] or [call] line whose
    second token begins like a label and whose third token begins with a
    digit. *)
Definition operands_begin_well (text : string) : bool :=
  match split text with
  | [kw; name] =>
      in_list kw ["label"; "goto"; "if-goto"] && begins_with label_head name
  | [kw; name; count] =>
      in_list kw ["function"; "call"] && begins_with label_head name
        && begins_with isdigit_char count
  | _ => false
  end.

(** [line in HackCodeGenerator.GenerateAsm(command, name, function_name,
    number)], as the unit tests of the module ask. *)
Definition emits (c : command) (name function_name : string) (number : Z)
  (line : string) : bool :=
  match HackCodeGenerator.GenerateAsm (Some c) name function_name number with
  | Ret (Some asm) => in_list line asm
  | _ => false
  end.

(* ================================================================== *)
(** * Vocabulary of the further properties *)
(* ================================================================== *)

(** The commands that are recognised by the whole of the trimmed text. *)
Definition simple_commands : list (string * command) :=
  [ ("add", AddCommand); ("sub", SubCommand); ("neg", NegCommand);
    ("eq", EqCommand); ("gt", GtCommand); ("lt", LtCommand);
    ("and", AndCommand); ("or", OrCommand); ("not", NotCommand);
    ("return", ReturnCommand); ("", EmptyCommand) ].

Definition label_commands : list (string * (string -> command)) :=
  [ ("label", LabelCommand); ("goto", GotoCommand);
    ("if-goto", IfGotoCommand) ].

Definition function_commands : list (string * (string -> Z -> command)) :=
  [ ("function", FunctionCommand); ("call", CallCommand) ].

(** [command.__class__.__name__ == "FunctionCommand"] *)
Definition is_FunctionCommand (c : option command) : bool :=
  match c with
  | Some (FunctionCommand _ _) => true
  | _ => false
  end.

(** The binary and unary operations of the VM on words, [x] being the
    value pushed first and [y] the top of the stack. *)
Definition vm_binary (c : command) (x y : Z) : Z :=
  match c with
  | AddCommand => wrap (x + y)
  | SubCommand => wrap (x - y)
  | AndCommand => wrap (Z.land x y)
  | OrCommand => wrap (Z.lor x y)
  | _ => 0
  end.

Definition vm_unary (c : command) (y : Z) : Z :=
  match c with
  | NegCommand => wrap (- y)
  | NotCommand => wrap (Z.lnot y)
  | _ => 0
  end.

Definition is_binary (c : command) : bool :=
  match c with
  | AddCommand | SubCommand | AndCommand | OrCommand => true
  | _ => false
  end.

Definition is_unary (c : command) : bool :=
  match c with
  | NegCommand | NotCommand => true
  | _ => false
  end.

(** The RAM cell that an access to [segment] at [index] refers to, in
    file [name], for a machine whose RAM is [ram]: [temp] and [pointer]
    are fixed cells, [argument], [local], [this] and [that] are based at
    the content of their base-pointer cell, and [static] is the variable
    [name.index] of the assembler.  [constant] is no cell. *)
Definition segment_address (symtab : string -> Z) (name : string)
  (ram : Z -> Z) (segment : string) (index : Z) : option Z :=
  if in_list segment ["temp"; "pointer"] then
    match HackCodeGenerator.getitem HackCodeGenerator._SEGMENT_MAPPING segment with
    | Ret base => Some (base + index)
    | Raise _ => None
    end
  else if in_list segment ["argument"; "local"; "this"; "that"] then
    match HackCodeGenerator.getitem HackCodeGenerator._SEGMENT_MAPPING segment with
    | Ret base => Some (wrap (ram base + index))
    | Raise _ => None
    end
  else if String.eqb segment "static" then
    Some (symtab (name ++ "." ++ str_of_int index))
  else None.

(** The assembly label of the VM label [label_name] of the function
    [function_name]. *)
Definition scoped_label (function_name label_name : string) : string :=
  function_name ++ "$" ++ label_name.

(* ================================================================== *)
(** * Properties of the parser *)
(* ================================================================== *)

Lemma digit_char_parses c d :
  isdigit_char c = true -> exists d', uint_of_char c (Some d) = Some d'.
Proof.
  destruct c as [[|] [|] [|] [|] [|] [|] [|] [|]]; intros H;
    try discriminate H; simpl; eauto.
Qed.

Lemma all_digits_parse s :
  all_chars isdigit_char s = true -> exists d, NilEmpty.uint_of_string s = Some d.
Proof.
  induction s as [|c s IH]; simpl; intros H.
  - eauto.
  - apply andb_true_iff in H as [Hc Hs].
    destruct (IH Hs) as [d ->]. now apply digit_char_parses.
Qed.

Lemma int_isdigit s : isdigit s = true -> exists n, int s = Ret n.
Proof.
  intros H. unfold int. rewrite H.
  assert (Ha : all_chars isdigit_char s = true) by (destruct s; [discriminate|exact H]).
  destruct (all_digits_parse s Ha) as [d ->]. eauto.
Qed.

Lemma int_not_isdigit s : isdigit s = false -> int s = Raise ValueError.
Proof. intros H. unfold int. now rewrite H. Qed.

Ltac parse_unfold :=
  unfold ParseAddCommand, ParseSubCommand, ParseNegCommand, ParseEqCommand,
    ParseGtCommand, ParseLtCommand, ParseAndCommand, ParseOrCommand,
    ParseNotCommand, ParsePushCommand, ParsePopCommand, ParseLabelCommand,
    ParseGotoCommand, ParseIfGotoCommand, ParseFunctionCommand,
    ParseCallCommand, ParseReturnCommand, ParseEmptyCommand, ParseErrorCommand,
    _ParseSimpleCommand, _ParseGenericLabelCommand, _ParseGenericFunctionCommand.



Lemma first_result_app ps qs l :
  first_result (ps ++ qs)%list l =
  (r <- first_result ps l ;;
   match r with
   | Some c => Ret (Some c)
   | None => first_result qs l
   end).
Proof.
  induction ps as [|p ps IH]; cbn [first_result List.app bind].
  - reflexivity.
  - destruct (p l) as [[c|]|e]; cbn [bind]; auto.
Qed.

Lemma ParseCommand_eq line :
  ParseCommand line =
  match first_result grammar_parsers (_TrimProgramLine line) with
  | Ret (Some c) => Ret (Some c)
  | Ret None => Ret (Some (ErrorCommand (_TrimProgramLine line)))
  | Raise e => Raise e
  end.
Proof.
  unfold ParseCommand.
  change _COMMAND_PARSE_ORDER with (grammar_parsers ++ [ParseErrorCommand])%list.
  rewrite first_result_app.
  destruct (first_result grammar_parsers _) as [[c|]|e]; reflexivity.
Qed.

Ltac accept := solve [right; left; eexists; split; [reflexivity|auto]].

Ltac simple_keywords l :=
  repeat match goal with
  | |- context [String.eqb l ?k] =>
      destruct (String.eqb l k); cbn [bind]; [accept|]
  end.

Lemma grammar_cases l :
  first_result grammar_parsers l = Ret None \/
  (exists c, first_result grammar_parsers l = Ret (Some c) /\
             well_formed c = true) \/
  (first_result grammar_parsers l = Raise ValueError /\
   exists kw f t, split l = [kw; f; t] /\
     (kw = "function" \/ kw = "call") /\
     re_match _RE_LABEL f = true /\
     re_match _RE_NUMBER t = true /\ isdigit t = false).
Proof.
  unfold grammar_parsers, _COMMAND_PARSE_ORDER.
  cbn [removelast first_result]. parse_unfold.
  destruct (split l) as [|p0 [|p1 [|p2 [|p3 ps]]]]; cbn [bind].
  1, 2, 5: simple_keywords l; left; reflexivity.
  - simple_keywords l.
    repeat match goal with
    | |- context [if ?b then _ else _] => destruct b; cbn [bind]; [accept|]
    end.
    simple_keywords l. left; reflexivity.
  - simple_keywords l.
    destruct (String.eqb p0 "push" && _ && _) eqn:E1; cbn [bind].
    { apply andb_true_iff in E1 as [E1 Hd]. apply andb_true_iff in E1 as [_ E1].
      destruct (int_isdigit _ Hd) as [n ->]. cbn [bind]. accept. }
    destruct (String.eqb p0 "pop" && _ && _ && _) eqn:E2; cbn [bind].
    { apply andb_true_iff in E2 as [E2 Hd]. apply andb_true_iff in E2 as [E2 Hc].
      apply andb_true_iff in E2 as [_ E2].
      destruct (int_isdigit _ Hd) as [n ->]. cbn [bind].
      right; left; eexists; split; [reflexivity|]. cbn [well_formed].
      now rewrite E2, Hc. }
    destruct (String.eqb p0 "function" && _ && _) eqn:E3; cbn [bind].
    { apply andb_true_iff in E3 as [E3 E3n]. apply andb_true_iff in E3 as [E3 E3l].
      apply String.eqb_eq in E3. subst p0.
      destruct (isdigit p2) eqn:Hd.
      - destruct (int_isdigit _ Hd) as [n ->]. cbn [bind]. accept.
      - right; right. rewrite (int_not_isdigit _ Hd). cbn [bind].
        split; [reflexivity|]. exists "function", p1, p2. auto 6. }
    destruct (String.eqb p0 "call" && _ && _) eqn:E4; cbn [bind].
    { apply andb_true_iff in E4 as [E4 E4n]. apply andb_true_iff in E4 as [E4 E4l].
      apply String.eqb_eq in E4. subst p0.
      destruct (isdigit p2) eqn:Hd.
      - destruct (int_isdigit _ Hd) as [n ->]. cbn [bind]. accept.
      - right; right. rewrite (int_not_isdigit _ Hd). cbn [bind].
        split; [reflexivity|]. exists "call", p1, p2. auto 6. }
    simple_keywords l. left; reflexivity.
Qed.


Lemma re_match_NUMBER s :
  re_match _RE_NUMBER s =
  match s with
  | EmptyString => false
  | String c _ => isdigit_char c
  end.
Proof.
  destruct s as [|c s]; [reflexivity|].
  unfold re_match, _RE_NUMBER; cbn [match_items].
  destruct s; cbn [match_star orb]; now rewrite andb_true_r.
Qed.

Lemma match_star_mono cls (k k' : string -> bool) :
  (forall s, k s = true -> k' s = true) ->
  forall s, match_star cls k s = true -> match_star cls k' s = true.
Proof.
  intros Hk. induction s as [|c s IH]; cbn [match_star]; intros H.
  - rewrite orb_false_r in *. auto.
  - apply orb_true_iff in H as [H|H].
    + rewrite (Hk _ H). reflexivity.
    + apply andb_true_iff in H as [Hc H]. rewrite Hc, (IH H). apply orb_true_r.
Qed.

Lemma match_items_mono r :
  forall (k k' : string -> bool),
  (forall s, k s = true -> k' s = true) ->
  forall s, match_items r k s = true -> match_items r k' s = true.
Proof.
  induction r as [|[cls q] r IH]; intros k k' Hk s; cbn [match_items].
  - apply Hk.
  - destruct q.
    + destruct s as [|c s]; [discriminate|].
      intros H. apply andb_true_iff in H as [Hc H].
      rewrite Hc. cbn. eapply IH; eauto.
    + apply match_star_mono. intros s'. eapply IH; eauto.
    + destruct s as [|c s]; [discriminate|].
      intros H. apply andb_true_iff in H as [Hc H].
      rewrite Hc. cbn. revert H. apply match_star_mono. intros s'. eapply IH; eauto.
Qed.

(** A match of the whole subject is in particular a match of a prefix. *)
Lemma re_fullmatch_re_match r s :
  re_fullmatch r s = true -> re_match r s = true.
Proof. apply match_items_mono. reflexivity. Qed.


(** [ParseCommand] never returns Python's [None]: whenever it returns, it
    returns a command instance. *)
Lemma ParseCommand_not_None line : ParseCommand line <> Ret None.
Proof.
  rewrite ParseCommand_eq.
  destruct (first_result grammar_parsers _) as [[c|]|e]; discriminate.
Qed.

(** Every command the parser returns is well formed or is [ErrorCommand]. *)
Lemma ParseCommand_well_formed line c :
  ParseCommand line = Ret (Some c) ->
  well_formed c = true \/ is_ErrorCommand c = true.
Proof.
  rewrite ParseCommand_eq.
  destruct (grammar_cases (_TrimProgramLine line))
    as [H | [(c' & H & Hc) | (H & _)]]; rewrite H.
  - intros [= <-]. now right.
  - intros [= <-]. now left.
  - discriminate.
Qed.

(** The only exception that escapes [ParseCommand] is the [ValueError] of
    [int], and only on a [function] or [call] line whose third token
    begins with a digit without being a number. *)
Lemma ParseCommand_cases line :
  (exists c, ParseCommand line = Ret (Some c)) \/
  (ParseCommand line = Raise ValueError /\
   exists kw f t, split (_TrimProgramLine line) = [kw; f; t] /\
     (kw = "function" \/ kw = "call") /\
     re_match _RE_LABEL f = true /\
     re_match _RE_NUMBER t = true /\ isdigit t = false).
Proof.
  rewrite ParseCommand_eq.
  destruct (grammar_cases (_TrimProgramLine line))
    as [H | [(c' & H & Hc) | (H & Hr)]]; rewrite H; eauto.
Qed.

Ltac not_keyword l Hs :=
  repeat match goal with
  | |- context [String.eqb l ?k] =>
      destruct (String.eqb_spec l k) as [E|_];
      [exfalso; rewrite E in Hs; vm_compute in Hs; discriminate Hs|];
      cbn [bind]
  end.

(** What the grammars do with a two-token line that starts with one of the
    label keywords: only the first character of the second token counts. *)
Lemma label_line l kw tok K :
  In (kw, K) [ ("label", LabelCommand); ("goto", GotoCommand);
               ("if-goto", IfGotoCommand) ] ->
  split l = [kw; tok] ->
  first_result grammar_parsers l =
  if re_match _RE_LABEL tok then Ret (Some (K tok)) else Ret None.
Proof.
  intros Hin Hs.
  unfold grammar_parsers, _COMMAND_PARSE_ORDER.
  cbn [removelast first_result]. parse_unfold. rewrite Hs.
  not_keyword l Hs.
  destruct Hin as [[= <- <-] | [[= <- <-] | [[= <- <-] | []]]];
    simpl (String.eqb _ _); cbn [andb bind];
    destruct (re_match _RE_LABEL tok); cbn [bind]; reflexivity.
Qed.

Lemma label_line_ParseCommand line kw tok K :
  In (kw, K) [ ("label", LabelCommand); ("goto", GotoCommand);
               ("if-goto", IfGotoCommand) ] ->
  split (_TrimProgramLine line) = [kw; tok] ->
  ParseCommand line =
  if re_match _RE_LABEL tok then Ret (Some (K tok))
  else Ret (Some (ErrorCommand (_TrimProgramLine line))).
Proof.
  intros Hin Hs. rewrite ParseCommand_eq, (label_line _ _ _ _ Hin Hs).
  now destruct (re_match _RE_LABEL tok).
Qed.

(** A second token of the full shape of the label grammar is accepted. *)
Lemma label_line_fullmatch_accepted line kw tok K :
  In (kw, K) [ ("label", LabelCommand); ("goto", GotoCommand);
               ("if-goto", IfGotoCommand) ] ->
  split (_TrimProgramLine line) = [kw; tok] ->
  re_fullmatch _RE_LABEL tok = true ->
  ParseCommand line = Ret (Some (K tok)).
Proof.
  intros Hin Hs Hm. rewrite (label_line_ParseCommand _ _ _ _ Hin Hs).
  now rewrite (re_fullmatch_re_match _ _ Hm).
Qed.

(** What the grammars do with a three-token line that starts with
    [function] or [call]: the third token is tested by its first character
    only and then handed to [int]. *)
Lemma function_line l kw f t K :
  In (kw, K) [ ("function", FunctionCommand); ("call", CallCommand) ] ->
  split l = [kw; f; t] ->
  first_result grammar_parsers l =
  if re_match _RE_LABEL f && re_match _RE_NUMBER t
  then n <- int t ;; Ret (Some (K f n))
  else Ret None.
Proof.
  intros Hin Hs.
  unfold grammar_parsers, _COMMAND_PARSE_ORDER.
  cbn [removelast first_result]. parse_unfold. rewrite Hs.
  not_keyword l Hs.
  destruct Hin as [[= <- <-] | [[= <- <-] | []]];
    simpl (String.eqb _ _); cbn [andb bind];
    destruct (re_match _RE_LABEL f); cbn [andb bind]; try reflexivity;
    destruct (re_match _RE_NUMBER t); cbn [andb bind]; try reflexivity;
    destruct (int t) as [n|e]; cbn [bind]; reflexivity.
Qed.

(** [ParseCommand] raises exactly on the three-token [function] and [call]
    lines whose second token begins like a label and whose third token
    begins with a digit without being a number. *)
Lemma ParseCommand_raises_iff line e :
  ParseCommand line = Raise e <->
  e = ValueError /\
  exists kw f t,
    split (_TrimProgramLine line) = [kw; f; t] /\
    (kw = "function" \/ kw = "call") /\
    re_match _RE_LABEL f = true /\
    re_match _RE_NUMBER t = true /\ isdigit t = false.
Proof.
  split.
  - intros H. destruct (ParseCommand_cases line) as [(c & Hc)|(Hv & Hw)].
    + congruence.
    + split; [congruence|exact Hw].
  - intros (-> & kw & f & t & Hs & Hkw & Hf & Ht & Hd).
    rewrite ParseCommand_eq.
    assert (Hin : exists K, In (kw, K) [ ("function", FunctionCommand);
                                         ("call", CallCommand) ]).
    { destruct Hkw as [-> | ->]; eexists; simpl; eauto. }
    destruct Hin as [K Hin].
    rewrite (function_line _ _ _ _ _ Hin Hs), Hf, Ht.
    cbn [andb]. now rewrite (int_not_isdigit _ Hd).
Qed.

(** C1 (the code raises): [ParseCommand] is not total.  On a three-token
    [call] or [function] line whose third token begins with a digit but is
    not a number, [re.match] accepts the token by its prefix and [int] then
    raises [ValueError], which nothing catches; the line is not turned into
    a malformed instruction. *)
Theorem C1_ParseCommand_raises_ValueError :
  ParseCommand "call foo 1x" = Raise ValueError /\
  ParseCommand "function foo 1x" = Raise ValueError /\
  re_fullmatch _RE_NUMBER "1x" = false.
Proof. repeat split; reflexivity. Qed.

(** C8 (the code accepts too much): on the two-token line [label a-b] the
    second token is not of the shape of the label grammar (it contains a
    [-]), yet [ParseCommand] returns the label instruction carrying the whole
    token, and likewise for [goto] and [if-goto]: [re.match] only anchors
    the pattern at the start of the token. *)
Theorem C8_label_prefix_match_accepted :
  re_fullmatch _RE_LABEL "a-b" = false /\
  ParseCommand "label a-b" = Ret (Some (LabelCommand "a-b")) /\
  ParseCommand "goto a-b" = Ret (Some (GotoCommand "a-b")) /\
  ParseCommand "if-goto a-b" = Ret (Some (IfGotoCommand "a-b")).
Proof. repeat split; reflexivity. Qed.

(* ================================================================== *)
(** * What trimming a line does *)
(* ================================================================== *)









(** ** The parser against the grammar of the specification *)










(** The two kinds of lines that match no grammar of the specification and
    yet are not reported malformed. *)
Example unmatched_lines_let_through :
  spec_matches_grammar (spec_trimmed_text "label a-b") = false /\
  operands_begin_well (spec_trimmed_text "label a-b") = true /\
  ParseCommand "label a-b" = Ret (Some (LabelCommand "a-b")) /\
  spec_matches_grammar (spec_trimmed_text "call foo 1x") = false /\
  operands_begin_well (spec_trimmed_text "call foo 1x") = true /\
  ParseCommand "call foo 1x" = Raise ValueError.
Proof. repeat split. Qed.




(* ================================================================== *)
(** * Properties of the assembler and the linker *)
(* ================================================================== *)

Section MapResult.

Context {X Y : Type} (f : X -> result Y).

Lemma map_result_Ret xs ys :
  map_result f xs = Ret ys <-> Forall2 (fun x y => f x = Ret y) xs ys.
Proof.
  revert ys. induction xs as [|x xs IH]; intros ys; cbn [map_result].
  - split.
    + intros [= <-]. constructor.
    + intros H. inversion H. reflexivity.
  - split.
    + destruct (f x) as [y|e] eqn:Hx; cbn [bind]; [|discriminate].
      destruct (map_result f xs) as [ys'|e] eqn:Hxs; cbn [bind]; [|discriminate].
      intros [= <-]. constructor; [assumption|]. now apply IH.
    + intros H. inversion H as [|x' y xs' ys' Hx Hxs]; subst.
      rewrite Hx. cbn [bind]. apply IH in Hxs. rewrite Hxs. reflexivity.
Qed.

(** The first element on which [f] raises decides the exception; what
    comes after it is not looked at. *)
Lemma map_result_first_raise pre x post ys e :
  Forall2 (fun x y => f x = Ret y) pre ys ->
  f x = Raise e ->
  map_result f (pre ++ x :: post)%list = Raise e.
Proof.
  intros Hpre Hx. induction Hpre as [|x0 y0 pre ys Hx0 _ IH]; cbn [List.app map_result].
  - now rewrite Hx.
  - now rewrite Hx0, IH.
Qed.

Lemma map_result_In_raise xs x e :
  In x xs -> f x = Raise e -> exists e', map_result f xs = Raise e'.
Proof.
  induction xs as [|x0 xs IH]; intros Hin Hx; [destruct Hin|].
  cbn [map_result]. destruct (f x0) as [y|e0] eqn:H0; cbn [bind]; [|eauto].
  destruct Hin as [->|Hin]; [congruence|].
  destruct (IH Hin Hx) as [e' ->]. cbn [bind]. eauto.
Qed.

Lemma map_result_Raise_inv xs e :
  map_result f xs = Raise e ->
  exists pre x post ys,
    xs = (pre ++ x :: post)%list /\
    Forall2 (fun x y => f x = Ret y) pre ys /\ f x = Raise e.
Proof.
  induction xs as [|x xs IH]; cbn [map_result]; [discriminate|].
  destruct (f x) as [y|e0] eqn:Hx; cbn [bind].
  - destruct (map_result f xs) as [ys|e1]; cbn [bind]; [discriminate|].
    intros [= ->]. destruct (IH eq_refl) as (pre & x' & post & ys & -> & Hpre & Hx').
    exists (x :: pre), x', post, (y :: ys). repeat split; auto.
  - intros [= ->]. exists [], x, xs, []. repeat split; auto.
Qed.

End MapResult.

(** ** The diagnostics of [ParseProgram] *)

Lemma collect_errors_from name commands :
  forall k,
  collect_errors name (Z.of_nat k) commands =
  List.map (diagnostic name) (malformed_from k commands).
Proof.
  unfold malformed_from.
  induction commands as [|c commands IH]; intros k; [reflexivity|].
  cbn [collect_errors List.length List.seq List.map combine flat_map snd fst].
  assert (E : Z.of_nat k + 1 = Z.of_nat (S k)) by lia.
  destruct c as [[]|]; cbn [List.app List.map]; rewrite E, IH;
    unfold diagnostic; cbn [fst snd]; rewrite ?E; reflexivity.
Qed.

(** The entries collected are exactly the diagnostics of the malformed
    lines, one per line and in order, each with the program name and the
    1-based line number. *)
Lemma collect_errors_malformed_lines name commands :
  collect_errors name 0 commands =
  List.map (diagnostic name) (malformed_lines commands).
Proof. exact (collect_errors_from name commands O). Qed.

Lemma malformed_from_nil k commands :
  malformed_from k commands = [] <->
  Forall (fun c => forall line, c <> Some (ErrorCommand line)) commands.
Proof.
  unfold malformed_from. revert k.
  induction commands as [|c commands IH]; intros k.
  - split; [constructor|reflexivity].
  - cbn [List.length List.seq List.map combine flat_map snd fst].
    split.
    + intros H. apply app_eq_nil in H as [Hc H].
      constructor; [|now apply (IH (S k))].
      intros line ->. discriminate Hc.
    + intros H. inversion H as [|c' cs Hc Hcs]; subst.
      apply (IH (S k)) in Hcs. rewrite Hcs.
      destruct c as [[]|]; try reflexivity. now destruct (Hc line).
Qed.

Lemma malformed_lines_nil commands :
  malformed_lines commands = [] <->
  Forall (fun c => forall line, c <> Some (ErrorCommand line)) commands.
Proof. exact (malformed_from_nil O commands). Qed.

Lemma ParseProgram_eq program_lines program_name commands :
  map_result ParseCommand program_lines = Ret commands ->
  ParseProgram program_lines program_name =
  match malformed_lines commands with
  | [] => Ret commands
  | bad =>
      Raise (VMError ("Error: " ++
                      join linesep (List.map (diagnostic program_name) bad)))
  end.
Proof.
  intros H. unfold ParseProgram. rewrite H. cbn [bind].
  rewrite collect_errors_malformed_lines.
  now destruct (malformed_lines commands).
Qed.

(** ** Code generation never fails on well-formed commands *)

Lemma in_list_cases s l : in_list s l = true -> In s l.
Proof.
  unfold in_list. intros H. apply existsb_exists in H as (x & Hx & E).
  apply String.eqb_eq in E. now subst.
Qed.

Lemma GenerateAsm_well_formed c name function_name number :
  well_formed c = true ->
  exists asm,
    HackCodeGenerator.GenerateAsm (Some c) name function_name number
    = Ret (Some asm).
Proof.
  destruct c; cbn [well_formed]; intros H; try discriminate H;
    try (eexists; reflexivity).
  - apply in_list_cases in H. cbn [_SEGMENT_NAMES In] in H.
    repeat (destruct H as [<-|H]; [eexists; reflexivity|]). destruct H.
  - apply andb_true_iff in H as [H Hc]. apply in_list_cases in H.
    cbn [_SEGMENT_NAMES In] in H.
    repeat (destruct H as [<-|H]; [try discriminate Hc; eexists; reflexivity|]).
    destruct H.
Qed.

Lemma GenerateAsm_zip4_ok (a : list (option command)) :
  Forall (fun c => exists c', c = Some c' /\ well_formed c' = true) a ->
  forall (b c : list string) (d : list Z),
  exists chunks,
    GenerateAsm (zip4 a b c d) = Ret (List.map Some chunks).
Proof.
  unfold GenerateAsm.
  induction 1 as [|x a (c' & -> & Hwf) _ IH]; intros b c d.
  - exists []. reflexivity.
  - destruct b as [|y b], c as [|z c], d as [|w d];
      cbn [zip4 map_result]; try (exists []; reflexivity).
    destruct (GenerateAsm_well_formed c' y z w Hwf) as [asm ->]. cbn [bind].
    destruct (IH b c d) as [chunks ->]. cbn [bind].
    exists (asm :: chunks). reflexivity.
Qed.

Lemma FlattenAsm_Some chunks :
  FlattenAsm (List.map Some chunks) = Ret (List.concat chunks).
Proof.
  induction chunks as [|ch chunks IH]; cbn [List.map FlattenAsm List.concat].
  - reflexivity.
  - now rewrite IH.
Qed.

(** When every line parses, assembly fails exactly on the programs with a
    malformed line, reporting all of them; otherwise it succeeds. *)
Lemma AssembleProgram_when_lines_parse program_lines program_name commands :
  map_result ParseCommand program_lines = Ret commands ->
  match malformed_lines commands with
  | [] => exists asm, AssembleProgram program_lines program_name = Ret asm
  | bad =>
      AssembleProgram program_lines program_name =
      Raise (VMError ("Error: " ++
                      join linesep (List.map (diagnostic program_name) bad)))
  end.
Proof.
  intros H. unfold AssembleProgram.
  rewrite (ParseProgram_eq _ program_name _ H).
  destruct (malformed_lines commands) as [|b bad] eqn:Hbad; [|reflexivity].
  cbn [bind]. apply malformed_lines_nil in Hbad.
  assert (Hwf : Forall (fun c => exists c', c = Some c' /\ well_formed c' = true)
                       commands).
  { apply map_result_Ret in H. clear program_name.
    induction H as [|line c lines commands Hc _ IH]; [constructor|].
    inversion Hbad as [|? ? Hne Hbad']; subst.
    constructor; [|now apply IH].
    destruct c as [c|]; [|now destruct (ParseCommand_not_None line)].
    exists c. split; [reflexivity|].
    destruct (ParseCommand_well_formed _ _ Hc) as [Hw|He]; [assumption|].
    destruct c; try discriminate He. now destruct (Hne line0). }
  unfold DecorateCommands.
  destruct (GenerateAsm_zip4_ok commands Hwf
              (List.repeat program_name (List.length commands))
              (IdentifyParentFunctions commands)
              (range (List.length commands))) as [chunks ->].
  cbn [bind]. rewrite FlattenAsm_Some. eauto.
Qed.

(** A program with a line that parses as malformed does not assemble. *)
Lemma AssembleProgram_malformed_fails program_lines program_name line t :
  In line program_lines ->
  ParseCommand line = Ret (Some (ErrorCommand t)) ->
  exists e, AssembleProgram program_lines program_name = Raise e.
Proof.
  intros Hin Hline. unfold AssembleProgram.
  destruct (map_result ParseCommand program_lines) as [commands|e] eqn:H.
  - rewrite (ParseProgram_eq _ program_name _ H).
    destruct (malformed_lines commands) as [|b bad] eqn:Hbad.
    + exfalso. apply malformed_lines_nil in Hbad.
      apply map_result_Ret in H.
      induction H as [|l c lines commands Hc _ IH]; [destruct Hin|].
      inversion Hbad as [|? ? Hne Hbad']; subst.
      destruct Hin as [->|Hin]; [|now apply IH].
      rewrite Hline in Hc. injection Hc as <-. now destruct (Hne t).
    + cbn [bind]. eauto.
  - unfold ParseProgram. rewrite H. cbn [bind]. eauto.
Qed.

(** C5 (the code fails without a diagnostic): a program whose only line is
    [call f 1x] has no line that parses as malformed, yet assembling it
    fails: the [ValueError] of [ParseCommand] escapes [ParseProgram] before
    any line is inspected.  For the same reason a malformed line ([foo])
    that shares a program with such a line is never reported. *)
Theorem C5_AssembleProgram_ValueError :
  (forall t, ParseCommand "call f 1x" <> Ret (Some (ErrorCommand t))) /\
  AssembleProgram ["call f 1x"] "Foo" = Raise ValueError /\
  ParseCommand "foo" = Ret (Some (ErrorCommand "foo")) /\
  AssembleProgram ["foo"; "call f 1x"] "Foo" = Raise ValueError.
Proof. repeat split; try reflexivity. intros t. discriminate. Qed.

(** ** The linker *)

Lemma LinkPrograms_Ret programs out :
  LinkPrograms programs = Ret out <->
  exists outs,
    Forall2 (fun p o => AssembleProgram (snd p) (fst p) = Ret o) programs outs /\
    out = List.concat outs.
Proof.
  unfold LinkPrograms. split.
  - destruct (map_result _ programs) as [outs|e] eqn:H; cbn [bind]; [|discriminate].
    intros [= <-]. exists outs. split; [|reflexivity].
    now apply (map_result_Ret (fun p => AssembleProgram (snd p) (fst p))).
  - intros (outs & H & ->).
    apply (map_result_Ret (fun p => AssembleProgram (snd p) (fst p))) in H.
    now rewrite H.
Qed.

Lemma LinkPrograms_Raise programs e :
  LinkPrograms programs = Raise e <->
  exists pre p post outs,
    programs = (pre ++ p :: post)%list /\
    Forall2 (fun q o => AssembleProgram (snd q) (fst q) = Ret o) pre outs /\
    AssembleProgram (snd p) (fst p) = Raise e.
Proof.
  unfold LinkPrograms. split.
  - destruct (map_result _ programs) as [outs|e'] eqn:H; cbn [bind]; [discriminate|].
    intros [= ->]. now apply map_result_Raise_inv in H.
  - intros (pre & p & post & outs & -> & Hpre & Hp).
    now rewrite (map_result_first_raise
                   (fun p => AssembleProgram (snd p) (fst p)) pre p post outs e).
Qed.

(** C4 as stated fails: when two programs both have a malformed line, the
    exception of the first one escapes [LinkPrograms]; the second program
    is never assembled and its diagnostic is not produced. *)
Lemma C4_counterexample :
  AssembleProgram ["bar"] "b" = Raise (VMError "Error: b.1: bar") /\
  LinkPrograms [("a", ["foo"]); ("b", ["bar"])]
    = Raise (VMError "Error: a.1: foo") /\
  contains "b.1: bar" "Error: a.1: foo" = false.
Proof. repeat split; reflexivity. Qed.

(** C4 (amended): linking assembles the programs in input order and stops at
    the first one whose assembly fails: the link fails with that program's
    error exactly, whatever the programs after it contain; the link fails
    whenever at least one program has a line that parses as malformed; on
    success every program was assembled and the outputs are concatenated in
    input order. *)
Theorem C4_LinkPrograms_first_failure programs :
  (forall pre p post outs e,
     programs = (pre ++ p :: post)%list ->
     Forall2 (fun q o => AssembleProgram (snd q) (fst q) = Ret o) pre outs ->
     AssembleProgram (snd p) (fst p) = Raise e ->
     LinkPrograms programs = Raise e) /\
  (forall p line t,
     In p programs -> In line (snd p) ->
     ParseCommand line = Ret (Some (ErrorCommand t)) ->
     exists e, LinkPrograms programs = Raise e) /\
  (forall out,
     LinkPrograms programs = Ret out ->
     exists outs,
       Forall2 (fun p o => AssembleProgram (snd p) (fst p) = Ret o)
               programs outs /\
       out = List.concat outs).
Proof.
  split; [|split].
  - intros pre p post outs e Hp Hpre He.
    apply LinkPrograms_Raise. now exists pre, p, post, outs.
  - intros p line t Hp Hline Hbad.
    destruct (AssembleProgram_malformed_fails (snd p) (fst p) line t Hline Hbad)
      as [e He].
    unfold LinkPrograms.
    destruct (map_result_In_raise
                (fun p => AssembleProgram (snd p) (fst p)) programs p e Hp He)
      as [e' ->].
    cbn [bind]. eauto.
  - intros out H. now apply LinkPrograms_Ret.
Qed.

Lemma C4_LinkPrograms_first_failure_witness :
  LinkPrograms [("a", ["add"]); ("b", ["foo"]); ("c", ["bar"; "neg"])]
    = Raise (VMError "Error: b.1: foo") /\
  (exists e, LinkPrograms [("a", ["add"]); ("b", ["foo"]); ("c", ["bar"; "neg"])]
             = Raise e) /\
  (exists outs,
     Forall2 (fun p o => AssembleProgram (snd p) (fst p) = Ret o)
             [("a", ["neg"]); ("b", ["not"])] outs /\
     HackCodeGenerator._ApplyUnaryTemplate "-" ++ HackCodeGenerator._ApplyUnaryTemplate "!"
     = List.concat outs)%list.
Proof.
  split; [|split].
  - destruct (C4_LinkPrograms_first_failure
                [("a", ["add"]); ("b", ["foo"]); ("c", ["bar"; "neg"])])
      as [H _].
    apply (H [("a", ["add"])] ("b", ["foo"]) [("c", ["bar"; "neg"])]
             [HackCodeGenerator._ApplyBinaryTemplate "+"]).
    + reflexivity.
    + constructor; [reflexivity|constructor].
    + reflexivity.
  - destruct (C4_LinkPrograms_first_failure
                [("a", ["add"]); ("b", ["foo"]); ("c", ["bar"; "neg"])])
      as (_ & H & _).
    apply (H ("c", ["bar"; "neg"]) "bar" "bar").
    + simpl; auto.
    + simpl; auto.
    + reflexivity.
  - destruct (C4_LinkPrograms_first_failure [("a", ["neg"]); ("b", ["not"])])
      as (_ & _ & H).
    apply H. reflexivity.
Defined.

(* ================================================================== *)
(** * Strings and labels *)
(* ================================================================== *)

Lemma str_of_int_inj a b : str_of_int a = str_of_int b -> a = b.
Proof.
  unfold str_of_int. intros H.
  apply DecimalZ.to_int_inj.
  assert (E : Some (Z.to_int a) = Some (Z.to_int b)).
  { rewrite <- (NilEmpty.isi (Z.to_int a)), <- (NilEmpty.isi (Z.to_int b)).
    now rewrite H. }
  now injection E.
Qed.

Lemma append_inv_head s a b : s ++ a = s ++ b -> a = b.
Proof.
  induction s as [|c s IH]; cbn [append]; [auto|].
  intros [= H]. auto.
Qed.

Lemma list_of_append a b :
  list_ascii_of_string (a ++ b)
  = (list_ascii_of_string a ++ list_ascii_of_string b)%list.
Proof.
  induction a as [|c a IH]; cbn [append list_ascii_of_string List.app];
    [reflexivity|now rewrite IH].
Qed.

Lemma list_of_string_inj a b :
  list_ascii_of_string a = list_ascii_of_string b -> a = b.
Proof.
  intros H.
  rewrite <- (string_of_list_ascii_of_string a),
          <- (string_of_list_ascii_of_string b).
  now rewrite H.
Qed.

Lemma append_inv_tail a b s : a ++ s = b ++ s -> a = b.
Proof.
  intros H. apply list_of_string_inj.
  apply (f_equal list_ascii_of_string) in H.
  rewrite !list_of_append in H. now apply app_inv_tail in H.
Qed.

Lemma append_assoc a b c : (a ++ b) ++ c = a ++ b ++ c.
Proof.
  induction a as [|x a IH]; cbn [append]; [reflexivity|now rewrite IH].
Qed.

(** Two texts that end in different characters differ. *)
Lemma append_last_neq a b (x y : ascii) :
  x <> y -> a ++ String x EmptyString <> b ++ String y EmptyString.
Proof.
  intros Hxy H. apply (f_equal list_ascii_of_string) in H.
  rewrite !list_of_append in H. cbn [list_ascii_of_string] in H.
  apply app_inj_tail in H as [_ H]. contradiction.
Qed.

Lemma drop_last_append s c : drop_last (s ++ String c EmptyString) = s.
Proof.
  induction s as [|x s IH]; [reflexivity|].
  cbn [append drop_last]. rewrite IH.
  destruct s; reflexivity.
Qed.

Lemma label_of_definition l : label_of ("(" ++ l ++ ")") = Some l.
Proof. cbn [append label_of]. now rewrite drop_last_append. Qed.

Lemma branch_label_neq_end_label name p q :
  branch_label name p <> end_label name q.
Proof.
  unfold branch_label, end_label.
  change "$branch" with ("$branc" ++ "h"). change "$end" with ("$en" ++ "d").
  rewrite <- !append_assoc. apply append_last_neq. discriminate.
Qed.

Lemma branch_label_inj name p q :
  branch_label name p = branch_label name q -> p = q.
Proof.
  unfold branch_label. intros H.
  apply append_inv_head, append_inv_head, append_inv_tail in H.
  now apply str_of_int_inj.
Qed.

Lemma end_label_inj name p q :
  end_label name p = end_label name q -> p = q.
Proof.
  unfold end_label. intros H.
  apply append_inv_head, append_inv_head, append_inv_tail in H.
  now apply str_of_int_inj.
Qed.

Lemma defined_labels_comparison op name number :
  defined_labels (HackCodeGenerator._ApplyComparisonTemplate op name number)
  = [branch_label name number; end_label name number].
Proof.
  unfold HackCodeGenerator._ApplyComparisonTemplate.
  fold (branch_label name number). fold (end_label name number).
  cbn [defined_labels label_of append].
  rewrite !drop_last_append. reflexivity.
Qed.

Lemma referenced_symbols_comparison op name number :
  referenced_symbols (HackCodeGenerator._ApplyComparisonTemplate op name number)
  = ["SP"; branch_label name number; "SP"; end_label name number; "SP"].
Proof.
  unfold HackCodeGenerator._ApplyComparisonTemplate.
  fold (branch_label name number). fold (end_label name number).
  cbn [referenced_symbols operand_of append].
  reflexivity.
Qed.

Lemma GenerateAsm_comparison c name function_name number :
  is_comparison c = true ->
  exists op,
    In (c, op) [(EqCommand, "JEQ"); (GtCommand, "JLT"); (LtCommand, "JGT")] /\
    HackCodeGenerator.GenerateAsm (Some c) name function_name number
    = Ret (Some (HackCodeGenerator._ApplyComparisonTemplate op name number)).
Proof.
  destruct c; try discriminate; intros _;
    [exists "JEQ" | exists "JLT" | exists "JGT"];
    (split; [simpl; auto|reflexivity]).
Qed.

(** C7: the assembly of a comparison depends on the file name and the
    position only (the enclosing function plays no part); it defines
    exactly two labels, both built from that pair and distinct from each
    other, and refers to no other symbol than these and [SP]; comparisons
    at two different positions of the same file have no label in common. *)
Theorem C7_comparison_labels c name number :
  is_comparison c = true ->
  exists asm,
    (forall function_name,
       HackCodeGenerator.GenerateAsm (Some c) name function_name number
       = Ret (Some asm)) /\
    defined_labels asm = [branch_label name number; end_label name number] /\
    branch_label name number <> end_label name number /\
    (forall x, In x (referenced_symbols asm) ->
       x = "SP" \/ x = branch_label name number \/ x = end_label name number) /\
    (forall c' number' function_name' asm',
       is_comparison c' = true ->
       number' <> number ->
       HackCodeGenerator.GenerateAsm (Some c') name function_name' number'
       = Ret (Some asm') ->
       forall l, In l (defined_labels asm) -> ~ In l (defined_labels asm')).
Proof.
  intros Hc.
  destruct (GenerateAsm_comparison c name "" number Hc) as (op & Hop & _).
  exists (HackCodeGenerator._ApplyComparisonTemplate op name number).
  split; [|split; [|split; [|split]]].
  - intros function_name.
    destruct (GenerateAsm_comparison c name function_name number Hc)
      as (op' & Hop' & ->).
    cbn [In] in Hop, Hop'.
    destruct Hop as [[= <- <-]|[[= <- <-]|[[= <- <-]|[]]]];
      destruct Hop' as [[= <-]|[[= <-]|[[= <-]|[]]]]; reflexivity.
  - apply defined_labels_comparison.
  - apply branch_label_neq_end_label.
  - rewrite referenced_symbols_comparison. cbn [In].
    intros x [<-|[<-|[<-|[<-|[<-|[]]]]]]; auto.
  - intros c' number' function_name' asm' Hc' Hne Hgen l.
    destruct (GenerateAsm_comparison c' name function_name' number' Hc')
      as (op' & _ & Hgen').
    rewrite Hgen' in Hgen. injection Hgen as <-.
    rewrite !defined_labels_comparison. cbn [In].
    intros [<-|[<-|[]]] [H|[H|[]]].
    + apply branch_label_inj in H. auto.
    + symmetry in H. now apply branch_label_neq_end_label in H.
    + now apply branch_label_neq_end_label in H.
    + apply end_label_inj in H. auto.
Qed.

Lemma C7_comparison_labels_witness :
  exists asm,
    (forall function_name,
       HackCodeGenerator.GenerateAsm (Some GtCommand) "Foo" function_name 7
       = Ret (Some asm)) /\
    defined_labels asm = ["Foo$7$branch"; "Foo$7$end"].
Proof.
  destruct (C7_comparison_labels GtCommand "Foo" 7 eq_refl)
    as (asm & H1 & H2 & _).
  exists asm. split; [exact H1|exact H2].
Defined.

(* ================================================================== *)
(** * Running the generated assembly *)
(* ================================================================== *)

Lemma wrap_small z : 0 <= z < 65536 -> wrap z = z.
Proof. intros H. unfold wrap. now apply Z.mod_small. Qed.

Lemma wrap_range z : 0 <= wrap z < 65536.
Proof. unfold wrap. apply Z.mod_pos_bound. lia. Qed.

Lemma store_same ram a v x : x = a -> store ram a v x = v.
Proof. intros ->. unfold store. now rewrite Z.eqb_refl. Qed.

Lemma store_other ram a v x : x <> a -> store ram a v x = ram x.
Proof. intros H. unfold store. now apply Z.eqb_neq in H as ->. Qed.

(** ** Symbols *)

Lemma digits_of_uint d : all_chars isdigit_char (NilEmpty.string_of_uint d) = true.
Proof. induction d; cbn [NilEmpty.string_of_uint all_chars]; auto. Qed.

Lemma str_of_int_nonneg n :
  0 <= n -> isdigit (str_of_int n) = true /\ int (str_of_int n) = Ret n.
Proof.
  intros Hn. unfold str_of_int.
  assert (E : exists d, Z.to_int n = Pos d /\ d <> Nil) .
  { destruct n as [|p|p]; [exists (D0 Nil)|exists (Pos.to_uint p)|lia].
    - split; [reflexivity|discriminate].
    - split; [reflexivity|]. apply DecimalPos.Unsigned.to_uint_nonnil. }
  destruct E as (d & E & Hd).
  assert (Hz : Z.of_uint d = n).
  { rewrite <- (DecimalZ.of_to n), E. reflexivity. }
  rewrite E. cbn [NilEmpty.string_of_int].
  assert (Hdig : isdigit (NilEmpty.string_of_uint d) = true).
  { unfold isdigit. generalize (digits_of_uint d).
    destruct (NilEmpty.string_of_uint d) eqn:Hs; [|auto].
    destruct d; try discriminate Hs. now destruct Hd. }
  split; [assumption|].
  unfold int. rewrite Hdig, NilEmpty.usu. now rewrite Hz.
Qed.

Lemma has_dollar_label s rest : has "$" (s ++ "$" ++ rest) = true.
Proof.
  unfold has. induction s as [|c s IH]; cbn [append all_chars] in *.
  - reflexivity.
  - apply negb_true_iff. apply negb_true_iff in IH. rewrite IH. apply andb_false_r.
Qed.

Lemma has_dollar_not_digits s : has "$" s = true -> isdigit s = false.
Proof.
  intros H. destruct s as [|c0 s0]; [reflexivity|].
  unfold isdigit. revert H. generalize (String c0 s0). clear.
  unfold has. induction s as [|c s IH]; cbn [all_chars]; [discriminate|].
  intros H. apply negb_true_iff in H. apply andb_false_iff in H as [H|H].
  - apply negb_false_iff, Ascii.eqb_eq in H. subst c. reflexivity.
  - rewrite IH; [apply andb_false_r|]. now apply negb_true_iff.
Qed.

Lemma has_dollar_not_predefined s : has "$" s = true -> assoc s predefined = None.
Proof.
  intros H. unfold predefined. cbn [assoc].
  repeat match goal with
  | |- context [String.eqb ?k s] =>
      destruct (String.eqb_spec k s) as [E|_];
      [exfalso; rewrite <- E in H; discriminate H|]
  end.
  reflexivity.
Qed.

(** Reads of a RAM that was written to, and arithmetic that stays within a
    word, are settled by linear arithmetic. *)
Ltac simp_store :=
  repeat match goal with
  | |- context [store ?r ?a ?v ?x] =>
      first [ rewrite (store_same r a v x) by lia
            | rewrite (store_other r a v x) by lia ]
  | |- context [wrap ?z] => rewrite (wrap_small z) by lia
  end.

Section Semantics.

Variable symtab : string -> Z.
Variable rom : list string.

Local Abbreviation resolve := (Hack.resolve symtab).
Local Abbreviation exec := (Hack.exec symtab).
Local Abbreviation exec_seq := (Hack.exec_seq symtab).
Local Abbreviation step := (Hack.step symtab rom).
Local Abbreviation run := (Hack.run symtab rom).
Local Abbreviation in_rom := (Hack.in_rom rom).
Local Abbreviation loaded_at := (Hack.loaded_at rom).
Local Abbreviation labels_resolved := (Hack.labels_resolved symtab).

Lemma resolve_int n : 0 <= n < 32768 -> resolve (str_of_int n) = Some n.
Proof.
  intros Hn. unfold Hack.resolve.
  destruct (str_of_int_nonneg n) as [-> ->]; [lia|].
  destruct (Z.ltb_spec n 32768); [reflexivity|lia].
Qed.

(** The symbols the generator manufactures contain a [$], so they are
    neither numbers nor predefined: the symbol table decides. *)
Lemma resolve_generated s rest :
  resolve (s ++ "$" ++ rest) = Some (symtab (s ++ "$" ++ rest)).
Proof.
  unfold Hack.resolve.
  rewrite (has_dollar_not_digits _ (has_dollar_label s rest)).
  now rewrite (has_dollar_not_predefined _ (has_dollar_label s rest)).
Qed.

(** ** One instruction *)

Lemma exec_A x m :
  exec ("@" ++ x) m =
  match resolve x with
  | Some v => Some (mkMachine (PC m + 1) v (D m) (RAM m))
  | None => None
  end.
Proof. reflexivity. Qed.

Lemma exec_A_SP m : exec "@SP" m = Some (mkMachine (PC m + 1) 0 (D m) (RAM m)).
Proof. reflexivity. Qed.

Lemma exec_M_Mm1 m : exec "M=M-1" m = Some (next_M (wrap (RAM m (A m) - 1)) m).
Proof. reflexivity. Qed.
Lemma exec_M_Mp1 m : exec "M=M+1" m = Some (next_M (wrap (RAM m (A m) + 1)) m).
Proof. reflexivity. Qed.
Lemma exec_A_M m : exec "A=M" m = Some (next_A (RAM m (A m)) m).
Proof. reflexivity. Qed.
Lemma exec_D_M m : exec "D=M" m = Some (next_D (RAM m (A m)) m).
Proof. reflexivity. Qed.
Lemma exec_D_A m : exec "D=A" m = Some (next_D (A m) m).
Proof. reflexivity. Qed.
Lemma exec_A_D m : exec "A=D" m = Some (next_A (D m) m).
Proof. reflexivity. Qed.
Lemma exec_M_D m : exec "M=D" m = Some (next_M (D m) m).
Proof. reflexivity. Qed.
Lemma exec_M_0 m : exec "M=0" m = Some (next_M 0 m).
Proof. reflexivity. Qed.
Lemma exec_M_notM m : exec "M=!M" m = Some (next_M (wrap (Z.lnot (RAM m (A m)))) m).
Proof. reflexivity. Qed.
Lemma exec_A_Am1 m : exec "A=A-1" m = Some (next_A (wrap (A m - 1)) m).
Proof. reflexivity. Qed.
Lemma exec_A_Mm1 m : exec "A=M-1" m = Some (next_A (wrap (RAM m (A m) - 1)) m).
Proof. reflexivity. Qed.
Lemma exec_D_DmM m : exec "D=D-M" m = Some (next_D (wrap (D m - RAM m (A m))) m).
Proof. reflexivity. Qed.
Lemma exec_D_DpA m : exec "D=D+A" m = Some (next_D (wrap (D m + A m)) m).
Proof. reflexivity. Qed.
Lemma exec_D_DmA m : exec "D=D-A" m = Some (next_D (wrap (D m - A m)) m).
Proof. reflexivity. Qed.
Lemma exec_A_DpA m : exec "A=D+A" m = Some (next_A (wrap (D m + A m)) m).
Proof. reflexivity. Qed.

(** A jump on the value of [D]. *)
Lemma exec_D_jump j op m :
  assoc op jump_table = Some j ->
  exec ("D;" ++ op) m =
  Some (mkMachine (if taken (Some j) (D m) then A m else PC m + 1)
                  (A m) (D m) (RAM m)).
Proof.
  intros H. unfold Hack.exec, parse. cbn [append].
  unfold parse_C. cbn [cut Ascii.eqb Bool.eqb].
  assert (E : cut "=" op = None /\ cut ";" op = None).
  { unfold jump_table in H. cbn [assoc] in H.
    repeat match type of H with
    | context [String.eqb ?k op] =>
        destruct (String.eqb_spec k op) as [<-|_]; [split; reflexivity|]
    end. discriminate H. }
  destruct E as [E1 E2]. rewrite E1. cbn [cut Ascii.eqb Bool.eqb].
  cbn [all_chars assoc comp_table String.eqb Ascii.eqb Bool.eqb].
  rewrite H. reflexivity.
Qed.

Lemma exec_JMP m :
  exec "0;JMP" m = Some (mkMachine (A m) (A m) (D m) (RAM m)).
Proof. reflexivity. Qed.


(** ** Sequences *)

Lemma exec_seq_app code1 code2 m :
  exec_seq (code1 ++ code2)%list m =
  match exec_seq code1 m with
  | Some m' => exec_seq code2 m'
  | None => None
  end.
Proof.
  revert m. induction code1 as [|l code1 IH]; intros m; cbn [List.app Hack.exec_seq].
  - reflexivity.
  - destruct (exec l m) as [m'|]; [|reflexivity].
    destruct (Z.eqb (PC m') (PC m + 1)); [apply IH|reflexivity].
Qed.

Lemma exec_seq_PC code :
  forall m m', exec_seq code m = Some m' ->
               PC m' = PC m + Z.of_nat (List.length code).
Proof.
  induction code as [|l code IH]; intros m m'; cbn [Hack.exec_seq List.length].
  - intros [= <-]. lia.
  - destruct (exec l m) as [m1|]; [|discriminate].
    destruct (Z.eqb_spec (PC m1) (PC m + 1)) as [E|]; [|discriminate].
    intros H. apply IH in H. lia.
Qed.

Lemma in_rom_cons base l code :
  in_rom base (l :: code) -> nth_error rom base = Some l /\ in_rom (S base) code.
Proof.
  unfold Hack.in_rom. cbn [List.length firstn].
  generalize rom. induction base as [|base IH]; intros r; cbn [skipn].
  - destruct r as [|x r]; [discriminate|]. intros [= -> H]. auto.
  - destruct r as [|x r].
    + discriminate.
    + intros H. apply IH in H. exact H.
Qed.

Lemma in_rom_app base code1 code2 :
  in_rom base (code1 ++ code2)%list ->
  in_rom base code1 /\ in_rom (base + List.length code1) code2.
Proof.
  revert base. induction code1 as [|l code1 IH]; intros base H; cbn [List.app] in H.
  - split; [reflexivity|]. cbn [List.length]. now rewrite Nat.add_0_r.
  - pose proof H as H0. apply in_rom_cons in H as [Hl H]. apply IH in H as [H1 H2].
    split.
    + unfold Hack.in_rom in *. cbn [List.length firstn].
      revert H0. cbn [List.length firstn List.app].
      destruct (skipn base rom) as [|x r] eqn:E; [discriminate|].
      intros [= -> H0]. f_equal.
      assert (Er : skipn (S base) rom = r).
      { clear -E. revert E. generalize rom. induction base as [|b IHb]; intros r0.
        - cbn. destruct r0; [discriminate|]. now intros [= _ ->].
        - destruct r0 as [|y r0]; [discriminate|]. cbn [skipn]. apply IHb. }
      now rewrite <- Er.
    + cbn [List.length]. now rewrite Nat.add_succ_r.
Qed.

Lemma step_in_rom base l code m :
  in_rom base (l :: code) -> PC m = Z.of_nat base -> step m = exec l m.
Proof.
  intros H Hpc. apply in_rom_cons in H as [H _].
  unfold Hack.step. rewrite Hpc.
  destruct (Z.ltb_spec (Z.of_nat base) 0); [lia|].
  now rewrite Nat2Z.id, H.
Qed.

Lemma run_add a b m :
  run (a + b) m =
  match run a m with
  | Some m' => run b m'
  | None => None
  end.
Proof.
  revert m. induction a as [|a IH]; intros m; cbn [Nat.add Hack.run]; [reflexivity|].
  destruct (step m); [apply IH|reflexivity].
Qed.

(** Code that sits in ROM and executes without transferring control runs
    as such on the machine. *)
Lemma run_exec_seq code :
  forall base m m',
  in_rom base code -> PC m = Z.of_nat base ->
  exec_seq code m = Some m' ->
  run (List.length code) m = Some m'.
Proof.
  induction code as [|l code IH]; intros base m m' Hrom Hpc;
    cbn [Hack.exec_seq List.length Hack.run].
  - auto.
  - rewrite (step_in_rom base l code m Hrom Hpc).
    destruct (exec l m) as [m1|]; [|discriminate].
    destruct (Z.eqb_spec (PC m1) (PC m + 1)) as [E|]; [|discriminate].
    apply in_rom_cons in Hrom as [_ Hrom].
    apply (IH (S base)); [assumption|lia].
Qed.

(** ** The templates *)

Ltac exec_line :=
  cbn [Hack.exec_seq];
  first
    [ rewrite exec_A_SP | rewrite exec_M_Mm1 | rewrite exec_M_Mp1
    | rewrite exec_A_M | rewrite exec_D_M | rewrite exec_D_A | rewrite exec_A_D
    | rewrite exec_M_D | rewrite exec_M_0 | rewrite exec_M_notM
    | rewrite exec_A_Am1 | rewrite exec_A_Mm1 | rewrite exec_D_DmM
    | rewrite exec_D_DpA | rewrite exec_D_DmA | rewrite exec_A_DpA ];
  unfold next_A, next_D, next_M; cbn [PC A D RAM];
  rewrite Z.eqb_refl.

Ltac exec_at v :=
  cbn [Hack.exec_seq]; rewrite exec_A;
  match goal with
  | H : resolve _ = Some v |- _ => rewrite H
  | _ => rewrite (resolve_int v) by lia
  end;
  cbn [PC A D RAM]; rewrite Z.eqb_refl.

Ltac same_state :=
  cbn [Hack.exec_seq]; simp_store;
  repeat (f_equal; try lia); try reflexivity.

Lemma exec_FromMemoryToD address m :
  0 <= address < 32768 ->
  exec_seq (HackCodeGenerator._FromMemoryToD address) m =
  Some (mkMachine (PC m + 2) address (RAM m address) (RAM m)).
Proof.
  intros Ha. unfold HackCodeGenerator._FromMemoryToD, str.
  exec_at address. exec_line. same_state.
Qed.

Lemma exec_FromMemoryDToD m :
  exec_seq HackCodeGenerator._FromMemoryDToD m =
  Some (mkMachine (PC m + 2) (D m) (RAM m (D m)) (RAM m)).
Proof.
  unfold HackCodeGenerator._FromMemoryDToD.
  exec_line. exec_line. same_state.
Qed.

Lemma exec_FromDToMemory address m :
  0 <= address < 32768 ->
  exec_seq (HackCodeGenerator._FromDToMemory address) m =
  Some (mkMachine (PC m + 2) address (D m) (store (RAM m) address (D m))).
Proof.
  intros Ha. unfold HackCodeGenerator._FromDToMemory, str.
  exec_at address. exec_line. same_state.
Qed.

Lemma exec_FromDToMemoryIndirect address m :
  0 <= address < 32768 ->
  exec_seq (HackCodeGenerator._FromDToMemoryIndirect address) m =
  Some (mkMachine (PC m + 3) (RAM m address) (D m)
                  (store (RAM m) (RAM m address) (D m))).
Proof.
  intros Ha. unfold HackCodeGenerator._FromDToMemoryIndirect, str.
  exec_at address. exec_line. exec_line. same_state.
Qed.

Lemma exec_FromMemoryToMemory from_address to_address m :
  0 <= from_address < 32768 -> 0 <= to_address < 32768 ->
  exec_seq (HackCodeGenerator._FromMemoryToMemory from_address to_address) m =
  Some (mkMachine (PC m + 4) to_address (RAM m from_address)
                  (store (RAM m) to_address (RAM m from_address))).
Proof.
  intros Hf Ht. unfold HackCodeGenerator._FromMemoryToMemory,
    HackCodeGenerator.sum_lists.
  cbn [List.concat]. rewrite app_nil_r, exec_seq_app.
  rewrite exec_FromMemoryToD by assumption.
  rewrite exec_FromDToMemory by assumption.
  cbn [PC A D RAM]. f_equal. f_equal. lia.
Qed.

Lemma exec_AddConstantToD constant m :
  - 32768 < constant < 32768 ->
  exec_seq (HackCodeGenerator._AddConstantToD constant) m =
  Some (mkMachine (PC m + 2) (Z.abs constant) (wrap (D m + constant)) (RAM m)).
Proof.
  intros Hc. unfold HackCodeGenerator._AddConstantToD.
  destruct (Z.ltb_spec constant 0).
  - exec_at (- constant). exec_line.
    cbn [Hack.exec_seq]. f_equal. f_equal; try lia. f_equal. lia.
  - exec_at constant. exec_line.
    cbn [Hack.exec_seq]. f_equal. f_equal; lia.
Qed.

Lemma exec_PopToD sp m :
  RAM m 0 = sp -> 1 < sp < 65536 ->
  exec_seq HackCodeGenerator._PopToD m =
  Some (mkMachine (PC m + 4) (sp - 1) (RAM m (sp - 1))
                  (store (RAM m) 0 (sp - 1))).
Proof.
  intros Hsp Hr. unfold HackCodeGenerator._PopToD.
  exec_line. exec_line. exec_line. exec_line.
  rewrite Hsp. same_state.
Qed.

Lemma exec_PushConstant constant v sp m :
  resolve (str constant) = Some v ->
  RAM m 0 = sp -> 0 <= sp < 65535 ->
  exec_seq (HackCodeGenerator._PushConstant constant) m =
  Some (mkMachine (PC m + 6) sp v (store (store (RAM m) 0 (sp + 1)) sp v)).
Proof.
  intros Hv Hsp Hr. unfold HackCodeGenerator._PushConstant.
  exec_at v. exec_line. exec_line. exec_line. exec_line. exec_line.
  rewrite Hsp. simp_store. same_state.
Qed.

Lemma exec_PushFromMemory address sp m :
  0 <= address < 32768 ->
  RAM m 0 = sp -> 0 <= sp < 65535 ->
  exec_seq (HackCodeGenerator._PushFromMemory address) m =
  Some (mkMachine (PC m + 6) sp (RAM m address)
                  (store (store (RAM m) 0 (sp + 1)) sp (RAM m address))).
Proof.
  intros Ha Hsp Hr. unfold HackCodeGenerator._PushFromMemory,
    HackCodeGenerator.sum_lists.
  cbn [List.concat]. rewrite app_nil_r, exec_seq_app.
  rewrite exec_FromMemoryToD by assumption.
  exec_line. exec_line. exec_line. exec_line.
  rewrite Hsp. simp_store. same_state.
Qed.

(** ** The call sequence *)

Lemma GenerateAsmCallCommand_eq f n name function_name number :
  HackCodeGenerator.GenerateAsmCallCommand f n name function_name number =
  Ret (Some (call_frame_code name number n
             ++ HackCodeGenerator._GotoLabel f
             ++ HackCodeGenerator._CreateLabel (return_address name number))%list).
Proof. reflexivity. Qed.

Lemma instructions_call f n name number :
  instructions (call_frame_code name number n
                ++ HackCodeGenerator._GotoLabel f
                ++ HackCodeGenerator._CreateLabel (return_address name number))%list
  = (call_frame_code name number n ++ HackCodeGenerator._GotoLabel f)%list.
Proof. reflexivity. Qed.

Lemma length_call_frame_code name number n :
  List.length (call_frame_code name number n) = 40%nat.
Proof. reflexivity. Qed.

Lemma label_table_call base f n name number :
  label_table base (call_frame_code name number n
                ++ HackCodeGenerator._GotoLabel f
                ++ HackCodeGenerator._CreateLabel (return_address name number))%list
  = [(return_address name number, base + 42)].
Proof.
  unfold call_frame_code, HackCodeGenerator._CreateLabel, str.
  cbn [HackCodeGenerator.sum_lists List.concat List.app
       HackCodeGenerator._PushConstant HackCodeGenerator._PushFromMemory
       HackCodeGenerator._FromMemoryToD HackCodeGenerator._AddConstantToD
       HackCodeGenerator._FromDToMemory HackCodeGenerator._FromMemoryToMemory
       HackCodeGenerator._GotoLabel label_table label_of append].
  rewrite drop_last_append. do 2 f_equal. lia.
Qed.

Ltac exec_part L :=
  rewrite exec_seq_app; rewrite L;
  [ cbn [PC A D RAM]; simp_store
  | cbn [PC A D RAM]; simp_store; try lia; try reflexivity .. ].

Lemma exec_call_frame_code name number n sp m :
  RAM m 0 = sp -> 16 <= sp -> sp + 5 < 65536 -> 0 <= n -> n + 5 < 32768 ->
  exec_seq (call_frame_code name number n) m =
  Some (mkMachine (PC m + 40) 1 (sp + 5)
          (call_ram (RAM m) sp n (symtab (return_address name number)))).
Proof.
  intros Hsp Hlo Hhi Hn Hn'.
  unfold call_frame_code, HackCodeGenerator.sum_lists. cbn [List.concat].
  exec_part (exec_PushConstant (VStr (return_address name number))
               (symtab (return_address name number)) sp);
    [|apply resolve_generated].
  exec_part (exec_PushFromMemory 1 (sp + 1)).
  exec_part (exec_PushFromMemory 2 (sp + 2)).
  exec_part (exec_PushFromMemory 3 (sp + 3)).
  exec_part (exec_PushFromMemory 4 (sp + 4)).
  exec_part (exec_FromMemoryToD 0).
  exec_part (exec_AddConstantToD (- n - 5)).
  exec_part (exec_FromDToMemory 2).
  rewrite app_nil_r. rewrite exec_FromMemoryToMemory by lia.
  cbn [PC A D RAM]. unfold call_ram. simp_store.
  replace (sp + 1 + 1) with (sp + 2) by lia.
  replace (sp + 2 + 1) with (sp + 3) by lia.
  replace (sp + 3 + 1) with (sp + 4) by lia.
  replace (sp + 4 + 1) with (sp + 5) by lia.
  replace (sp + 5 + (- n - 5)) with (sp + 5 - n - 5) by lia.
  repeat (f_equal; try lia).
Qed.

Lemma call_ram_reads ram sp n ra :
  16 <= sp ->
  call_ram ram sp n ra 0 = sp + 5 /\
  call_ram ram sp n ra 1 = sp + 5 /\
  call_ram ram sp n ra 2 = wrap (sp + 5 - n - 5) /\
  call_ram ram sp n ra sp = ra /\
  call_ram ram sp n ra (sp + 1) = ram 1 /\
  call_ram ram sp n ra (sp + 2) = ram 2 /\
  call_ram ram sp n ra (sp + 3) = ram 3 /\
  call_ram ram sp n ra (sp + 4) = ram 4 /\
  (forall x, 2 < x -> x < sp \/ sp + 4 < x -> call_ram ram sp n ra x = ram x).
Proof.
  intros Hsp. unfold call_ram.
  repeat split; try (simp_store; reflexivity).
  intros x Hx Hx'. simp_store. reflexivity.
Qed.

(** Running the call sequence from its first instruction: 42 steps later
    the frame is saved, [ARG] and [LCL] are repositioned and control is at
    the address [f] resolves to. *)
Lemma run_call f n name number base sp target m :
  loaded_at base (call_frame_code name number n
                  ++ HackCodeGenerator._GotoLabel f
                  ++ HackCodeGenerator._CreateLabel (return_address name number))%list ->
  resolve f = Some target ->
  PC m = Z.of_nat base ->
  RAM m 0 = sp -> 16 <= sp -> sp + 5 < 65536 -> 0 <= n -> n + 5 < 32768 ->
  run 42 m =
  Some (mkMachine target target (sp + 5)
          (call_ram (RAM m) sp n (symtab (return_address name number)))).
Proof.
  intros Hrom Hf Hpc Hsp Hlo Hhi Hn Hn'.
  unfold Hack.loaded_at in Hrom. rewrite instructions_call in Hrom.
  apply in_rom_app in Hrom as [Hframe Hgoto].
  rewrite length_call_frame_code in Hgoto.
  pose proof (exec_call_frame_code name number n sp m Hsp Hlo Hhi Hn Hn') as Hex.
  pose proof (run_exec_seq _ _ _ _ Hframe Hpc Hex) as Hrun.
  rewrite length_call_frame_code in Hrun.
  change 42%nat with (40 + 2)%nat. rewrite run_add, Hrun.
  unfold HackCodeGenerator._GotoLabel, str in Hgoto.
  cbn [Hack.run].
  rewrite (step_in_rom _ _ _ _ Hgoto) by (cbn [PC]; lia).
  rewrite exec_A, Hf.
  apply in_rom_cons in Hgoto as [_ Hjmp].
  rewrite (step_in_rom _ _ _ _ Hjmp) by (cbn [PC]; lia).
  rewrite exec_JMP. reflexivity.
Qed.

(** ** The return sequence *)

Lemma GenerateAsmReturnCommand_eq name function_name number :
  HackCodeGenerator.GenerateAsmReturnCommand name function_name number =
  Ret (Some (return_frame_code
             ++ HackCodeGenerator._GotoLocationFromMemory 14)%list).
Proof. reflexivity. Qed.

Lemma instructions_return :
  instructions (return_frame_code
                ++ HackCodeGenerator._GotoLocationFromMemory 14)%list
  = (return_frame_code ++ HackCodeGenerator._GotoLocationFromMemory 14)%list.
Proof. reflexivity. Qed.

Lemma length_return_frame_code : List.length return_frame_code = 57%nat.
Proof. reflexivity. Qed.

Lemma exec_return_frame_code frame arg sp m :
  RAM m 1 = frame -> RAM m 2 = arg -> RAM m 0 = sp ->
  16 <= arg -> arg + 5 <= frame -> frame < 65536 -> 16 < sp < 65536 ->
  exec_seq return_frame_code m =
  Some (mkMachine (PC m + 57) 1 (RAM m (frame - 4))
          (return_ram (RAM m) frame arg sp)).
Proof.
  intros Hframe Harg Hsp Ha Haf Hf Hs.
  unfold return_frame_code, HackCodeGenerator.sum_lists. cbn [List.concat].
  exec_part (exec_FromMemoryToMemory 1 13).
  exec_part (exec_FromMemoryToD 13).
  exec_part (exec_AddConstantToD (-5)).
  exec_part exec_FromMemoryDToD.
  exec_part (exec_FromDToMemory 14).
  exec_part (exec_PopToD sp).
  exec_part (exec_FromDToMemoryIndirect 2).
  exec_part (exec_FromMemoryToD 2).
  exec_part (exec_AddConstantToD 1).
  exec_part (exec_FromDToMemory 0).
  exec_part (exec_FromMemoryToD 13).
  exec_part (exec_AddConstantToD (-1)).
  exec_part exec_FromMemoryDToD.
  exec_part (exec_FromDToMemory 4).
  exec_part (exec_FromMemoryToD 13).
  exec_part (exec_AddConstantToD (-2)).
  exec_part exec_FromMemoryDToD.
  exec_part (exec_FromDToMemory 3).
  exec_part (exec_FromMemoryToD 13).
  exec_part (exec_AddConstantToD (-3)).
  exec_part exec_FromMemoryDToD.
  exec_part (exec_FromDToMemory 2).
  exec_part (exec_FromMemoryToD 13).
  exec_part (exec_AddConstantToD (-4)).
  exec_part exec_FromMemoryDToD.
  rewrite app_nil_r. rewrite exec_FromDToMemory by lia.
  cbn [PC A D RAM]. unfold return_ram. simp_store.
  rewrite Hframe, Harg. repeat (f_equal; try lia).
Qed.

Lemma return_ram_reads ram frame arg sp :
  16 <= arg -> arg + 5 <= frame ->
  return_ram ram frame arg sp 0 = arg + 1 /\
  return_ram ram frame arg sp arg = ram (sp - 1) /\
  return_ram ram frame arg sp 1 = ram (frame - 4) /\
  return_ram ram frame arg sp 2 = ram (frame - 3) /\
  return_ram ram frame arg sp 3 = ram (frame - 2) /\
  return_ram ram frame arg sp 4 = ram (frame - 1) /\
  return_ram ram frame arg sp 14 = ram (frame - 5) /\
  (forall x, 14 < x -> x <> arg -> return_ram ram frame arg sp x = ram x).
Proof.
  intros Ha Haf. unfold return_ram.
  repeat split; try (simp_store; reflexivity).
  intros x Hx Hx'. simp_store. reflexivity.
Qed.

(** Running the return sequence from its first instruction: 60 steps later
    the returned value has replaced the arguments, the four base pointers
    are those saved in the frame and control is at the saved return
    address. *)
Lemma run_return base frame arg sp m :
  loaded_at base (return_frame_code
                  ++ HackCodeGenerator._GotoLocationFromMemory 14)%list ->
  PC m = Z.of_nat base ->
  RAM m 1 = frame -> RAM m 2 = arg -> RAM m 0 = sp ->
  16 <= arg -> arg + 5 <= frame -> frame < 65536 -> 16 < sp < 65536 ->
  run 60 m =
  Some (mkMachine (RAM m (frame - 5)) (RAM m (frame - 5)) (RAM m (frame - 4))
          (return_ram (RAM m) frame arg sp)).
Proof.
  intros Hrom Hpc Hframe Harg Hsp Ha Haf Hf Hs.
  unfold Hack.loaded_at in Hrom. rewrite instructions_return in Hrom.
  apply in_rom_app in Hrom as [Hcode Hgoto].
  rewrite length_return_frame_code in Hgoto.
  pose proof (exec_return_frame_code frame arg sp m
                Hframe Harg Hsp Ha Haf Hf Hs) as Hex.
  pose proof (run_exec_seq _ _ _ _ Hcode Hpc Hex) as Hrun.
  rewrite length_return_frame_code in Hrun.
  change 60%nat with (57 + 3)%nat. rewrite run_add, Hrun.
  unfold HackCodeGenerator._GotoLocationFromMemory, str in Hgoto.
  cbn [Hack.run].
  rewrite (step_in_rom _ _ _ _ Hgoto) by (cbn [PC]; lia).
  rewrite exec_A, (resolve_int 14) by lia.
  apply in_rom_cons in Hgoto as [_ Hgoto].
  rewrite (step_in_rom _ _ _ _ Hgoto) by (cbn [PC]; lia).
  rewrite exec_A_M. unfold next_A. cbn [PC A D RAM].
  apply in_rom_cons in Hgoto as [_ Hgoto].
  rewrite (step_in_rom _ _ _ _ Hgoto) by (cbn [PC]; lia).
  rewrite exec_JMP. cbn [PC A D RAM].
  destruct (return_ram_reads (RAM m) frame arg sp Ha Haf)
    as (_ & _ & _ & _ & _ & _ & -> & _).
  reflexivity.
Qed.

(** ** The comparison template *)

Lemma instructions_comparison op name number :
  instructions (HackCodeGenerator._ApplyComparisonTemplate op name number)
  = (comparison_prologue name number
     ++ comparison_branch op
     ++ (comparison_false name number ++ [ "0;JMP"%string ])
     ++ comparison_true)%list.
Proof. reflexivity. Qed.

Lemma label_table_comparison base op name number :
  label_table base (HackCodeGenerator._ApplyComparisonTemplate op name number)
  = [ (branch_label name number, base + 13); (end_label name number, base + 17) ].
Proof.
  unfold HackCodeGenerator._ApplyComparisonTemplate.
  fold (branch_label name number). fold (end_label name number).
  cbn [label_table label_of append].
  rewrite !drop_last_append. cbn [label_table].
  f_equal; [f_equal; lia|]. f_equal. f_equal. lia.
Qed.

Lemma exec_comparison_prologue name number sp m :
  RAM m 0 = sp -> 2 < sp < 65536 ->
  exec_seq (comparison_prologue name number) m =
  Some (mkMachine (PC m + 7) (symtab (branch_label name number))
          (wrap (RAM m (sp - 1) - RAM m (sp - 2)))
          (store (RAM m) 0 (sp - 1))).
Proof.
  intros Hsp Hr. unfold comparison_prologue.
  do 6 exec_line.
  cbn [Hack.exec_seq]. rewrite exec_A. unfold branch_label at 1.
  rewrite resolve_generated. fold (branch_label name number).
  cbn [PC A D RAM]. rewrite Z.eqb_refl.
  rewrite Hsp. same_state.
Qed.

Lemma exec_comparison_false name number sp m :
  RAM m 0 = sp -> 1 < sp < 65536 ->
  exec_seq (comparison_false name number) m =
  Some (mkMachine (PC m + 4) (symtab (end_label name number)) (D m)
          (store (RAM m) (sp - 1) 0)).
Proof.
  intros Hsp Hr. unfold comparison_false.
  do 3 exec_line.
  cbn [Hack.exec_seq]. rewrite exec_A. unfold end_label at 1.
  rewrite resolve_generated. fold (end_label name number).
  cbn [PC A D RAM]. rewrite Z.eqb_refl.
  rewrite Hsp. same_state.
Qed.

Lemma exec_comparison_true sp m :
  RAM m 0 = sp -> 1 < sp < 65536 ->
  exec_seq comparison_true m =
  Some (mkMachine (PC m + 4) (sp - 1) (D m)
          (store (store (RAM m) (sp - 1) 0) (sp - 1) all_ones)).
Proof.
  intros Hsp Hr. unfold comparison_true.
  do 4 exec_line.
  rewrite Hsp. same_state.
Qed.

Lemma run_1 m : run 1 m = step m.
Proof. cbn [Hack.run]. now destruct (step m). Qed.

(** The comparison template pops two values and leaves, in their place,
    all ones when the jump condition holds of (top - second) and zero
    otherwise; control ends right after the template on both paths. *)
Lemma run_comparison op j name number base sp m :
  assoc op jump_table = Some j ->
  loaded_at base (HackCodeGenerator._ApplyComparisonTemplate op name number) ->
  labels_resolved base
    (HackCodeGenerator._ApplyComparisonTemplate op name number) ->
  PC m = Z.of_nat base ->
  RAM m 0 = sp -> 2 < sp < 65536 ->
  exists k m',
    run k m = Some m' /\
    PC m' = Z.of_nat base + 17 /\
    RAM m' 0 = sp - 1 /\
    RAM m' (sp - 2) =
      (if taken (Some j) (wrap (RAM m (sp - 1) - RAM m (sp - 2)))
       then all_ones else 0) /\
    (forall x, x <> 0 -> x <> sp - 2 -> RAM m' x = RAM m x).
Proof.
  intros Hj Hrom Hlab Hpc Hsp Hr.
  unfold Hack.loaded_at in Hrom. rewrite instructions_comparison in Hrom.
  unfold Hack.labels_resolved in Hlab. rewrite label_table_comparison in Hlab.
  pose proof (Forall_inv Hlab) as Hb.
  pose proof (Forall_inv (Forall_inv_tail Hlab)) as He.
  cbn [fst snd] in Hb, He.
  apply in_rom_app in Hrom as [Hpro Hrom].
  apply in_rom_app in Hrom as [Hjump Hrom].
  apply in_rom_app in Hrom as [Hfalse Htrue].
  cbn [List.length Nat.add comparison_prologue comparison_false comparison_branch List.app] in *.
  fold (comparison_prologue name number) in Hpro.
  pose proof (exec_comparison_prologue name number sp m Hsp Hr) as Hex.
  pose proof (run_exec_seq _ _ _ _ Hpro Hpc Hex) as Hrun.
  cbn [List.length comparison_prologue] in Hrun.
  set (d := wrap (RAM m (sp - 1) - RAM m (sp - 2))) in *.
  assert (Hstep : run (7 + 1) m =
                  Some (mkMachine (if taken (Some j) d
                                   then symtab (branch_label name number)
                                   else PC m + 7 + 1)
                          (symtab (branch_label name number)) d
                          (store (RAM m) 0 (sp - 1)))).
  { rewrite run_add, Hrun, run_1.
    rewrite (step_in_rom _ _ _ _ Hjump) by (cbn [PC]; lia).
    rewrite (exec_D_jump j op _ Hj). reflexivity. }
  destruct (taken (Some j) d) eqn:Ht.
  - (* the branch is taken *)
    exists (7 + 1 + 4)%nat. eexists. split.
    { rewrite run_add, Hstep.
      apply (run_exec_seq comparison_true (base + 7 + 1 + 5)).
      - exact Htrue.
      - cbn [PC]. lia.
      - apply (exec_comparison_true (sp - 1));
          [cbn [RAM]; simp_store; reflexivity|lia]. }
    cbn [PC RAM]. repeat split.
    + lia.
    + simp_store. reflexivity.
    + simp_store. reflexivity.
    + intros x H0 Hx. simp_store. reflexivity.
  - (* the branch is not taken *)
    apply in_rom_app with (code1 := comparison_false name number) in Hfalse
      as [Hfalse Hjmp].
    exists (7 + 1 + 4 + 1)%nat. eexists. split.
    { rewrite run_add, run_add, Hstep.
      assert (Hf : run 4 (mkMachine (PC m + 7 + 1)
                            (symtab (branch_label name number)) d
                            (store (RAM m) 0 (sp - 1)))
                   = Some (mkMachine (PC m + 7 + 1 + 4)
                             (symtab (end_label name number)) d
                             (store (store (RAM m) 0 (sp - 1)) (sp - 1 - 1) 0))).
      { apply (run_exec_seq (comparison_false name number) (base + 7 + 1)).
        - exact Hfalse.
        - cbn [PC]. lia.
        - apply (exec_comparison_false name number (sp - 1));
            [cbn [RAM]; simp_store; reflexivity|lia]. }
      rewrite Hf, run_1.
      cbn [List.length comparison_false] in Hjmp.
      rewrite (step_in_rom _ _ _ _ Hjmp) by (cbn [PC]; lia).
      rewrite exec_JMP. reflexivity. }
    cbn [PC A RAM]. repeat split.
    + lia.
    + simp_store. reflexivity.
    + simp_store. reflexivity.
    + intros x H0 Hx. simp_store. reflexivity.
Qed.

(** ** The push and pop templates *)

Lemma exec_ApplyPushDirectTemplate address sp m :
  0 <= address < 32768 ->
  RAM m 0 = sp -> 0 < sp < 65535 ->
  exec_seq (HackCodeGenerator._ApplyPushDirectTemplate (VInt address)) m =
  Some (mkMachine (PC m + 7) 0 (RAM m address)
          (store (store (RAM m) sp (RAM m address)) 0 (sp + 1))).
Proof.
  intros Ha Hsp Hr.
  unfold HackCodeGenerator._ApplyPushDirectTemplate,
    HackCodeGenerator._ApplyPushTemplate, str.
  cbn [List.app].
  exec_at address. do 6 exec_line.
  rewrite Hsp. same_state.
Qed.

Lemma exec_ApplyPopDirectTemplate address sp m :
  0 <= address < 32768 ->
  RAM m 0 = sp -> 1 < sp < 65536 ->
  exec_seq (HackCodeGenerator._ApplyPopDirectTemplate (VInt address)) m =
  Some (mkMachine (PC m + 6) address (RAM m (sp - 1))
          (store (store (RAM m) 0 (sp - 1)) address (RAM m (sp - 1)))).
Proof.
  intros Ha Hsp Hr.
  unfold HackCodeGenerator._ApplyPopDirectTemplate, str.
  do 4 exec_line. exec_at address. exec_line.
  rewrite Hsp. same_state.
Qed.

Lemma exec_ApplyPushIndirectTemplate segment_base index sp m :
  0 <= segment_base < 32768 -> 0 <= index < 32768 ->
  RAM m 0 = sp -> 0 < sp < 65535 ->
  exec_seq (HackCodeGenerator._ApplyPushIndirectTemplate segment_base index) m =
  Some (mkMachine (PC m + 10) 0 (RAM m (wrap (RAM m segment_base + index)))
          (store (store (RAM m) sp (RAM m (wrap (RAM m segment_base + index))))
             0 (sp + 1))).
Proof.
  intros Hb Hi Hsp Hr.
  unfold HackCodeGenerator._ApplyPushIndirectTemplate,
    HackCodeGenerator._ApplyPushTemplate.
  cbn [List.app].
  exec_at segment_base. exec_line. exec_at index. do 7 exec_line.
  rewrite Hsp. same_state.
Qed.

Lemma exec_A_13 m : exec "@13" m = Some (mkMachine (PC m + 1) 13 (D m) (RAM m)).
Proof. reflexivity. Qed.

Ltac exec_at_13 :=
  cbn [Hack.exec_seq]; rewrite exec_A_13; cbn [PC A D RAM]; rewrite Z.eqb_refl.

Lemma exec_ApplyPopIndirectTemplate segment_base index sp m :
  0 <= segment_base < 32768 -> 0 <= index < 32768 ->
  RAM m 0 = sp -> 14 < sp < 65536 ->
  exec_seq (HackCodeGenerator._ApplyPopIndirectTemplate segment_base index) m =
  Some (mkMachine (PC m + 13) (wrap (RAM m segment_base + index))
          (RAM m (sp - 1))
          (store (store (store (RAM m) 13 (wrap (RAM m segment_base + index)))
                    0 (sp - 1))
             (wrap (RAM m segment_base + index)) (RAM m (sp - 1)))).
Proof.
  intros Hb Hi Hsp Hr.
  unfold HackCodeGenerator._ApplyPopIndirectTemplate.
  exec_at segment_base. exec_line. exec_at index. exec_line.
  exec_at_13. exec_line. do 4 exec_line. exec_at_13. do 2 exec_line.
  simp_store. rewrite Hsp. simp_store. same_state.
Qed.


(** ** Arithmetic, logic and the remaining templates *)

Lemma exec_M_DpM m : exec "M=D+M" m = Some (next_M (wrap (D m + RAM m (A m))) m).
Proof. reflexivity. Qed.
Lemma exec_M_MmD m : exec "M=M-D" m = Some (next_M (wrap (RAM m (A m) - D m)) m).
Proof. reflexivity. Qed.
Lemma exec_M_DandM m :
  exec "M=D&M" m = Some (next_M (wrap (Z.land (D m) (RAM m (A m)))) m).
Proof. reflexivity. Qed.
Lemma exec_M_DorM m :
  exec "M=D|M" m = Some (next_M (wrap (Z.lor (D m) (RAM m (A m)))) m).
Proof. reflexivity. Qed.
Lemma exec_M_negM m : exec "M=-M" m = Some (next_M (wrap (- RAM m (A m))) m).
Proof. reflexivity. Qed.

Ltac exec_alu :=
  cbn [Hack.exec_seq];
  first
    [ rewrite exec_M_DpM | rewrite exec_M_MmD | rewrite exec_M_DandM
    | rewrite exec_M_DorM | rewrite exec_M_negM | rewrite exec_M_notM ];
  unfold next_A, next_D, next_M; cbn [PC A D RAM];
  rewrite Z.eqb_refl.

(** What precedes the operation in the binary template: the top of the
    stack is in [D] and [A] addresses the value below it. *)
Lemma exec_binary_operands sp m :
  RAM m 0 = sp -> 2 < sp < 65536 ->
  exec_seq [ "@SP"; "M=M-1"; "A=M"; "D=M"; "A=A-1" ] m =
  Some (mkMachine (PC m + 5) (sp - 2) (RAM m (sp - 1))
          (store (RAM m) 0 (sp - 1))).
Proof.
  intros Hsp Hr. do 5 exec_line. rewrite Hsp. same_state.
Qed.

Lemma exec_ApplyBinaryTemplate c op sp m :
  In (c, op) [ (AddCommand, "+"); (SubCommand, "-"); (AndCommand, "&");
               (OrCommand, "|") ] ->
  RAM m 0 = sp -> 2 < sp < 65536 ->
  exec_seq (HackCodeGenerator._ApplyBinaryTemplate op) m =
  Some (mkMachine (PC m + 6) (sp - 2) (RAM m (sp - 1))
          (store (store (RAM m) 0 (sp - 1)) (sp - 2)
             (vm_binary c (RAM m (sp - 2)) (RAM m (sp - 1))))).
Proof.
  intros Hin Hsp Hr.
  assert (E : forall l, HackCodeGenerator._ApplyBinaryTemplate op
                        = ([ "@SP"; "M=M-1"; "A=M"; "D=M"; "A=A-1" ] ++ [l])%list ->
              exec_seq [l] (mkMachine (PC m + 5) (sp - 2) (RAM m (sp - 1))
                              (store (RAM m) 0 (sp - 1)))
              = Some (mkMachine (PC m + 6) (sp - 2) (RAM m (sp - 1))
                        (store (store (RAM m) 0 (sp - 1)) (sp - 2)
                           (vm_binary c (RAM m (sp - 2)) (RAM m (sp - 1))))) ->
              exec_seq (HackCodeGenerator._ApplyBinaryTemplate op) m
              = Some (mkMachine (PC m + 6) (sp - 2) (RAM m (sp - 1))
                        (store (store (RAM m) 0 (sp - 1)) (sp - 2)
                           (vm_binary c (RAM m (sp - 2)) (RAM m (sp - 1)))))).
  { intros l -> Hl. rewrite exec_seq_app.
    now rewrite (exec_binary_operands sp m Hsp Hr). }
  cbn [In] in Hin.
  destruct Hin as [[= <- <-]|[[= <- <-]|[[= <- <-]|[[= <- <-]|[]]]]];
    (eapply E; [reflexivity|]); exec_alu; cbn [vm_binary]; simp_store;
    try rewrite (Z.land_comm (RAM m (sp - 2)) (RAM m (sp - 1)));
    try rewrite (Z.lor_comm (RAM m (sp - 2)) (RAM m (sp - 1)));
    cbn [Hack.exec_seq]; repeat (f_equal; try lia).
Qed.

Lemma exec_ApplyUnaryTemplate c op sp m :
  In (c, op) [ (NegCommand, "-"); (NotCommand, "!") ] ->
  RAM m 0 = sp -> 1 < sp < 65536 ->
  exec_seq (HackCodeGenerator._ApplyUnaryTemplate op) m =
  Some (mkMachine (PC m + 4) (sp - 1) (D m)
          (store (RAM m) (sp - 1) (vm_unary c (RAM m (sp - 1))))).
Proof.
  intros Hin Hsp Hr. cbn [In] in Hin.
  destruct Hin as [[= <- <-]|[[= <- <-]|[]]];
    unfold HackCodeGenerator._ApplyUnaryTemplate; cbn [append];
    do 3 exec_line; exec_alu; rewrite Hsp; cbn [vm_unary]; same_state.
Qed.

Lemma exec_ApplyPushConstantTemplate value sp m :
  0 <= value < 32768 ->
  RAM m 0 = sp -> 0 < sp < 65535 ->
  exec_seq (HackCodeGenerator._ApplyPushConstantTemplate value) m =
  Some (mkMachine (PC m + 7) 0 value
          (store (store (RAM m) sp value) 0 (sp + 1))).
Proof.
  intros Hv Hsp Hr.
  unfold HackCodeGenerator._ApplyPushConstantTemplate,
    HackCodeGenerator._ApplyPushTemplate.
  cbn [List.app].
  exec_at value. do 6 exec_line.
  rewrite Hsp. same_state.
Qed.

(** The direct templates, for any operand the assembler resolves. *)
Lemma exec_ApplyPushDirectTemplate_resolved value address sp m :
  resolve (str value) = Some address ->
  RAM m 0 = sp -> 0 < sp < 65535 ->
  exec_seq (HackCodeGenerator._ApplyPushDirectTemplate value) m =
  Some (mkMachine (PC m + 7) 0 (RAM m address)
          (store (store (RAM m) sp (RAM m address)) 0 (sp + 1))).
Proof.
  intros Ha Hsp Hr.
  unfold HackCodeGenerator._ApplyPushDirectTemplate,
    HackCodeGenerator._ApplyPushTemplate.
  cbn [List.app].
  exec_at address. do 6 exec_line.
  rewrite Hsp. same_state.
Qed.

Lemma exec_ApplyPopDirectTemplate_resolved value address sp m :
  resolve (str value) = Some address ->
  RAM m 0 = sp -> 1 < sp < 65536 ->
  exec_seq (HackCodeGenerator._ApplyPopDirectTemplate value) m =
  Some (mkMachine (PC m + 6) address (RAM m (sp - 1))
          (store (store (RAM m) 0 (sp - 1)) address (RAM m (sp - 1)))).
Proof.
  intros Ha Hsp Hr.
  unfold HackCodeGenerator._ApplyPopDirectTemplate.
  do 4 exec_line. exec_at address. exec_line.
  rewrite Hsp. same_state.
Qed.

(** Pushing zero [k] times. *)
Lemma exec_push_zeros k :
  forall sp m,
  RAM m 0 = sp -> 0 < sp -> sp + Z.of_nat k < 65536 ->
  exists m',
    exec_seq (List.concat (List.repeat (HackCodeGenerator._PushConstant (VInt 0)) k)) m
    = Some m' /\
    PC m' = PC m + 6 * Z.of_nat k /\
    RAM m' 0 = sp + Z.of_nat k /\
    (forall x, sp <= x < sp + Z.of_nat k -> RAM m' x = 0) /\
    (forall x, x <> 0 -> x < sp \/ sp + Z.of_nat k <= x -> RAM m' x = RAM m x).
Proof.
  induction k as [|k IH]; intros sp m Hsp Hlo Hhi.
  - exists m. cbn [List.repeat List.concat Hack.exec_seq].
    repeat split; intros; lia.
  - cbn [List.repeat List.concat]. rewrite exec_seq_app.
    rewrite (exec_PushConstant (VInt 0) 0 sp m (resolve_int 0 ltac:(lia)) Hsp)
      by lia.
    destruct (IH (sp + 1)
                (mkMachine (PC m + 6) sp 0 (store (store (RAM m) 0 (sp + 1)) sp 0)))
      as (m' & Hex & Hpc & H0 & Hz & Hframe).
    { cbn [RAM]. simp_store. reflexivity. }
    { lia. }
    { lia. }
    exists m'. split; [exact Hex|]. cbn [PC RAM] in *.
    split; [lia|]. split; [lia|]. split.
    + intros x Hx. destruct (Z.eq_dec x sp) as [->|Hne].
      * rewrite Hframe by lia. simp_store. reflexivity.
      * apply Hz; lia.
    + intros x Hx0 Hx. rewrite Hframe by lia. simp_store. reflexivity.
Qed.

(** The first four lines of the bootstrap set the stack pointer. *)
Lemma exec_bootstrap_prefix m :
  exec_seq ["@256"; "D=A"; "@0"; "M=D"] m =
  Some (mkMachine (PC m + 4) 0 256 (store (RAM m) 0 256)).
Proof.
  change "@256" with ("@" ++ str_of_int 256).
  change "@0" with ("@" ++ str_of_int 0).
  exec_at 256. exec_line. exec_at 0. exec_line. same_state.
Qed.

End Semantics.

(** Label-free code that executes without transferring control does so
    wherever it is loaded. *)
Lemma exec_seq_executes symtab asm m m' :
  instructions asm = asm ->
  exec_seq symtab asm m = Some m' ->
  executes symtab asm m m'.
Proof.
  intros Hi Hex rom base Hrom Hpc.
  unfold loaded_at in Hrom. rewrite Hi in *.
  exact (run_exec_seq symtab rom asm base m m' Hrom Hpc Hex).
Qed.

(* ================================================================== *)
(** * The calling convention *)
(* ================================================================== *)

Lemma labels_resolved_call symtab base f n name number :
  labels_resolved symtab base
    (call_frame_code name number n
     ++ HackCodeGenerator._GotoLabel f
     ++ HackCodeGenerator._CreateLabel (return_address name number))%list ->
  symtab (return_address name number) = Z.of_nat base + 42.
Proof.
  unfold labels_resolved. rewrite label_table_call.
  intros H. inversion H as [|? ? Hra _]. exact Hra.
Qed.

(** C2: the assembly of [call f n] is, in this order, the push of the
    return address (the label built from the file name and the position),
    the pushes of the cells of [local], [argument], [this] and [that], the
    assignment of stack pointer minus [n] minus 5 to the [argument] cell,
    the copy of the stack pointer to the [local] cell, the jump to [f] and
    the definition of the return label.  Run on the machine, it leaves the
    return address and the four base pointers on the stack in that order,
    [ARG = SP - n - 5], [LCL = SP], and control at [f]; the return address
    pushed is the address that follows the sequence, where the label is
    defined. *)
Theorem C2_call_sequence f n name function_name number :
  0 <= n ->
  exists asm local argument this that sp_cell,
    HackCodeGenerator.getitem HackCodeGenerator._SEGMENT_MAPPING "local"
      = Ret local /\
    HackCodeGenerator.getitem HackCodeGenerator._SEGMENT_MAPPING "argument"
      = Ret argument /\
    HackCodeGenerator.getitem HackCodeGenerator._SEGMENT_MAPPING "this"
      = Ret this /\
    HackCodeGenerator.getitem HackCodeGenerator._SEGMENT_MAPPING "that"
      = Ret that /\
    HackCodeGenerator.getitem HackCodeGenerator._SEGMENT_MAPPING "sp"
      = Ret sp_cell /\
    HackCodeGenerator.GenerateAsm (Some (CallCommand f n)) name function_name
      number = Ret (Some asm) /\
    asm = (HackCodeGenerator._PushConstant (VStr (return_address name number))
           ++ HackCodeGenerator._PushFromMemory local
           ++ HackCodeGenerator._PushFromMemory argument
           ++ HackCodeGenerator._PushFromMemory this
           ++ HackCodeGenerator._PushFromMemory that
           ++ (HackCodeGenerator._FromMemoryToD sp_cell
               ++ HackCodeGenerator._AddConstantToD (- n - 5)
               ++ HackCodeGenerator._FromDToMemory argument)
           ++ HackCodeGenerator._FromMemoryToMemory sp_cell local
           ++ HackCodeGenerator._GotoLabel f
           ++ HackCodeGenerator._CreateLabel (return_address name number))%list /\
    defined_labels asm = [return_address name number] /\
    forall symtab rom base m sp target,
      loaded_at rom base asm ->
      labels_resolved symtab base asm ->
      resolve symtab f = Some target ->
      PC m = Z.of_nat base ->
      RAM m sp_cell = sp -> 16 <= sp -> sp + 5 < 65536 -> n + 5 < 32768 ->
      exists m',
        run symtab rom 42 m = Some m' /\
        RAM m' sp = symtab (return_address name number) /\
        symtab (return_address name number) = Z.of_nat base + 42 /\
        RAM m' (sp + 1) = RAM m local /\
        RAM m' (sp + 2) = RAM m argument /\
        RAM m' (sp + 3) = RAM m this /\
        RAM m' (sp + 4) = RAM m that /\
        RAM m' sp_cell = sp + 5 /\
        RAM m' argument = wrap (RAM m' sp_cell - n - 5) /\
        RAM m' local = RAM m' sp_cell /\
        PC m' = target /\
        (forall x, 2 < x -> x < sp \/ sp + 4 < x -> RAM m' x = RAM m x).
Proof.
  intros Hn.
  exists (call_frame_code name number n
          ++ HackCodeGenerator._GotoLabel f
          ++ HackCodeGenerator._CreateLabel (return_address name number))%list,
         1, 2, 3, 4, 0.
  do 5 (split; [reflexivity|]).
  split; [apply GenerateAsmCallCommand_eq|].
  split; [reflexivity|].
  split.
  { unfold call_frame_code, HackCodeGenerator._CreateLabel, str.
    cbn [HackCodeGenerator.sum_lists List.concat List.app
       HackCodeGenerator._PushConstant HackCodeGenerator._PushFromMemory
       HackCodeGenerator._FromMemoryToD HackCodeGenerator._AddConstantToD
       HackCodeGenerator._FromDToMemory HackCodeGenerator._FromMemoryToMemory
       HackCodeGenerator._GotoLabel defined_labels label_of append].
    now rewrite drop_last_append. }
  intros symtab rom base m sp target Hrom Hlab Hf Hpc Hsp Hlo Hhi Hn'.
  eexists. split.
  { apply (run_call symtab rom f n name number base sp target m); assumption. }
  cbn [PC A D RAM].
  destruct (call_ram_reads (RAM m) sp n (symtab (return_address name number)) Hlo)
    as (H0 & H1 & H2 & Hra & Hs1 & Hs2 & Hs3 & Hs4 & Hrest).
  rewrite H0, H1, H2, Hra, Hs1, Hs2, Hs3, Hs4.
  repeat split; auto.
  apply (labels_resolved_call symtab base f n name number Hlab).
Qed.

Lemma C2_call_sequence_witness :
  exists m',
    run example_symtab example_rom 42 example_machine = Some m' /\
    RAM m' 258 = 42 /\ RAM m' 259 = 300 /\ RAM m' 260 = 400 /\
    RAM m' 261 = 3000 /\ RAM m' 262 = 4000 /\
    RAM m' 0 = 263 /\ RAM m' 2 = 256 /\ RAM m' 1 = 263 /\ PC m' = 44.
Proof.
  destruct (C2_call_sequence "Foo.f" 2 "Foo" "DEFAULT_FUNCTION" 0)
    as (asm & l & a & t & t' & s & Hl & Ha & Ht & Ht' & Hs & _ & Hasm & _ & Hrun);
    [lia|].
  vm_compute in Hl, Ha, Ht, Ht', Hs.
  injection Hl as <-. injection Ha as <-. injection Ht as <-.
  injection Ht' as <-. injection Hs as <-. subst asm.
  destruct (Hrun example_symtab example_rom 0%nat example_machine 258 44)
    as (m' & H & Hra & Hra' & H1 & H2 & H3 & H4 & Hsp & Harg & Hlcl & Hpc & _).
  - vm_compute. reflexivity.
  - unfold labels_resolved. vm_compute label_table.
    constructor; [reflexivity|constructor].
  - reflexivity.
  - reflexivity.
  - reflexivity.
  - lia.
  - lia.
  - lia.
  - exists m'. rewrite Hra' in Hra. rewrite Hsp in Harg, Hlcl.
    repeat split; assumption.
Defined.

(** C3 as stated fails for a call with arguments: in the example the stack
    pointer is 258 when the call sequence starts (two arguments pushed) and
    257 when the return sequence has run, one slot below, not one above. *)
Lemma C3_counterexample :
  exists m3,
    run example_symtab example_rom 131 example_machine = Some m3 /\
    PC m3 = 42 /\
    RAM example_machine 0 = 258 /\
    RAM m3 0 = 257 /\
    RAM m3 0 <> RAM example_machine 0 + 1.
Proof.
  eexists. split; [vm_compute; reflexivity|].
  cbn [PC RAM]. repeat split; try reflexivity. vm_compute. discriminate.
Qed.

(** C3 (amended): take a call of [f] with [n] arguments, run its assembly,
    let the callee run in any way that keeps its frame (the five saved
    cells, [LCL] and [ARG]) and reaches the assembly of a [return] with a
    value on top of its stack.  After the return sequence the stack pointer
    is the pre-call stack pointer minus [n] plus 1, that is one slot above
    where it stood before the [n] arguments were pushed; the slot below it
    holds the returned value; the local, argument, this and that base
    pointers have their pre-call values; and control is back right after
    the call sequence. *)
Theorem C3_call_return_balance
  f n name function_name number name' function_name' number'
  symtab rom call_base return_base m0 sp target call_asm return_asm :
  HackCodeGenerator.GenerateAsm (Some (CallCommand f n)) name function_name
    number = Ret (Some call_asm) ->
  HackCodeGenerator.GenerateAsm (Some ReturnCommand) name' function_name'
    number' = Ret (Some return_asm) ->
  loaded_at rom call_base call_asm ->
  labels_resolved symtab call_base call_asm ->
  loaded_at rom return_base return_asm ->
  resolve symtab f = Some target ->
  0 <= n -> n + 5 < 32768 ->
  PC m0 = Z.of_nat call_base ->
  RAM m0 0 = sp -> 16 <= sp - n -> sp + 5 < 65536 ->
  exists m1,
    run symtab rom 42 m0 = Some m1 /\
    PC m1 = target /\
    forall m2,
      PC m2 = Z.of_nat return_base ->
      RAM m2 1 = RAM m1 1 ->
      RAM m2 2 = RAM m1 2 ->
      (forall i, 0 <= i < 5 -> RAM m2 (sp + i) = RAM m1 (sp + i)) ->
      sp + 5 < RAM m2 0 < 65536 ->
      exists m3,
        run symtab rom 60 m2 = Some m3 /\
        RAM m3 0 = sp - n + 1 /\
        RAM m3 (RAM m3 0 - 1) = RAM m2 (RAM m2 0 - 1) /\
        RAM m3 1 = RAM m0 1 /\
        RAM m3 2 = RAM m0 2 /\
        RAM m3 3 = RAM m0 3 /\
        RAM m3 4 = RAM m0 4 /\
        PC m3 = Z.of_nat call_base + 42.
Proof.
  intros Hcall Hret Hrom1 Hlab Hrom2 Hf Hn Hn' Hpc Hsp Hlo Hhi.
  cbn [HackCodeGenerator.GenerateAsm] in Hcall, Hret.
  rewrite GenerateAsmCallCommand_eq in Hcall. injection Hcall as <-.
  rewrite GenerateAsmReturnCommand_eq in Hret. injection Hret as <-.
  eexists. split.
  { apply (run_call symtab rom f n name number call_base sp target m0).
    - exact Hrom1.
    - exact Hf.
    - exact Hpc.
    - exact Hsp.
    - lia.
    - lia.
    - lia.
    - lia. }
  cbn [PC RAM]. split; [reflexivity|].
  intros m2 Hpc2 Hlcl Harg Hframe Hsp2.
  destruct (call_ram_reads (RAM m0) sp n (symtab (return_address name number)))
    as (H0 & H1 & H2 & Hra & Hs1 & Hs2 & Hs3 & Hs4 & _); [lia|].
  rewrite H1 in Hlcl. rewrite H2 in Harg.
  rewrite wrap_small in Harg by lia.
  pose proof (Hframe 0 ltac:(lia)) as F0. rewrite Z.add_0_r, Hra in F0.
  pose proof (Hframe 1 ltac:(lia)) as F1. rewrite Hs1 in F1.
  pose proof (Hframe 2 ltac:(lia)) as F2. rewrite Hs2 in F2.
  pose proof (Hframe 3 ltac:(lia)) as F3. rewrite Hs3 in F3.
  pose proof (Hframe 4 ltac:(lia)) as F4. rewrite Hs4 in F4.
  eexists. split.
  { apply (run_return symtab rom return_base (sp + 5) (sp + 5 - n - 5)
             (RAM m2 0) m2).
    - exact Hrom2.
    - exact Hpc2.
    - exact Hlcl.
    - exact Harg.
    - exact eq_refl.
    - lia.
    - lia.
    - lia.
    - lia. }
  cbn [PC RAM].
  destruct (return_ram_reads (RAM m2) (sp + 5) (sp + 5 - n - 5) (RAM m2 0))
    as (R0 & Rv & R1 & R2 & R3 & R4 & _ & _); [lia|lia|].
  rewrite R0, R1, R2, R3, R4.
  replace (sp + 5 - n - 5 + 1 - 1) with (sp + 5 - n - 5) by lia.
  rewrite Rv.
  replace (sp + 5 - 4) with (sp + 1) by lia.
  replace (sp + 5 - 3) with (sp + 2) by lia.
  replace (sp + 5 - 2) with (sp + 3) by lia.
  replace (sp + 5 - 1) with (sp + 4) by lia.
  replace (sp + 5 - 5) with sp by lia.
  rewrite F0, F1, F2, F3, F4.
  repeat split; try lia.
  apply (labels_resolved_call symtab call_base f n name number Hlab).
Qed.

Lemma C3_call_return_balance_witness :
  exists m3,
    run example_symtab example_rom 60 example_at_return = Some m3 /\
    RAM m3 0 = 257 /\ RAM m3 256 = 29 /\
    RAM m3 1 = 300 /\ RAM m3 2 = 400 /\ RAM m3 3 = 3000 /\ RAM m3 4 = 4000 /\
    PC m3 = 42.
Proof.
  destruct (C3_call_return_balance
              "Foo.f" 2 "Foo" "DEFAULT_FUNCTION" 0 "Foo" "Foo.f" 7
              example_symtab example_rom 0%nat 73%nat example_machine 258 44
              (call_frame_code "Foo" 0 2
               ++ HackCodeGenerator._GotoLabel "Foo.f"
               ++ HackCodeGenerator._CreateLabel (return_address "Foo" 0))%list
              (return_frame_code
               ++ HackCodeGenerator._GotoLocationFromMemory 14)%list)
    as (m1 & Hrun1 & _ & Hreturn).
  - reflexivity.
  - reflexivity.
  - vm_compute. reflexivity.
  - unfold labels_resolved. vm_compute label_table.
    constructor; [reflexivity|constructor].
  - vm_compute. reflexivity.
  - reflexivity.
  - lia.
  - lia.
  - reflexivity.
  - reflexivity.
  - lia.
  - lia.
  - vm_compute in Hrun1. injection Hrun1 as <-.
    destruct (Hreturn example_at_return)
      as (m3 & Hrun3 & H0 & Hv & H1 & H2 & H3 & H4 & Hpc).
    + reflexivity.
    + reflexivity.
    + reflexivity.
    + intros i Hi.
      assert (Ei : i = 0 \/ i = 1 \/ i = 2 \/ i = 3 \/ i = 4) by lia.
      destruct Ei as [->|[->|[->|[->| ->]]]]; reflexivity.
    + vm_compute. split; reflexivity.
    + exists m3. rewrite H0 in Hv.
      repeat split; assumption.
Defined.

(* ================================================================== *)
(** * Comparisons *)
(* ================================================================== *)

(** On words whose difference does not overflow, the jump conditions of
    the three comparisons, applied to (top - second), are the comparisons
    of the VM. *)
Lemma taken_vm_compare c op j x y :
  In (c, op, j) comparison_jumps ->
  0 <= x < 65536 -> 0 <= y < 65536 ->
  -32768 <= signed y - signed x < 32768 ->
  taken (Some j) (wrap (y - x)) = vm_compare c x y.
Proof.
  intros Hin Hx Hy. unfold comparison_jumps in Hin. cbn [In] in Hin.
  unfold signed, wrap.
  destruct Hin as [[= <- <- <-]|[[= <- <- <-]|[[= <- <- <-]|[]]]];
    cbn [taken vm_compare]; unfold signed;
    destruct (Z.ltb_spec x 32768), (Z.ltb_spec y 32768);
    destruct (Z.ltb_spec ((y - x) mod 65536) 32768); intros Hno;
    repeat match goal with
    | |- context [(?a =? ?b)%Z] => destruct (Z.eqb_spec a b)
    | |- context [(?a <? ?b)%Z] => destruct (Z.ltb_spec a b)
    end; try reflexivity; exfalso; Z.div_mod_to_equations; lia.
Qed.

(** C6: [eq] branches with [JEQ], [gt] with [JLT] and [lt] with [JGT], on
    the difference (top - second); the sequence pops the two operands and
    writes, in the slot that is now the top of the stack, all ones when the
    branch is taken and zero otherwise, leaving the stack one slot
    shallower.  On words whose difference does not overflow this is the
    truth value of the comparison. *)
Theorem C6_comparison c name function_name number :
  is_comparison c = true ->
  exists op j asm,
    In (c, op, j) comparison_jumps /\
    assoc op jump_table = Some j /\
    HackCodeGenerator.GenerateAsm (Some c) name function_name number
      = Ret (Some asm) /\
    nth_error asm 7 = Some ("D;" ++ op) /\
    forall symtab rom base m sp,
      loaded_at rom base asm ->
      labels_resolved symtab base asm ->
      PC m = Z.of_nat base ->
      RAM m 0 = sp -> 2 < sp < 65536 ->
      exists k m',
        run symtab rom k m = Some m' /\
        PC m' = Z.of_nat base + Z.of_nat (List.length (instructions asm)) /\
        RAM m' 0 = sp - 1 /\
        RAM m' (RAM m' 0 - 1) =
          (if taken (Some j) (wrap (RAM m (sp - 1) - RAM m (sp - 2)))
           then all_ones else 0) /\
        (0 <= RAM m (sp - 2) < 65536 -> 0 <= RAM m (sp - 1) < 65536 ->
         -32768 <= signed (RAM m (sp - 1)) - signed (RAM m (sp - 2)) < 32768 ->
         RAM m' (RAM m' 0 - 1) =
           (if vm_compare c (RAM m (sp - 2)) (RAM m (sp - 1))
            then all_ones else 0)) /\
        (forall x, x <> 0 -> x <> sp - 2 -> RAM m' x = RAM m x).
Proof.
  intros Hc.
  assert (E : exists op j,
             In (c, op, j) comparison_jumps /\
             assoc op jump_table = Some j /\
             HackCodeGenerator.GenerateAsm (Some c) name function_name number
             = Ret (Some (HackCodeGenerator._ApplyComparisonTemplate
                            op name number))).
  { destruct c; try discriminate Hc;
      [exists "JEQ", JEQ | exists "JLT", JLT | exists "JGT", JGT];
      (split; [simpl; auto|split; reflexivity]). }
  destruct E as (op & j & Hin & Hj & Hgen).
  exists op, j, (HackCodeGenerator._ApplyComparisonTemplate op name number).
  do 4 (split; [assumption || reflexivity|]).
  intros symtab rom base m sp Hrom Hlab Hpc Hsp Hr.
  destruct (run_comparison symtab rom op j name number base sp m
              Hj Hrom Hlab Hpc Hsp Hr)
    as (k & m' & Hrun & Hpc' & H0 & Hres & Hframe).
  exists k, m'. rewrite H0.
  replace (sp - 1 - 1) with (sp - 2) by lia.
  repeat split; try assumption.
  intros Hx Hy Hno. rewrite Hres.
  now rewrite (taken_vm_compare c op j _ _ Hin Hx Hy Hno).
Qed.

Lemma C6_comparison_witness :
  exists k m',
    run (symtab_of example_lt_asm 16) (instructions example_lt_asm) k
        example_machine = Some m' /\
    PC m' = 17 /\ RAM m' 0 = 257 /\ RAM m' 256 = 65535.
Proof.
  destruct (C6_comparison LtCommand "Foo" "Foo.f" 2 eq_refl)
    as (op & j & asm & Hin & _ & Hgen & _ & Hrun).
  injection Hgen as <-.
  destruct Hin as [[=]|[[=]|[[= <- <-]|[]]]].
  destruct (Hrun (symtab_of example_lt_asm 16) (instructions example_lt_asm)
              0%nat example_machine 258)
    as (k & m' & Hk & Hpc & H0 & _ & Hres & _).
  - vm_compute. reflexivity.
  - unfold labels_resolved.
    change (label_table (Z.of_nat 0)
              (HackCodeGenerator._ApplyComparisonTemplate "JGT" "Foo" 2))
      with [("Foo$2$branch", 13); ("Foo$2$end", 17)].
    constructor; [reflexivity|]. constructor; [reflexivity|constructor].
  - reflexivity.
  - reflexivity.
  - lia.
  - exists k, m'. rewrite H0 in Hres.
    repeat split; try assumption.
    apply Hres; vm_compute; split; congruence.
Defined.

(* ================================================================== *)
(** * The pointer segment *)
(* ================================================================== *)

Ltac by_exec L :=
  apply exec_seq_executes; [reflexivity|apply L; first [assumption|lia]].

(** C10: [push pointer i] and [pop pointer i] address cell [3 + i]
    directly; [this] and [that] accesses take their base address from cells
    3 and 4; the call sequence saves these two cells and the return
    sequence restores them; hence after [pop pointer 0] (or [pop pointer
    1]) an access to [this] (or [that]) at index [j] goes to the popped
    value plus [j]. *)
Theorem C10_pointer_cells name function_name number symtab m sp :
  RAM m 0 = sp -> 16 < sp < 65535 ->
  (forall i, 0 <= i -> 3 + i < 32768 ->
     exists push pop m1 m2,
       HackCodeGenerator.GenerateAsm (Some (PushCommand "pointer" i))
         name function_name number = Ret (Some push) /\
       HackCodeGenerator.GenerateAsm (Some (PopCommand "pointer" i))
         name function_name number = Ret (Some pop) /\
       nth_error push 0 = Some ("@" ++ str_of_int (3 + i)) /\
       nth_error pop 4 = Some ("@" ++ str_of_int (3 + i)) /\
       executes symtab push m m1 /\
       RAM m1 0 = sp + 1 /\ RAM m1 sp = RAM m (3 + i) /\
       executes symtab pop m m2 /\
       RAM m2 0 = sp - 1 /\ RAM m2 (3 + i) = RAM m (sp - 1)) /\
  (forall segment cell j,
     In (segment, cell) [("this", 3); ("that", 4)] -> 0 <= j < 32768 ->
     exists push pop m1 m2,
       HackCodeGenerator.GenerateAsm (Some (PushCommand segment j))
         name function_name number = Ret (Some push) /\
       HackCodeGenerator.GenerateAsm (Some (PopCommand segment j))
         name function_name number = Ret (Some pop) /\
       executes symtab push m m1 /\
       RAM m1 0 = sp + 1 /\ RAM m1 sp = RAM m (wrap (RAM m cell + j)) /\
       executes symtab pop m m2 /\
       RAM m2 (wrap (RAM m cell + j)) = RAM m (sp - 1)) /\
  (forall f n rom base target,
     loaded_at rom base
       (call_frame_code name number n
        ++ HackCodeGenerator._GotoLabel f
        ++ HackCodeGenerator._CreateLabel (return_address name number))%list ->
     resolve symtab f = Some target ->
     PC m = Z.of_nat base -> 0 <= n -> n + 5 < 32768 -> sp + 5 < 65536 ->
     exists m',
       HackCodeGenerator.GenerateAsm (Some (CallCommand f n))
         name function_name number
       = Ret (Some (call_frame_code name number n
                    ++ HackCodeGenerator._GotoLabel f
                    ++ HackCodeGenerator._CreateLabel
                         (return_address name number))%list) /\
       run symtab rom 42 m = Some m' /\
       RAM m' (sp + 3) = RAM m 3 /\ RAM m' (sp + 4) = RAM m 4) /\
  (forall rom base frame arg,
     loaded_at rom base
       (return_frame_code ++ HackCodeGenerator._GotoLocationFromMemory 14)%list ->
     PC m = Z.of_nat base ->
     RAM m 1 = frame -> RAM m 2 = arg ->
     16 <= arg -> arg + 5 <= frame -> frame < 65536 ->
     exists m',
       HackCodeGenerator.GenerateAsm (Some ReturnCommand)
         name function_name number
       = Ret (Some (return_frame_code
                    ++ HackCodeGenerator._GotoLocationFromMemory 14)%list) /\
       run symtab rom 60 m = Some m' /\
       RAM m' 3 = RAM m (frame - 2) /\ RAM m' 4 = RAM m (frame - 1)) /\
  (forall k segment j,
     In (k, segment) [(0, "this"); (1, "that")] -> 0 <= j < 32768 ->
     exists pop push m',
       HackCodeGenerator.GenerateAsm (Some (PopCommand "pointer" k))
         name function_name number = Ret (Some pop) /\
       HackCodeGenerator.GenerateAsm (Some (PushCommand segment j))
         name function_name number = Ret (Some push) /\
       executes symtab (pop ++ push)%list m m' /\
       RAM m' 0 = sp /\
       RAM m' (3 + k) = RAM m (sp - 1) /\
       (4 < RAM m (sp - 1) + j < 65536 ->
        RAM m' (sp - 1) = RAM m (RAM m (sp - 1) + j))).
Proof.
  intros Hsp Hr. split; [|split; [|split; [|split]]].
  - intros i Hi Hi'.
    exists (HackCodeGenerator._ApplyPushDirectTemplate (VInt (3 + i))),
           (HackCodeGenerator._ApplyPopDirectTemplate (VInt (3 + i))).
    eexists. eexists.
    do 4 (split; [reflexivity|]).
    split; [by_exec (exec_ApplyPushDirectTemplate symtab (3 + i) sp)|].
    cbn [RAM]. split; [simp_store; reflexivity|].
    split; [simp_store; reflexivity|].
    split; [by_exec (exec_ApplyPopDirectTemplate symtab (3 + i) sp)|].
    cbn [RAM]. split; simp_store; reflexivity.
  - intros segment cell j Hin Hj.
    assert (Hcell : 0 <= cell < 32768 /\
      HackCodeGenerator.GenerateAsm (Some (PushCommand segment j))
         name function_name number
      = Ret (Some (HackCodeGenerator._ApplyPushIndirectTemplate cell j)) /\
      HackCodeGenerator.GenerateAsm (Some (PopCommand segment j))
         name function_name number
      = Ret (Some (HackCodeGenerator._ApplyPopIndirectTemplate cell j))).
    { destruct Hin as [[= <- <-]|[[= <- <-]|[]]];
        (split; [lia|split; reflexivity]). }
    destruct Hcell as (Hc & -> & ->).
    do 4 eexists. do 2 (split; [reflexivity|]).
    split; [by_exec (exec_ApplyPushIndirectTemplate symtab cell j sp)|].
    cbn [RAM]. split; [simp_store; reflexivity|].
    split; [simp_store; reflexivity|].
    split; [by_exec (exec_ApplyPopIndirectTemplate symtab cell j sp)|].
    cbn [RAM]. simp_store. reflexivity.
  - intros f n rom base target Hrom Hf Hpc Hn Hn' Hhi.
    eexists. split; [apply GenerateAsmCallCommand_eq|].
    split.
    { apply (run_call symtab rom f n name number base sp target m);
        first [assumption|lia]. }
    cbn [RAM].
    destruct (call_ram_reads (RAM m) sp n (symtab (return_address name number)))
      as (_ & _ & _ & _ & _ & _ & H3 & H4 & _); [lia|]. auto.
  - intros rom base frame arg Hrom Hpc Hframe Harg Ha Haf Hf.
    eexists. split; [apply GenerateAsmReturnCommand_eq|].
    split.
    { apply (run_return symtab rom base frame arg sp m);
        first [assumption|lia]. }
    cbn [RAM].
    destruct (return_ram_reads (RAM m) frame arg sp Ha Haf)
      as (_ & _ & _ & _ & H3 & H4 & _). auto.
  - intros k segment j Hin Hj.
    assert (Hk : 0 <= k <= 1 /\
      HackCodeGenerator.GenerateAsm (Some (PushCommand segment j))
         name function_name number
      = Ret (Some (HackCodeGenerator._ApplyPushIndirectTemplate (3 + k) j))).
    { destruct Hin as [[= <- <-]|[[= <- <-]|[]]]; (split; [lia|reflexivity]). }
    destruct Hk as (Hk & ->).
    exists (HackCodeGenerator._ApplyPopDirectTemplate (VInt (3 + k))).
    do 2 eexists. do 2 (split; [reflexivity|]).
    split.
    { apply exec_seq_executes; [reflexivity|].
      rewrite exec_seq_app.
      rewrite (exec_ApplyPopDirectTemplate symtab (3 + k) sp) by (assumption || lia).
      apply (exec_ApplyPushIndirectTemplate symtab (3 + k) j (sp - 1));
        [lia|lia|cbn [RAM]; simp_store; reflexivity|lia]. }
    cbn [RAM]. simp_store.
    split; [lia|]. split; [reflexivity|].
    intros Hv. simp_store. reflexivity.
Qed.

Lemma C10_pointer_cells_witness :
  exists m',
    executes example_symtab
      (HackCodeGenerator._ApplyPopDirectTemplate (VInt 3)
       ++ HackCodeGenerator._ApplyPushIndirectTemplate 3 234)%list
      example_machine m' /\
    RAM m' 0 = 258 /\ RAM m' 3 = 22 /\ RAM m' 257 = 11.
Proof.
  destruct (C10_pointer_cells "Foo" "Foo.f" 1 example_symtab example_machine 258)
    as (_ & _ & _ & _ & H); [reflexivity|lia|].
  destruct (H 0 "this" 234) as (pop & push & m' & Hpop & Hpush & Hex & H0 & H3 & Hv).
  - simpl. auto.
  - lia.
  - injection Hpop as <-. injection Hpush as <-.
    exists m'. repeat split; try assumption.
    apply Hv. vm_compute. split; reflexivity.
Defined.

(* ================================================================== *)
(** * The unit tests of the module *)
(* ================================================================== *)

Example testParseCommand :
  ParseCommand "add" = Ret (Some AddCommand) /\
  ParseCommand "push constant 13" = Ret (Some (PushCommand "constant" 13)) /\
  ParseCommand "pop local 42" = Ret (Some (PopCommand "local" 42)) /\
  ParseCommand "   pop  foo 2  //I like pie!"
    = Ret (Some (ErrorCommand "pop  foo 2")).
Proof. repeat split; reflexivity. Qed.

Example testParseProgram :
  ParseProgram ["foo"] "foo" = Raise (VMError "Error: foo.1: foo").
Proof. reflexivity. Qed.

Example testGenerateAsmBinary :
  emits AddCommand "foo" "bar" 1 "M=D+M" = true /\
  emits SubCommand "foo" "bar" 2 "M=M-D" = true /\
  emits AndCommand "foo" "bar" 3 "M=D&M" = true /\
  emits OrCommand "foo" "bar" 4 "M=D|M" = true.
Proof. repeat split; reflexivity. Qed.

Example testGenerateAsmUnary :
  emits NegCommand "foo" "bar" 1 "M=-M" = true /\
  emits NotCommand "foo" "bar" 2 "M=!M" = true.
Proof. repeat split; reflexivity. Qed.

Example testGenerateAsmComparison :
  emits EqCommand "foo" "bar" 1 "@foo$1$branch" = true /\
  emits EqCommand "foo" "bar" 1 "@foo$1$end" = true /\
  emits EqCommand "foo" "bar" 1 "(foo$1$branch)" = true /\
  emits EqCommand "foo" "bar" 1 "(foo$1$end)" = true /\
  emits EqCommand "foo" "bar" 1 "D;JEQ" = true /\
  emits GtCommand "foo" "bar" 2 "D;JLT" = true /\
  emits LtCommand "foo" "bar" 3 "D;JGT" = true.
Proof. repeat split; reflexivity. Qed.

Example testGenerateAsmPush :
  emits (PushCommand "constant" 42) "foo" "bar" 1 "@42" = true /\
  emits (PushCommand "temp" 2) "foo" "bar" 2 "@7" = true /\
  emits (PushCommand "local" 42) "foo" "bar" 3 "@1" = true /\
  emits (PushCommand "local" 42) "foo" "bar" 3 "@42" = true /\
  emits (PushCommand "static" 42) "foo" "bar" 4 "@foo.42" = true.
Proof. repeat split; reflexivity. Qed.

Example testGenerateAsmPop :
  emits (PopCommand "pointer" 42) "foo" "bar" 1 "@45" = true /\
  emits (PopCommand "argument" 42) "foo" "bar" 2 "@2" = true /\
  emits (PopCommand "argument" 42) "foo" "bar" 2 "@42" = true /\
  emits (PopCommand "static" 42) "foo" "bar" 3 "@foo.42" = true.
Proof. repeat split; reflexivity. Qed.

(* ================================================================== *)
(** * Further properties of the parser *)
(* ================================================================== *)

Lemma int_nonneg t n : int t = Ret n -> 0 <= n.
Proof.
  unfold int. destruct (isdigit t); [|discriminate].
  destruct (NilEmpty.uint_of_string t) as [d|]; [|discriminate].
  intros [= <-]. unfold Z.of_uint. apply N2Z.is_nonneg.
Qed.

Lemma int_Ret_isdigit t n : int t = Ret n -> isdigit t = true.
Proof. unfold int. destruct (isdigit t); [reflexivity|discriminate]. Qed.

Ltac pick_simple k :=
  left; exists k; split;
  [cbn [simple_commands In]; repeat ((left; reflexivity) || right)|reflexivity].

Ltac simple_inv l :=
  repeat match goal with
  | |- context [String.eqb l ?k] =>
      destruct (String.eqb_spec l k) as [->|_]; cbn [bind];
      [intros [= <-]; pick_simple k|]
  end.

(** Every way in which a grammar produces a command. *)
Lemma grammar_inv l c :
  first_result grammar_parsers l = Ret (Some c) ->
  (exists kw, In (kw, c) simple_commands /\ l = kw) \/
  (exists segment t n,
     c = PushCommand segment n /\ split l = ["push"; segment; t] /\
     in_list segment _SEGMENT_NAMES = true /\ int t = Ret n) \/
  (exists segment t n,
     c = PopCommand segment n /\ split l = ["pop"; segment; t] /\
     in_list segment _SEGMENT_NAMES = true /\ segment <> "constant" /\
     int t = Ret n) \/
  (exists kw K tok,
     In (kw, K) label_commands /\ c = K tok /\ split l = [kw; tok] /\
     re_match _RE_LABEL tok = true) \/
  (exists kw K f t n,
     In (kw, K) function_commands /\ c = K f n /\ split l = [kw; f; t] /\
     re_match _RE_LABEL f = true /\ re_match _RE_NUMBER t = true /\
     int t = Ret n).
Proof.
  unfold grammar_parsers, _COMMAND_PARSE_ORDER.
  cbn [removelast first_result]. parse_unfold.
  repeat match goal with
  | |- context [String.eqb l ?k] =>
      match k with
      | "return" => fail 1
      | "" => fail 1
      | _ => destruct (String.eqb_spec l k) as [->|_]; cbn [bind];
             [intros [= <-]; pick_simple k|]
      end
  end.
  destruct (split l) as [|p0 [|p1 [|p2 [|p3 ps]]]] eqn:Hs; cbn [bind].
  1, 2, 5: simple_inv l; discriminate.
  - (* two tokens *)
    destruct (String.eqb p0 "label" && _) eqn:E1; cbn [bind].
    { apply andb_true_iff in E1 as [E1 Hm]. apply String.eqb_eq in E1. subst p0.
      intros [= <-]. do 3 right. left. exists "label", LabelCommand, p1.
      cbn [label_commands In]. auto 6. }
    destruct (String.eqb p0 "goto" && _) eqn:E2; cbn [bind].
    { apply andb_true_iff in E2 as [E2 Hm]. apply String.eqb_eq in E2. subst p0.
      intros [= <-]. do 3 right. left. exists "goto", GotoCommand, p1.
      cbn [label_commands In]. auto 6. }
    destruct (String.eqb p0 "if-goto" && _) eqn:E3; cbn [bind].
    { apply andb_true_iff in E3 as [E3 Hm]. apply String.eqb_eq in E3. subst p0.
      intros [= <-]. do 3 right. left. exists "if-goto", IfGotoCommand, p1.
      cbn [label_commands In]. auto 6. }
    simple_inv l; discriminate.
  - (* three tokens *)
    destruct (String.eqb p0 "push" && _ && _) eqn:E1; cbn [bind].
    { apply andb_true_iff in E1 as [E1 Hd]. apply andb_true_iff in E1 as [E1 Hseg].
      apply String.eqb_eq in E1. subst p0.
      destruct (int p2) as [n|e] eqn:Hn; cbn [bind]; [|discriminate].
      intros [= <-]. right. left. exists p1, p2, n. auto. }
    destruct (String.eqb p0 "pop" && _ && _ && _) eqn:E2; cbn [bind].
    { apply andb_true_iff in E2 as [E2 Hd]. apply andb_true_iff in E2 as [E2 Hc].
      apply andb_true_iff in E2 as [E2 Hseg].
      apply String.eqb_eq in E2. subst p0.
      apply negb_true_iff, String.eqb_neq in Hc.
      destruct (int p2) as [n|e] eqn:Hn; cbn [bind]; [|discriminate].
      intros [= <-]. right. right. left. exists p1, p2, n. auto 6. }
    destruct (String.eqb p0 "function" && _ && _) eqn:E3; cbn [bind].
    { apply andb_true_iff in E3 as [E3 Hnum]. apply andb_true_iff in E3 as [E3 Hlab].
      apply String.eqb_eq in E3. subst p0.
      destruct (int p2) as [n|e] eqn:Hn; cbn [bind]; [|discriminate].
      intros [= <-]. do 4 right. exists "function", FunctionCommand, p1, p2, n.
      cbn [function_commands In]. auto 8. }
    destruct (String.eqb p0 "call" && _ && _) eqn:E4; cbn [bind].
    { apply andb_true_iff in E4 as [E4 Hnum]. apply andb_true_iff in E4 as [E4 Hlab].
      apply String.eqb_eq in E4. subst p0.
      destruct (int p2) as [n|e] eqn:Hn; cbn [bind]; [|discriminate].
      intros [= <-]. do 4 right. exists "call", CallCommand, p1, p2, n.
      cbn [function_commands In]. auto 8. }
    simple_inv l; discriminate.
Qed.

Lemma simple_commands_keyword kw kw' c :
  In (kw, c) simple_commands -> In (kw', c) simple_commands -> kw = kw'.
Proof.
  cbn [simple_commands In]. intros H H'.
  repeat (destruct H as [H|H]); try contradiction; injection H as <- <-;
    repeat (destruct H' as [H'|H']); try contradiction;
    try discriminate H'; injection H' as <-; reflexivity.
Qed.

Lemma simple_commands_parse kw c :
  In (kw, c) simple_commands ->
  first_result grammar_parsers kw = Ret (Some c).
Proof.
  cbn [simple_commands In]. intros H.
  repeat (destruct H as [[= <- <-]|H]; [reflexivity|]). destruct H.
Qed.

(** X1: The zero-operand commands, [return] and the blank line are recognised
    by the whole trimmed text, and by nothing else: [ParseCommand] returns
    such a command exactly when the line, without its comment and the
    surrounding whitespace, is the keyword. *)
Theorem ParseCommand_simple_iff line kw c :
  In (kw, c) simple_commands ->
  (ParseCommand line = Ret (Some c) <-> _TrimProgramLine line = kw).
Proof.
  intros Hin. rewrite ParseCommand_eq. split.
  - destruct (first_result grammar_parsers (_TrimProgramLine line))
      as [[c'|]|e] eqn:H.
    + intros [= ->]. apply grammar_inv in H.
      destruct H as [(kw' & Hin' & ->)|H].
      { symmetry. exact (simple_commands_keyword _ _ _ Hin Hin'). }
      exfalso. cbn [simple_commands label_commands function_commands In] in *.
      destruct H as [(s & t & n & -> & _)|[(s & t & n & -> & _)|
                     [(k & K & tok & HK & -> & _)|(k & K & f & t & n & HK & -> & _)]]].
      * repeat (destruct Hin as [[=]|Hin]). destruct Hin.
      * repeat (destruct Hin as [[=]|Hin]). destruct Hin.
      * destruct HK as [[= <- <-]|[[= <- <-]|[[= <- <-]|[]]]];
          repeat (destruct Hin as [[=]|Hin]); destruct Hin.
      * destruct HK as [[= <- <-]|[[= <- <-]|[]]];
          repeat (destruct Hin as [[=]|Hin]); destruct Hin.
    + intros [= <-]. exfalso. cbn [simple_commands In] in Hin.
      repeat (destruct Hin as [[=]|Hin]). destruct Hin.
    + discriminate.
  - intros ->. now rewrite (simple_commands_parse _ _ Hin).
Qed.

Lemma ParseCommand_simple_iff_witness :
  ParseCommand "   add  // sum" = Ret (Some AddCommand).
Proof.
  apply (ParseCommand_simple_iff "   add  // sum" "add" AddCommand).
  - simpl. auto.
  - reflexivity.
Defined.

(** What the grammars do with a three-token line that starts with [push]
    or [pop]. *)
Lemma push_line l segment t :
  split l = ["push"; segment; t] ->
  first_result grammar_parsers l =
  if in_list segment _SEGMENT_NAMES && isdigit t
  then n <- int t ;; Ret (Some (PushCommand segment n))
  else Ret None.
Proof.
  intros Hs.
  unfold grammar_parsers, _COMMAND_PARSE_ORDER.
  cbn [removelast first_result]. parse_unfold. rewrite Hs.
  not_keyword l Hs.
  simpl (String.eqb _ _); cbn [andb bind].
  destruct (in_list segment _SEGMENT_NAMES); cbn [andb bind]; [|reflexivity].
  destruct (isdigit t); cbn [bind]; [|reflexivity].
  destruct (int t) as [n|e]; reflexivity.
Qed.

Lemma pop_line l segment t :
  split l = ["pop"; segment; t] ->
  first_result grammar_parsers l =
  if in_list segment _SEGMENT_NAMES && negb (String.eqb segment "constant")
     && isdigit t
  then n <- int t ;; Ret (Some (PopCommand segment n))
  else Ret None.
Proof.
  intros Hs.
  unfold grammar_parsers, _COMMAND_PARSE_ORDER.
  cbn [removelast first_result]. parse_unfold. rewrite Hs.
  not_keyword l Hs.
  simpl (String.eqb "pop" _); cbn [andb bind].
  destruct (in_list segment _SEGMENT_NAMES); cbn [andb bind]; [|reflexivity].
  destruct (negb (String.eqb segment "constant")); cbn [andb bind]; [|reflexivity].
  destruct (isdigit t); cbn [bind]; [|reflexivity].
  destruct (int t) as [n|e]; reflexivity.
Qed.

(** X2: [ParseCommand] returns [PushCommand segment n] exactly for the lines
    of three tokens [push segment t] where [segment] is one of the eight
    segment names and [t] is a string of digits whose value is [n]; in
    particular the index is never negative. *)
Theorem ParseCommand_push_iff line segment n :
  ParseCommand line = Ret (Some (PushCommand segment n)) <->
  0 <= n /\
  exists t,
    split (_TrimProgramLine line) = ["push"; segment; t] /\
    In segment _SEGMENT_NAMES /\ isdigit t = true /\ int t = Ret n.
Proof.
  rewrite ParseCommand_eq. split.
  - destruct (first_result grammar_parsers (_TrimProgramLine line))
      as [[c'|]|e] eqn:H; try discriminate.
    intros [= ->]. apply grammar_inv in H.
    cbn [simple_commands label_commands function_commands In] in H.
    destruct H as [(kw' & Hin' & _)|[(s & t & k & [= <- <-] & Hs & Hseg & Hn)|
                   [(s & t & k & [=] & _)|
                   [(k & K & tok & HK & HcK & _)|(k & K & f & t & k' & HK & HcK & _)]]]].
    + exfalso. repeat (destruct Hin' as [[=]|Hin']). destruct Hin'.
    + split; [exact (int_nonneg _ _ Hn)|]. exists t.
      repeat split; try assumption.
      * now apply in_list_cases.
      * exact (int_Ret_isdigit _ _ Hn).
    + exfalso. destruct HK as [[= <- <-]|[[= <- <-]|[[= <- <-]|[]]]]; discriminate HcK.
    + exfalso. destruct HK as [[= <- <-]|[[= <- <-]|[]]]; discriminate HcK.
  - intros (_ & t & Hs & Hseg & Hd & Hn).
    rewrite (push_line _ _ _ Hs), Hd, Hn.
    assert (E : in_list segment _SEGMENT_NAMES = true).
    { unfold in_list. apply existsb_exists. exists segment.
      split; [assumption|apply String.eqb_refl]. }
    rewrite E. reflexivity.
Qed.

Lemma ParseCommand_push_iff_witness :
  ParseCommand "push local 2  // x" = Ret (Some (PushCommand "local" 2)).
Proof.
  apply (ParseCommand_push_iff "push local 2  // x" "local" 2).
  split; [lia|]. exists "2". repeat split; try reflexivity.
  simpl. auto.
Defined.

(** X3: [ParseCommand] returns [PopCommand segment n] exactly for the lines of
    three tokens [pop segment t] where [segment] is a segment name other
    than [constant] and [t] is a string of digits whose value is [n]: no
    [PopCommand] on the [constant] segment ever leaves the parser. *)
Theorem ParseCommand_pop_iff line segment n :
  ParseCommand line = Ret (Some (PopCommand segment n)) <->
  0 <= n /\ segment <> "constant" /\
  exists t,
    split (_TrimProgramLine line) = ["pop"; segment; t] /\
    In segment _SEGMENT_NAMES /\ isdigit t = true /\ int t = Ret n.
Proof.
  rewrite ParseCommand_eq. split.
  - destruct (first_result grammar_parsers (_TrimProgramLine line))
      as [[c'|]|e] eqn:H; try discriminate.
    intros [= ->]. apply grammar_inv in H.
    cbn [simple_commands label_commands function_commands In] in H.
    destruct H as [(kw' & Hin' & _)|[(s & t & k & [=] & _)|
                   [(s & t & k & [= <- <-] & Hs & Hseg & Hc & Hn)|
                   [(k & K & tok & HK & HcK & _)|(k & K & f & t & k' & HK & HcK & _)]]]].
    + exfalso. repeat (destruct Hin' as [[=]|Hin']). destruct Hin'.
    + split; [exact (int_nonneg _ _ Hn)|]. split; [assumption|]. exists t.
      repeat split; try assumption.
      * now apply in_list_cases.
      * exact (int_Ret_isdigit _ _ Hn).
    + exfalso. destruct HK as [[= <- <-]|[[= <- <-]|[[= <- <-]|[]]]]; discriminate HcK.
    + exfalso. destruct HK as [[= <- <-]|[[= <- <-]|[]]]; discriminate HcK.
  - intros (_ & Hc & t & Hs & Hseg & Hd & Hn).
    rewrite (pop_line _ _ _ Hs), Hd, Hn.
    assert (E : in_list segment _SEGMENT_NAMES = true).
    { unfold in_list. apply existsb_exists. exists segment.
      split; [assumption|apply String.eqb_refl]. }
    apply String.eqb_neq in Hc. rewrite E, Hc. reflexivity.
Qed.

Lemma ParseCommand_pop_iff_witness :
  ParseCommand "pop that 007" = Ret (Some (PopCommand "that" 7)).
Proof.
  apply (ParseCommand_pop_iff "pop that 007" "that" 7).
  split; [lia|]. split; [discriminate|]. exists "007".
  repeat split; try reflexivity. simpl. auto 10.
Defined.

(** X4: A [pop] on the [constant] segment is a malformed line, whatever the
    index. *)
Theorem ParseCommand_pop_constant line t :
  split (_TrimProgramLine line) = ["pop"; "constant"; t] ->
  ParseCommand line = Ret (Some (ErrorCommand (_TrimProgramLine line))).
Proof.
  intros Hs. rewrite ParseCommand_eq, (pop_line _ _ _ Hs). reflexivity.
Qed.

Lemma ParseCommand_pop_constant_witness :
  ParseCommand "pop constant 5 // no" = Ret (Some (ErrorCommand "pop constant 5")).
Proof.
  apply (ParseCommand_pop_constant "pop constant 5 // no" "5"). reflexivity.
Defined.

(** X5: [ParseCommand] returns [FunctionCommand f n] or [CallCommand f n]
    exactly for the three-token lines [function f t] and [call f t] where
    [f] begins like a label and [t] is a string of digits whose value is
    [n]; the count is never negative. *)
Theorem ParseCommand_function_iff line kw K f n :
  In (kw, K) function_commands ->
  (ParseCommand line = Ret (Some (K f n)) <->
   0 <= n /\
   exists t,
     split (_TrimProgramLine line) = [kw; f; t] /\
     re_match _RE_LABEL f = true /\ isdigit t = true /\ int t = Ret n).
Proof.
  intros HK. rewrite ParseCommand_eq. split.
  - destruct (first_result grammar_parsers (_TrimProgramLine line))
      as [[c'|]|e] eqn:H.
    + intros [= ->]. apply grammar_inv in H.
      cbn [simple_commands label_commands function_commands In] in H, HK.
      destruct H as [(kw' & Hin' & _)|[(s & t & k & Hc & _)|
                     [(s & t & k & Hc & _)|
                     [(k & K' & tok & HK' & HcK & _)|
                      (k & K' & f' & t & k' & HK' & HcK & Hs & Hf & Ht & Hn)]]]].
      * exfalso. destruct HK as [[= <- <-]|[[= <- <-]|[]]];
          repeat (destruct Hin' as [[=]|Hin']); destruct Hin'.
      * exfalso. destruct HK as [[= <- <-]|[[= <- <-]|[]]]; discriminate Hc.
      * exfalso. destruct HK as [[= <- <-]|[[= <- <-]|[]]]; discriminate Hc.
      * exfalso. destruct HK as [[= <- <-]|[[= <- <-]|[]]];
          destruct HK' as [[= <- <-]|[[= <- <-]|[[= <- <-]|[]]]]; discriminate HcK.
      * assert (E : kw = k /\ f = f' /\ n = k').
        { destruct HK as [[= <- <-]|[[= <- <-]|[]]];
            destruct HK' as [[= <- <-]|[[= <- <-]|[]]];
            try discriminate HcK; injection HcK as <- <-; auto. }
        destruct E as (<- & <- & <-).
        split; [exact (int_nonneg _ _ Hn)|]. exists t.
        repeat split; try assumption. exact (int_Ret_isdigit _ _ Hn).
    + intros [= E]. exfalso. cbn [function_commands In] in HK.
      destruct HK as [[= <- <-]|[[= <- <-]|[]]]; discriminate E.
    + discriminate.
  - intros (_ & t & Hs & Hf & Hd & Hn).
    rewrite (function_line _ _ _ _ _ HK Hs), Hf, Hn.
    assert (E : re_match _RE_NUMBER t = true).
    { rewrite re_match_NUMBER. destruct t as [|c t]; [discriminate Hd|].
      unfold isdigit in Hd. cbn [all_chars] in Hd.
      now apply andb_true_iff in Hd as [Hd _]. }
    rewrite E. reflexivity.
Qed.

Lemma ParseCommand_function_iff_witness :
  ParseCommand "function Main.f 03" = Ret (Some (FunctionCommand "Main.f" 3)).
Proof.
  apply (ParseCommand_function_iff "function Main.f 03" "function"
           FunctionCommand "Main.f" 3).
  - simpl. auto.
  - split; [lia|]. exists "03". repeat split; reflexivity.
Defined.

(* ================================================================== *)
(** * Further properties of the assembler and the linker *)
(* ================================================================== *)

Lemma parent_functions_from_length current commands :
  List.length (parent_functions_from current commands) = List.length commands.
Proof.
  revert current. induction commands as [|c commands IH]; intros current;
    cbn [parent_functions_from List.length]; [reflexivity|].
  now rewrite IH.
Qed.

Lemma parent_functions_from_no_function current commands :
  Forall (fun c => is_FunctionCommand c = false) commands ->
  parent_functions_from current commands
  = List.repeat current (List.length commands).
Proof.
  induction 1 as [|c commands Hc _ IH];
    cbn [parent_functions_from List.length List.repeat]; [reflexivity|].
  destruct c as [[]|]; try discriminate Hc; now rewrite IH.
Qed.

Lemma last_default {X : Type} (l : list X) (x d d' : X) :
  List.last (x :: l) d = List.last (x :: l) d'.
Proof.
  revert x. induction l as [|y l IH]; intros x; [reflexivity|].
  change (List.last (x :: y :: l) d) with (List.last (y :: l) d).
  change (List.last (x :: y :: l) d') with (List.last (y :: l) d').
  apply IH.
Qed.

Lemma parent_functions_from_app current pre post :
  parent_functions_from current (pre ++ post)%list
  = (parent_functions_from current pre
     ++ parent_functions_from (List.last (parent_functions_from current pre) current)
          post)%list.
Proof.
  revert current. induction pre as [|c pre IH]; intros current;
    cbn [List.app parent_functions_from]; [reflexivity|].
  rewrite IH. f_equal. f_equal.
  set (cur := match c with
              | Some (FunctionCommand f _) => f
              | _ => current
              end).
  destruct (parent_functions_from cur pre) eqn:E; [reflexivity|].
  f_equal. exact (last_default l s cur current).
Qed.

(** X6: The enclosing function of a command is the name of the nearest
    [function] command at or before it, and [DEFAULT_FUNCTION] before the
    first one: a [function] command and the commands after it, up to the
    next [function] command, all get its name, whatever precedes them. *)
Theorem IdentifyParentFunctions_spec :
  (forall commands,
     List.length (IdentifyParentFunctions commands) = List.length commands) /\
  (forall commands,
     Forall (fun c => is_FunctionCommand c = false) commands ->
     IdentifyParentFunctions commands
     = List.repeat "DEFAULT_FUNCTION" (List.length commands)) /\
  (forall pre f k body,
     Forall (fun c => is_FunctionCommand c = false) body ->
     IdentifyParentFunctions (pre ++ Some (FunctionCommand f k) :: body)%list
     = (IdentifyParentFunctions pre
        ++ List.repeat f (S (List.length body)))%list).
Proof.
  unfold IdentifyParentFunctions. split; [|split].
  - intros commands. apply parent_functions_from_length.
  - intros commands H. now apply parent_functions_from_no_function.
  - intros pre f k body H.
    rewrite parent_functions_from_app. f_equal.
    cbn [parent_functions_from List.repeat]. f_equal.
    now apply parent_functions_from_no_function.
Qed.

Lemma IdentifyParentFunctions_spec_witness :
  IdentifyParentFunctions
    [Some AddCommand; Some (FunctionCommand "f" 0); Some NegCommand;
     Some ReturnCommand]
  = ["DEFAULT_FUNCTION"; "f"; "f"; "f"].
Proof.
  destruct IdentifyParentFunctions_spec as (_ & _ & H).
  apply (H [Some AddCommand] "f" 0 [Some NegCommand; Some ReturnCommand]).
  repeat constructor.
Defined.

Lemma zip4_nth {A B C D : Type} (a : list A) (b : list B) (c : list C)
  (d : list D) :
  forall i x y z w,
    nth_error a i = Some x -> nth_error b i = Some y ->
    nth_error c i = Some z -> nth_error d i = Some w ->
    nth_error (zip4 a b c d) i = Some (x, y, z, w).
Proof.
  revert b c d. induction a as [|x0 a IH]; intros b c d i x y z w Ha Hb Hc Hd.
  - destruct i; discriminate Ha.
  - destruct b as [|y0 b]; [destruct i; discriminate Hb|].
    destruct c as [|z0 c]; [destruct i; discriminate Hc|].
    destruct d as [|w0 d]; [destruct i; discriminate Hd|].
    destruct i as [|i]; cbn [zip4 nth_error] in *.
    + congruence.
    + now apply IH.
Qed.

Lemma zip4_length {A B C D : Type} (a : list A) (b : list B) (c : list C)
  (d : list D) :
  List.length b = List.length a -> List.length c = List.length a ->
  List.length d = List.length a ->
  List.length (zip4 a b c d) = List.length a.
Proof.
  revert b c d. induction a as [|x0 a IH]; intros b c d Hb Hc Hd.
  - reflexivity.
  - destruct b as [|y0 b]; [discriminate Hb|].
    destruct c as [|z0 c]; [discriminate Hc|].
    destruct d as [|w0 d]; [discriminate Hd|].
    cbn [zip4 List.length] in *. f_equal. apply IH; congruence.
Qed.

Lemma range_length n : List.length (range n) = n.
Proof. unfold range. now rewrite length_map, length_seq. Qed.

Lemma range_nth n i : (i < n)%nat -> nth_error (range n) i = Some (Z.of_nat i).
Proof.
  intros H. unfold range. rewrite nth_error_map.
  rewrite nth_error_seq. destruct (Nat.ltb_spec i n); [reflexivity|lia].
Qed.

(** X7: [DecorateCommands] keeps every command, in order, and attaches to the
    command at 0-based position [i] the program name, its enclosing
    function and [i] itself; blank and malformed lines count. *)
Theorem DecorateCommands_nth commands program_name :
  List.length (DecorateCommands commands program_name) = List.length commands /\
  forall i c,
    nth_error commands i = Some c ->
    exists parent,
      nth_error (IdentifyParentFunctions commands) i = Some parent /\
      nth_error (DecorateCommands commands program_name) i
      = Some (c, program_name, parent, Z.of_nat i).
Proof.
  unfold DecorateCommands. split.
  - apply zip4_length.
    + apply repeat_length.
    + unfold IdentifyParentFunctions. apply parent_functions_from_length.
    + apply range_length.
  - intros i c Hc.
    assert (Hi : (i < List.length commands)%nat).
    { apply nth_error_Some. congruence. }
    destruct (nth_error (IdentifyParentFunctions commands) i) as [parent|] eqn:Hp.
    + exists parent. split; [reflexivity|].
      apply zip4_nth; try assumption.
      * now apply nth_error_repeat.
      * now apply range_nth.
    + exfalso. apply nth_error_None in Hp.
      unfold IdentifyParentFunctions in Hp.
      rewrite parent_functions_from_length in Hp. lia.
Qed.

Lemma DecorateCommands_nth_witness :
  exists parent,
    nth_error (IdentifyParentFunctions
                 [Some EmptyCommand; Some (FunctionCommand "f" 1); Some EqCommand])
              2 = Some parent /\
    nth_error (DecorateCommands
                 [Some EmptyCommand; Some (FunctionCommand "f" 1); Some EqCommand]
                 "Foo") 2
    = Some (Some EqCommand, "Foo", parent, 2).
Proof.
  destruct (DecorateCommands_nth
              [Some EmptyCommand; Some (FunctionCommand "f" 1); Some EqCommand]
              "Foo") as [_ H].
  apply (H 2%nat (Some EqCommand)). reflexivity.
Defined.

Lemma ParseProgram_Ret program_lines program_name commands :
  ParseProgram program_lines program_name = Ret commands <->
  Forall2 (fun line c => ParseCommand line = Ret c) program_lines commands /\
  malformed_lines commands = [].
Proof.
  split.
  - intros H. unfold ParseProgram in H.
    destruct (map_result ParseCommand program_lines) as [cs|e] eqn:Hm;
      [|discriminate H].
    cbn [bind] in H. rewrite collect_errors_malformed_lines in H.
    destruct (malformed_lines cs) as [|b bad] eqn:Hbad; [|discriminate H].
    injection H as <-. split; [now apply map_result_Ret|assumption].
  - intros [H Hbad]. apply map_result_Ret in H.
    now rewrite (ParseProgram_eq _ program_name _ H), Hbad.
Qed.

Lemma FlattenAsm_Ret asm_chunks asm :
  FlattenAsm asm_chunks = Ret asm <->
  exists chunks, asm_chunks = List.map Some chunks /\ asm = List.concat chunks.
Proof.
  split.
  - revert asm. induction asm_chunks as [|[ch|] rest IH]; intros asm;
      cbn [FlattenAsm].
    + intros [= <-]. now exists [].
    + destruct (FlattenAsm rest) as [tail|e]; cbn [bind]; [|discriminate].
      intros [= <-]. destruct (IH tail eq_refl) as (chunks & -> & ->).
      now exists (ch :: chunks).
    + discriminate.
  - intros (chunks & -> & ->). apply FlattenAsm_Some.
Qed.

Lemma GenerateAsm_Ret ds chunks :
  GenerateAsm ds = Ret (List.map Some chunks) <->
  Forall2 (fun d chunk =>
             HackCodeGenerator.GenerateAsm
               (fst (fst (fst d))) (snd (fst (fst d))) (snd (fst d)) (snd d)
             = Ret (Some chunk)) ds chunks.
Proof.
  unfold GenerateAsm. rewrite map_result_Ret. split.
  - revert chunks. induction ds as [|[[[c n] f] i] ds IH]; intros chunks H.
    + destruct chunks; [constructor|inversion H].
    + destruct chunks as [|ch chunks]; [inversion H|].
      inversion H; subst. constructor; [assumption|]. now apply IH.
  - induction 1 as [|[[[c n] f] i] ch ds chunks Hd _ IH]; cbn [List.map].
    + constructor.
    + constructor; assumption.
Qed.

Lemma AssembleProgram_Ret_intro program_lines program_name commands chunks :
  Forall2 (fun line c => ParseCommand line = Ret c) program_lines commands ->
  malformed_lines commands = [] ->
  Forall2 (fun d chunk =>
             HackCodeGenerator.GenerateAsm
               (fst (fst (fst d))) (snd (fst (fst d))) (snd (fst d)) (snd d)
             = Ret (Some chunk))
          (DecorateCommands commands program_name) chunks ->
  AssembleProgram program_lines program_name = Ret (List.concat chunks).
Proof.
  intros Hp Hbad Hg. unfold AssembleProgram.
  assert (Hp' : ParseProgram program_lines program_name = Ret commands)
    by now apply ParseProgram_Ret.
  rewrite Hp'. cbn [bind]. apply GenerateAsm_Ret in Hg. rewrite Hg. cbn [bind].
  apply FlattenAsm_Some.
Qed.

(** X8: Assembly succeeds exactly when every line parses to a command that is
    not malformed and has a generator; the output is then the code of the
    lines, each generated with the program name, the enclosing function
    and the position [DecorateCommands] gave it, concatenated in line
    order: nothing is reordered, merged or dropped. *)
Theorem AssembleProgram_Ret program_lines program_name asm :
  AssembleProgram program_lines program_name = Ret asm <->
  exists commands chunks,
    Forall2 (fun line c => ParseCommand line = Ret c) program_lines commands /\
    malformed_lines commands = [] /\
    Forall2 (fun d chunk =>
               HackCodeGenerator.GenerateAsm
                 (fst (fst (fst d))) (snd (fst (fst d))) (snd (fst d)) (snd d)
               = Ret (Some chunk))
            (DecorateCommands commands program_name) chunks /\
    asm = List.concat chunks.
Proof.
  split.
  - unfold AssembleProgram.
    destruct (ParseProgram program_lines program_name) as [commands|e] eqn:Hp;
      cbn [bind]; [|discriminate].
    destruct (GenerateAsm (DecorateCommands commands program_name))
      as [asm_chunks|e] eqn:Hg; cbn [bind]; [|discriminate].
    intros Hf. apply FlattenAsm_Ret in Hf as (chunks & -> & ->).
    apply ParseProgram_Ret in Hp as [Hp Hbad].
    exists commands, chunks. repeat split; try assumption.
    now apply GenerateAsm_Ret.
  - intros (commands & chunks & Hp & Hbad & Hg & ->).
    exact (AssembleProgram_Ret_intro _ _ _ _ Hp Hbad Hg).
Qed.

Lemma zip4_In_fst {A B C D : Type} (a : list A) (b : list B) (c : list C)
  (d : list D) x :
  In x (zip4 a b c d) -> In (fst (fst (fst x))) a.
Proof.
  revert b c d. induction a as [|x0 a IH]; intros b c d; cbn [zip4].
  - intros [].
  - destruct b as [|y0 b]; [intros []|].
    destruct c as [|z0 c]; [intros []|].
    destruct d as [|w0 d]; [intros []|].
    cbn [In]. intros [<-|H]; [now left|right; now apply (IH b c d)].
Qed.

(** X9: A program made of blank lines only (empty, whitespace, comments)
    assembles, to no code at all. *)
Theorem AssembleProgram_blank program_lines program_name :
  Forall (fun line => _TrimProgramLine line = "") program_lines ->
  AssembleProgram program_lines program_name = Ret [].
Proof.
  intros Hblank.
  set (commands := List.map (fun _ : string => Some EmptyCommand) program_lines).
  set (chunks := List.map (fun _ => @nil string)
                   (DecorateCommands commands program_name)).
  assert (E : List.concat chunks = []).
  { unfold chunks. generalize (DecorateCommands commands program_name).
    intros ds. induction ds as [|d ds IH]; cbn [List.map List.concat];
      [reflexivity|exact IH]. }
  rewrite <- E.
  apply (AssembleProgram_Ret_intro program_lines program_name commands chunks).
  - unfold commands. clear commands chunks E.
    induction Hblank as [|line lines Hl _ IH]; cbn [List.map]; constructor.
    + rewrite ParseCommand_eq, Hl. reflexivity.
    + exact IH.
  - apply malformed_lines_nil. clear. induction program_lines; cbn [List.map];
      constructor; [discriminate|assumption].
  - unfold chunks. clear chunks E.
    assert (Hall : Forall (fun d => fst (fst (fst d)) = Some EmptyCommand)
                          (DecorateCommands commands program_name)).
    { apply Forall_forall. intros d Hd. unfold DecorateCommands in Hd.
      apply zip4_In_fst in Hd. unfold commands in Hd.
      apply in_map_iff in Hd as (line & <- & _). reflexivity. }
    induction Hall as [|d ds Hd _ IH]; cbn [List.map]; constructor.
    + now rewrite Hd.
    + exact IH.
Qed.

Lemma AssembleProgram_blank_witness :
  AssembleProgram [""; "   "; "// a comment"; "  // another  "] "Foo" = Ret [].
Proof.
  apply AssembleProgram_blank. repeat constructor.
Defined.

(** X10: Linking composes: linking two collections one after the other is
    linking the first, then the second, and appending the outputs; a
    failure in the first collection hides the second. *)
Theorem LinkPrograms_app programs1 programs2 :
  LinkPrograms (programs1 ++ programs2)%list =
  (asm1 <- LinkPrograms programs1 ;;
   asm2 <- LinkPrograms programs2 ;;
   Ret (asm1 ++ asm2)%list).
Proof.
  unfold LinkPrograms.
  induction programs1 as [|p ps IH]; cbn [List.app map_result bind].
  - destruct (map_result _ programs2); reflexivity.
  - destruct (AssembleProgram (snd p) (fst p)) as [asm|e]; cbn [bind];
      [|reflexivity].
    destruct (map_result _ ps) as [outs1|e1]; cbn [bind] in *.
    + destruct (map_result _ (ps ++ programs2)%list) as [outs|e];
        destruct (map_result _ programs2) as [outs2|e2]; cbn [bind] in *;
        try discriminate IH; try (injection IH as IH);
        [|congruence].
      cbn [List.concat]. rewrite IH. now rewrite app_assoc.
    + destruct (map_result _ (ps ++ programs2)%list) as [outs|e];
        cbn [bind] in *; [discriminate IH|exact IH].
Qed.

(* ================================================================== *)
(** * Further properties of the generated code *)
(* ================================================================== *)

Ltac reads := intros; simp_store; try reflexivity; try lia.

(** Code that executes without transferring control does so wherever it
    is loaded; label definitions take no room. *)
Lemma exec_seq_instructions_executes symtab asm m m' :
  exec_seq symtab (instructions asm) m = Some m' ->
  executes symtab asm m m'.
Proof.
  intros Hex rom base Hrom Hpc.
  exact (run_exec_seq symtab rom (instructions asm) base m m' Hrom Hpc Hex).
Qed.

Lemma instructions_app asm1 asm2 :
  instructions (asm1 ++ asm2)%list
  = (instructions asm1 ++ instructions asm2)%list.
Proof.
  induction asm1 as [|l asm1 IH]; cbn [List.app instructions]; [reflexivity|].
  destruct (is_label l); cbn [List.app]; now rewrite IH.
Qed.

(** X11: [add], [sub], [and] and [or] replace the two topmost values of the
    stack by (second op top), the stack becoming one slot shallower;
    nothing else changes in RAM. *)
Theorem binary_command_computes c name function_name number symtab m sp :
  is_binary c = true ->
  RAM m 0 = sp -> 2 < sp < 65536 ->
  exists asm m',
    HackCodeGenerator.GenerateAsm (Some c) name function_name number
      = Ret (Some asm) /\
    executes symtab asm m m' /\
    RAM m' 0 = sp - 1 /\
    RAM m' (sp - 2) = vm_binary c (RAM m (sp - 2)) (RAM m (sp - 1)) /\
    (forall x, x <> 0 -> x <> sp - 2 -> RAM m' x = RAM m x).
Proof.
  intros Hc Hsp Hr.
  assert (E : exists op,
             In (c, op) [ (AddCommand, "+"); (SubCommand, "-");
                          (AndCommand, "&"); (OrCommand, "|") ] /\
             HackCodeGenerator.GenerateAsm (Some c) name function_name number
             = Ret (Some (HackCodeGenerator._ApplyBinaryTemplate op))).
  { destruct c; try discriminate Hc;
      [exists "+"|exists "-"|exists "&"|exists "|"];
      (split; [simpl; auto|reflexivity]). }
  destruct E as (op & Hin & Hgen).
  exists (HackCodeGenerator._ApplyBinaryTemplate op). eexists.
  split; [exact Hgen|]. split.
  { apply exec_seq_executes.
    - cbn [In] in Hin.
      destruct Hin as [[= <- <-]|[[= <- <-]|[[= <- <-]|[[= <- <-]|[]]]]];
        reflexivity.
    - exact (exec_ApplyBinaryTemplate symtab c op sp m Hin Hsp Hr). }
  cbn [RAM]. repeat split; reads.
Qed.

Lemma binary_command_computes_witness :
  exists asm m',
    HackCodeGenerator.GenerateAsm (Some SubCommand) "Foo" "Foo.f" 3
      = Ret (Some asm) /\
    executes example_symtab asm example_machine m' /\
    RAM m' 0 = 257 /\ RAM m' 256 = 65525.
Proof.
  destruct (binary_command_computes SubCommand "Foo" "Foo.f" 3 example_symtab
              example_machine 258 eq_refl eq_refl ltac:(lia))
    as (asm & m' & Hgen & Hex & H0 & Hres & _).
  exists asm, m'. repeat split; assumption.
Defined.

(** X12: [neg] and [not] replace the top of the stack by its two's complement
    negation or its bitwise complement; the stack pointer and the rest of
    RAM are unchanged. *)
Theorem unary_command_computes c name function_name number symtab m sp :
  is_unary c = true ->
  RAM m 0 = sp -> 1 < sp < 65536 ->
  exists asm m',
    HackCodeGenerator.GenerateAsm (Some c) name function_name number
      = Ret (Some asm) /\
    executes symtab asm m m' /\
    RAM m' (sp - 1) = vm_unary c (RAM m (sp - 1)) /\
    (forall x, x <> sp - 1 -> RAM m' x = RAM m x).
Proof.
  intros Hc Hsp Hr.
  assert (E : exists op,
             In (c, op) [ (NegCommand, "-"); (NotCommand, "!") ] /\
             HackCodeGenerator.GenerateAsm (Some c) name function_name number
             = Ret (Some (HackCodeGenerator._ApplyUnaryTemplate op))).
  { destruct c; try discriminate Hc; [exists "-"|exists "!"];
      (split; [simpl; auto|reflexivity]). }
  destruct E as (op & Hin & Hgen).
  exists (HackCodeGenerator._ApplyUnaryTemplate op). eexists.
  split; [exact Hgen|]. split.
  { apply exec_seq_executes.
    - cbn [In] in Hin. destruct Hin as [[= <- <-]|[[= <- <-]|[]]]; reflexivity.
    - exact (exec_ApplyUnaryTemplate symtab c op sp m Hin Hsp Hr). }
  cbn [RAM]. repeat split; reads.
Qed.

Lemma unary_command_computes_witness :
  exists asm m',
    HackCodeGenerator.GenerateAsm (Some NotCommand) "Foo" "Foo.f" 3
      = Ret (Some asm) /\
    executes example_symtab asm example_machine m' /\
    RAM m' 257 = 65513 /\ RAM m' 0 = 258.
Proof.
  destruct (unary_command_computes NotCommand "Foo" "Foo.f" 3 example_symtab
              example_machine 258 eq_refl eq_refl ltac:(lia))
    as (asm & m' & Hgen & Hex & Hres & Hframe).
  exists asm, m'. repeat split; try assumption.
  now rewrite Hframe by lia.
Defined.

(** X13: [push constant n] puts the number [n] itself on the stack, for every
    [n] that fits an A-instruction. *)
Theorem push_constant_pushes n name function_name number symtab m sp :
  0 <= n < 32768 ->
  RAM m 0 = sp -> 0 < sp < 65535 ->
  exists asm m',
    HackCodeGenerator.GenerateAsm (Some (PushCommand "constant" n))
      name function_name number = Ret (Some asm) /\
    executes symtab asm m m' /\
    RAM m' 0 = sp + 1 /\ RAM m' sp = n /\
    (forall x, x <> 0 -> x <> sp -> RAM m' x = RAM m x).
Proof.
  intros Hn Hsp Hr.
  exists (HackCodeGenerator._ApplyPushConstantTemplate n). eexists.
  split; [reflexivity|]. split.
  { apply exec_seq_executes; [reflexivity|].
    exact (exec_ApplyPushConstantTemplate symtab n sp m Hn Hsp Hr). }
  cbn [RAM]. repeat split; reads.
Qed.

Lemma push_constant_pushes_witness :
  exists asm m',
    HackCodeGenerator.GenerateAsm (Some (PushCommand "constant" 7))
      "Foo" "Foo.f" 4 = Ret (Some asm) /\
    executes example_symtab asm example_machine m' /\
    RAM m' 0 = 259 /\ RAM m' 258 = 7.
Proof.
  destruct (push_constant_pushes 7 "Foo" "Foo.f" 4 example_symtab
              example_machine 258 ltac:(lia) eq_refl ltac:(lia))
    as (asm & m' & Hgen & Hex & H0 & Hres & _).
  exists asm, m'. repeat split; assumption.
Defined.

(** ** The memory segments *)

Lemma has_char_append c s rest : has c (s ++ String c rest) = true.
Proof.
  unfold has. induction s as [|x s IH]; cbn [append all_chars] in *.
  - now rewrite Ascii.eqb_refl.
  - apply negb_true_iff. apply negb_true_iff in IH. rewrite IH.
    apply andb_false_r.
Qed.

Lemma has_not_digits c s :
  isdigit_char c = false -> has c s = true -> isdigit s = false.
Proof.
  intros Hc H. destruct s as [|c0 s0]; [reflexivity|].
  unfold isdigit. revert H. generalize (String c0 s0). clear c0 s0.
  unfold has. induction s as [|x s IH]; cbn [all_chars]; [discriminate|].
  intros H. apply negb_true_iff in H. apply andb_false_iff in H as [H|H].
  - apply negb_false_iff, Ascii.eqb_eq in H. subst x. now rewrite Hc.
  - rewrite IH; [apply andb_false_r|]. now apply negb_true_iff.
Qed.

Lemma has_dot_not_predefined s : has "." s = true -> assoc s predefined = None.
Proof.
  intros H. unfold predefined. cbn [assoc].
  repeat match goal with
  | |- context [String.eqb ?k s] =>
      destruct (String.eqb_spec k s) as [E|_];
      [exfalso; rewrite <- E in H; discriminate H|]
  end.
  reflexivity.
Qed.

(** The symbol of a static variable is neither a number nor predefined:
    it is a variable of the assembler. *)
Lemma resolve_static symtab name index :
  resolve symtab (name ++ "." ++ str_of_int index)
  = Some (symtab (name ++ "." ++ str_of_int index)).
Proof.
  change ("." ++ str_of_int index) with (String "." (str_of_int index)).
  unfold resolve.
  rewrite (has_not_digits "." _ eq_refl (has_char_append "." name _)).
  now rewrite (has_dot_not_predefined _ (has_char_append "." name _)).
Qed.

(** The three ways in which a segment is addressed, with the code that
    [push] and [pop] generate in each. *)
Lemma segment_address_cases symtab name ram segment index address
  function_name number :
  segment_address symtab name ram segment index = Some address ->
  (exists base,
     3 <= base <= 5 /\ address = base + index /\
     HackCodeGenerator.GenerateAsm (Some (PushCommand segment index))
       name function_name number
     = Ret (Some (HackCodeGenerator._ApplyPushDirectTemplate (VInt address))) /\
     HackCodeGenerator.GenerateAsm (Some (PopCommand segment index))
       name function_name number
     = Ret (Some (HackCodeGenerator._ApplyPopDirectTemplate (VInt address)))) \/
  (exists base,
     1 <= base <= 4 /\ address = wrap (ram base + index) /\
     HackCodeGenerator.GenerateAsm (Some (PushCommand segment index))
       name function_name number
     = Ret (Some (HackCodeGenerator._ApplyPushIndirectTemplate base index)) /\
     HackCodeGenerator.GenerateAsm (Some (PopCommand segment index))
       name function_name number
     = Ret (Some (HackCodeGenerator._ApplyPopIndirectTemplate base index))) \/
  (address = symtab (name ++ "." ++ str_of_int index) /\
   HackCodeGenerator.GenerateAsm (Some (PushCommand segment index))
     name function_name number
   = Ret (Some (HackCodeGenerator._ApplyPushDirectTemplate
                  (VStr (name ++ "." ++ str_of_int index)))) /\
   HackCodeGenerator.GenerateAsm (Some (PopCommand segment index))
     name function_name number
   = Ret (Some (HackCodeGenerator._ApplyPopDirectTemplate
                  (VStr (name ++ "." ++ str_of_int index))))).
Proof.
  unfold segment_address.
  destruct (in_list segment ["temp"; "pointer"]) eqn:Hd.
  { apply in_list_cases in Hd. cbn [In] in Hd.
    destruct Hd as [<-|[<-|[]]]; cbn; intros [= <-]; left;
      [exists 5|exists 3]; (split; [lia|]); repeat split. }
  destruct (in_list segment ["argument"; "local"; "this"; "that"]) eqn:Hi.
  { apply in_list_cases in Hi. cbn [In] in Hi.
    destruct Hi as [<-|[<-|[<-|[<-|[]]]]];
      cbn [HackCodeGenerator.getitem HackCodeGenerator._SEGMENT_MAPPING
           String.eqb Ascii.eqb Bool.eqb]; intros [= <-]; right; left;
      [exists 2|exists 1|exists 3|exists 4]; (split; [lia|]); repeat split. }
  destruct (String.eqb_spec segment "static") as [->|]; [|discriminate].
  intros [= <-]. right. right. repeat split.
Qed.

(** X14: [push segment index] copies the cell that the segment access refers
    to onto the stack. *)
Theorem push_segment_reads segment index name function_name number symtab m sp
  address :
  segment_address symtab name (RAM m) segment index = Some address ->
  0 <= index -> index + 5 < 32768 ->
  RAM m 0 = sp -> 0 < sp < 65535 ->
  exists asm m',
    HackCodeGenerator.GenerateAsm (Some (PushCommand segment index))
      name function_name number = Ret (Some asm) /\
    executes symtab asm m m' /\
    RAM m' 0 = sp + 1 /\ RAM m' sp = RAM m address /\
    (forall x, x <> 0 -> x <> sp -> RAM m' x = RAM m x).
Proof.
  intros Ha Hi Hi' Hsp Hr.
  destruct (segment_address_cases _ _ _ _ _ _ function_name number Ha)
    as [(base & Hb & -> & -> & _)|[(base & Hb & -> & -> & _)|(-> & -> & _)]];
    do 2 eexists; (split; [reflexivity|]); split.
  - apply exec_seq_executes; [reflexivity|].
    apply (exec_ApplyPushDirectTemplate symtab (base + index) sp m); lia || assumption.
  - cbn [RAM]. repeat split; reads.
  - apply exec_seq_executes; [reflexivity|].
    apply (exec_ApplyPushIndirectTemplate symtab base index sp m); lia || assumption.
  - cbn [RAM]. repeat split; reads.
  - apply exec_seq_executes; [reflexivity|].
    apply (exec_ApplyPushDirectTemplate_resolved symtab
             (VStr (name ++ "." ++ str_of_int index))
             (symtab (name ++ "." ++ str_of_int index)) sp m);
      [apply resolve_static|assumption|lia].
  - cbn [RAM]. repeat split; reads.
Qed.

Lemma push_segment_reads_witness :
  exists asm m',
    HackCodeGenerator.GenerateAsm (Some (PushCommand "argument" 1))
      "Foo" "Foo.f" 5 = Ret (Some asm) /\
    executes example_symtab asm
      (mkMachine 0 0 0 (store example_ram 2 256)) m' /\
    RAM m' 0 = 259 /\ RAM m' 258 = 22.
Proof.
  destruct (push_segment_reads "argument" 1 "Foo" "Foo.f" 5 example_symtab
              (mkMachine 0 0 0 (store example_ram 2 256)) 258 257)
    as (asm & m' & Hgen & Hex & H0 & Hres & _).
  - reflexivity.
  - lia.
  - lia.
  - reflexivity.
  - lia.
  - exists asm, m'. repeat split; assumption.
Defined.

(** X15: [pop segment index] moves the top of the stack into the cell that the
    segment access refers to; besides that cell and the stack pointer, at
    most the scratch cell 13 changes. *)
Theorem pop_segment_writes segment index name function_name number symtab m sp
  address :
  segment_address symtab name (RAM m) segment index = Some address ->
  0 <= index -> index + 5 < 32768 ->
  RAM m 0 = sp -> 14 < sp < 65536 ->
  exists asm m',
    HackCodeGenerator.GenerateAsm (Some (PopCommand segment index))
      name function_name number = Ret (Some asm) /\
    executes symtab asm m m' /\
    RAM m' address = RAM m (sp - 1) /\
    (address <> 0 -> RAM m' 0 = sp - 1) /\
    (forall x, x <> 0 -> x <> 13 -> x <> address -> RAM m' x = RAM m x).
Proof.
  intros Ha Hi Hi' Hsp Hr.
  destruct (segment_address_cases _ _ _ _ _ _ function_name number Ha)
    as [(base & Hb & Hadd & _ & ->)|[(base & Hb & Hadd & _ & ->)|(Hadd & _ & ->)]];
    do 2 eexists; (split; [reflexivity|]); split.
  - apply exec_seq_executes; [reflexivity|].
    apply (exec_ApplyPopDirectTemplate symtab address sp m); lia || assumption.
  - cbn [RAM]. repeat split; reads.
  - apply exec_seq_executes; [reflexivity|].
    apply (exec_ApplyPopIndirectTemplate symtab base index sp m); lia || assumption.
  - cbn [RAM]. rewrite <- Hadd. repeat split; reads.
  - apply exec_seq_executes; [reflexivity|].
    apply (exec_ApplyPopDirectTemplate_resolved symtab
             (VStr (name ++ "." ++ str_of_int index)) address sp m);
      [rewrite Hadd; apply resolve_static|assumption|lia].
  - cbn [RAM]. repeat split; reads.
Qed.

Lemma pop_segment_writes_witness :
  exists asm m',
    HackCodeGenerator.GenerateAsm (Some (PopCommand "temp" 2))
      "Foo" "Foo.f" 5 = Ret (Some asm) /\
    executes example_symtab asm example_machine m' /\
    RAM m' 7 = 22 /\ RAM m' 0 = 257.
Proof.
  destruct (pop_segment_writes "temp" 2 "Foo" "Foo.f" 5 example_symtab
              example_machine 258 7)
    as (asm & m' & Hgen & Hex & Hres & H0 & _).
  - reflexivity.
  - lia.
  - lia.
  - reflexivity.
  - lia.
  - exists asm, m'. repeat split; try assumption. apply H0. lia.
Defined.

(** ** Program flow *)

Lemma has_cons_false c x s :
  has c (String x s) = false -> x <> c /\ has c s = false.
Proof.
  unfold has. cbn [all_chars]. intros H. apply negb_false_iff in H.
  apply andb_true_iff in H as [H1 H2]. split.
  - intros ->. now rewrite Ascii.eqb_refl in H1.
  - now apply negb_false_iff.
Qed.

(** A label without [$] can be cut off unambiguously from the end of a
    scoped label. *)
Lemma scoped_label_inj f f' l l' :
  has "$" l = false -> has "$" l' = false ->
  scoped_label f l = scoped_label f' l' -> f = f' /\ l = l'.
Proof.
  unfold scoped_label. intros Hl Hl'. revert f'.
  induction f as [|c f IH]; intros [|c' f']; cbn [append].
  - intros [= ->]. auto.
  - intros [= <- ->]. exfalso.
    pose proof (has_dollar_label f' l') as H. cbn [append] in H. congruence.
  - intros [= -> <-]. exfalso.
    pose proof (has_dollar_label f l) as H. cbn [append] in H. congruence.
  - intros [= -> H]. apply IH in H as [-> ->]. auto.
Qed.

(** X16: [label] emits no instruction: it defines one assembly label, made of
    the enclosing function's name and the VM label.  As long as VM labels
    hold no [$], two [label] commands define the same assembly label only
    when they name the same VM label in the same function. *)
Theorem label_command_scoped l l' name name' f f' number number' :
  has "$" l = false -> has "$" l' = false ->
  exists asm asm',
    HackCodeGenerator.GenerateAsm (Some (LabelCommand l)) name f number
      = Ret (Some asm) /\
    HackCodeGenerator.GenerateAsm (Some (LabelCommand l')) name' f' number'
      = Ret (Some asm') /\
    instructions asm = [] /\
    defined_labels asm = [scoped_label f l] /\
    defined_labels asm' = [scoped_label f' l'] /\
    (defined_labels asm = defined_labels asm' -> f = f' /\ l = l').
Proof.
  intros Hl Hl'. do 2 eexists.
  split; [reflexivity|]. split; [reflexivity|]. split; [reflexivity|].
  assert (E : forall g x, defined_labels ["(" ++ g ++ "$" ++ x ++ ")"]
                          = [scoped_label g x]).
  { intros g x.
    replace (g ++ "$" ++ x ++ ")") with (scoped_label g x ++ ")")
      by (unfold scoped_label; rewrite append_assoc; reflexivity).
    cbn [defined_labels]. now rewrite label_of_definition. }
  rewrite !E. split; [reflexivity|]. split; [reflexivity|].
  intros [= H]. now apply scoped_label_inj.
Qed.

Lemma label_command_scoped_witness :
  exists asm asm',
    HackCodeGenerator.GenerateAsm (Some (LabelCommand "LOOP")) "Foo" "Foo.f" 3
      = Ret (Some asm) /\
    HackCodeGenerator.GenerateAsm (Some (LabelCommand "LOOP")) "Foo" "Foo.g" 9
      = Ret (Some asm') /\
    defined_labels asm = ["Foo.f$LOOP"] /\
    defined_labels asm' = ["Foo.g$LOOP"].
Proof.
  destruct (label_command_scoped "LOOP" "LOOP" "Foo" "Foo" "Foo.f" "Foo.g" 3 9
              eq_refl eq_refl)
    as (asm & asm' & H1 & H2 & _ & H3 & H4 & _).
  exists asm, asm'. repeat split; assumption.
Defined.

(** X17: [goto] refers to one symbol, the scoped label, and takes control to
    the address the assembler gives it, in two steps and without
    touching [D] or the RAM. *)
Theorem goto_command_jumps l name f number symtab rom base m :
  exists asm,
    HackCodeGenerator.GenerateAsm (Some (GotoCommand l)) name f number
      = Ret (Some asm) /\
    referenced_symbols asm = [scoped_label f l] /\
    defined_labels asm = [] /\
    (loaded_at rom base asm -> PC m = Z.of_nat base ->
     run symtab rom 2 m
     = Some (mkMachine (symtab (scoped_label f l)) (symtab (scoped_label f l))
               (D m) (RAM m))).
Proof.
  eexists. split; [reflexivity|]. split; [reflexivity|]. split; [reflexivity|].
  intros Hrom Hpc. unfold loaded_at in Hrom.
  change (instructions ["@" ++ f ++ "$" ++ l; "0;JMP"])
    with ["@" ++ f ++ "$" ++ l; "0;JMP"] in Hrom.
  cbn [Hack.run].
  rewrite (step_in_rom symtab rom _ _ _ m Hrom Hpc).
  rewrite exec_A, resolve_generated.
  apply in_rom_cons in Hrom as [_ Hrom].
  rewrite (step_in_rom symtab rom _ _ _ _ Hrom) by (cbn [PC]; lia).
  rewrite exec_JMP. reflexivity.
Qed.

Lemma goto_command_jumps_witness :
  exists asm,
    HackCodeGenerator.GenerateAsm (Some (GotoCommand "LOOP")) "Foo" "Foo.f" 3
      = Ret (Some asm) /\
    referenced_symbols asm = ["Foo.f$LOOP"] /\
    run (fun _ => 0) asm 2 example_machine
    = Some (mkMachine 0 0 0 example_ram).
Proof.
  destruct (goto_command_jumps "LOOP" "Foo" "Foo.f" 3 (fun _ => 0)
              ["@Foo.f$LOOP"; "0;JMP"] 0 example_machine)
    as (asm & Hgen & Href & _ & Hrun).
  exists asm. split; [exact Hgen|]. split; [exact Href|].
  injection Hgen as <-. apply Hrun; reflexivity.
Defined.

(** X18: [if-goto] pops the top of the stack and takes control to the scoped
    label when the popped word is not zero; otherwise control falls
    through to the next command.  Only the stack pointer changes in
    RAM. *)
Theorem if_goto_command_branches l name f number symtab rom base m sp :
  RAM m 0 = sp -> 1 < sp < 65536 ->
  exists asm,
    HackCodeGenerator.GenerateAsm (Some (IfGotoCommand l)) name f number
      = Ret (Some asm) /\
    referenced_symbols asm = ["SP"; scoped_label f l] /\
    (loaded_at rom base asm -> PC m = Z.of_nat base ->
     exists m',
       run symtab rom 6 m = Some m' /\
       PC m' = (if (RAM m (sp - 1) =? 0)%Z
                then Z.of_nat base + 6
                else symtab (scoped_label f l)) /\
       RAM m' 0 = sp - 1 /\
       (forall x, x <> 0 -> RAM m' x = RAM m x)).
Proof.
  intros Hsp Hr.
  eexists. split; [reflexivity|]. split; [reflexivity|].
  intros Hrom Hpc. unfold loaded_at in Hrom.
  change (in_rom rom base
            (List.app HackCodeGenerator._PopToD
               ["@" ++ f ++ "$" ++ l; "D;" ++ "JNE"])) in Hrom.
  apply in_rom_app in Hrom as [Hpop Hjump].
  change (List.length HackCodeGenerator._PopToD) with 4%nat in Hjump.
  pose proof (run_exec_seq symtab rom _ base m _ Hpop Hpc
                (exec_PopToD symtab sp m Hsp Hr)) as Hrun.
  change (List.length HackCodeGenerator._PopToD) with 4%nat in Hrun.
  change 6%nat with (4 + 2)%nat. rewrite run_add, Hrun.
  cbn [Hack.run].
  rewrite (step_in_rom symtab rom _ _ _ _ Hjump) by (cbn [PC]; lia).
  rewrite exec_A, resolve_generated.
  apply in_rom_cons in Hjump as [_ Hjump].
  rewrite (step_in_rom symtab rom _ _ _ _ Hjump) by (cbn [PC]; lia).
  rewrite (exec_D_jump symtab JNE "JNE" _ eq_refl).
  eexists. split; [reflexivity|]. cbn [PC A D RAM taken].
  split; [|split].
  - destruct (Z.eqb_spec (RAM m (sp - 1)) 0); cbn [negb]; [lia|reflexivity].
  - reads.
  - reads.
Qed.

Lemma if_goto_command_branches_witness :
  exists asm m',
    HackCodeGenerator.GenerateAsm (Some (IfGotoCommand "LOOP")) "Foo" "Foo.f" 3
      = Ret (Some asm) /\
    run (fun _ => 100) asm 6 example_machine = Some m' /\
    PC m' = 100 /\ RAM m' 0 = 257.
Proof.
  destruct (if_goto_command_branches "LOOP" "Foo" "Foo.f" 3 (fun _ => 100)
              ["@SP"; "M=M-1"; "A=M"; "D=M"; "@Foo.f$LOOP"; "D;JNE"]
              0 example_machine 258)
    as (asm & Hgen & _ & Hrun).
  - reflexivity.
  - lia.
  - injection Hgen as <-.
    destruct Hrun as (m' & Hrun & Hpc & H0 & _); [reflexivity|reflexivity|].
    eexists. exists m'. split; [reflexivity|]. repeat split; assumption.
Defined.

(** ** Function entry *)

Lemma instructions_push_zeros k :
  instructions (List.concat (List.repeat (HackCodeGenerator._PushConstant (VInt 0)) k))
  = List.concat (List.repeat (HackCodeGenerator._PushConstant (VInt 0)) k).
Proof.
  induction k as [|k IH]; [reflexivity|].
  cbn [List.repeat List.concat]. rewrite instructions_app, IH. reflexivity.
Qed.

Lemma length_push_zeros k :
  List.length (List.concat (List.repeat (HackCodeGenerator._PushConstant (VInt 0)) k))
  = (6 * k)%nat.
Proof.
  induction k as [|k IH]; [reflexivity|].
  cbn [List.repeat List.concat]. rewrite length_app, IH.
  cbn [List.length HackCodeGenerator._PushConstant]. lia.
Qed.

Lemma defined_labels_app asm1 asm2 :
  defined_labels (asm1 ++ asm2)%list
  = (defined_labels asm1 ++ defined_labels asm2)%list.
Proof.
  induction asm1 as [|s asm1 IH]; cbn [List.app defined_labels]; [reflexivity|].
  destruct (label_of s); cbn [List.app]; now rewrite IH.
Qed.

Lemma defined_labels_push_zeros k :
  defined_labels (List.concat (List.repeat (HackCodeGenerator._PushConstant (VInt 0)) k))
  = [].
Proof.
  induction k as [|k IH]; [reflexivity|].
  cbn [List.repeat List.concat]. rewrite defined_labels_app, IH. reflexivity.
Qed.

(** X19: [function f k] defines the label [f] and pushes [k] zeros: on entry
    the [k] cells from the stack pointer on become the zero-initialised
    local variables, the stack pointer moves past them and nothing else
    changes in RAM. *)
Theorem function_command_locals f k name function_name number symtab m sp :
  0 <= k -> RAM m 0 = sp -> 0 < sp -> sp + k < 65536 ->
  exists asm m',
    HackCodeGenerator.GenerateAsm (Some (FunctionCommand f k))
      name function_name number = Ret (Some asm) /\
    defined_labels asm = [f] /\
    Z.of_nat (List.length (instructions asm)) = 6 * k /\
    executes symtab asm m m' /\
    RAM m' 0 = sp + k /\
    (forall x, sp <= x < sp + k -> RAM m' x = 0) /\
    (forall x, x <> 0 -> x < sp \/ sp + k <= x -> RAM m' x = RAM m x).
Proof.
  intros Hk Hsp Hlo Hhi.
  destruct (exec_push_zeros symtab (Z.to_nat k) sp m Hsp Hlo)
    as (m' & Hex & Hpc & H0 & Hz & Hframe); [lia|].
  rewrite Z2Nat.id in * by lia.
  eexists. exists m'. split; [reflexivity|].
  unfold HackCodeGenerator.sum_lists, HackCodeGenerator.times,
    HackCodeGenerator._CreateLabel, str.
  cbn [List.concat]. rewrite app_nil_r.
  split; [|split; [|split; [|split; [|split]]]].
  - rewrite defined_labels_app, defined_labels_push_zeros.
    cbn [defined_labels List.app]. now rewrite label_of_definition.
  - rewrite instructions_app, instructions_push_zeros.
    cbn [instructions is_label append List.app].
    rewrite length_push_zeros. lia.
  - apply exec_seq_instructions_executes.
    rewrite instructions_app, instructions_push_zeros. exact Hex.
  - exact H0.
  - exact Hz.
  - exact Hframe.
Qed.

Lemma function_command_locals_witness :
  exists asm m',
    HackCodeGenerator.GenerateAsm (Some (FunctionCommand "Foo.f" 2))
      "Foo" "Foo.f" 3 = Ret (Some asm) /\
    defined_labels asm = ["Foo.f"] /\
    executes example_symtab asm example_machine m' /\
    RAM m' 0 = 260 /\ RAM m' 258 = 0 /\ RAM m' 259 = 0.
Proof.
  destruct (function_command_locals "Foo.f" 2 "Foo" "Foo.f" 3 example_symtab
              example_machine 258)
    as (asm & m' & Hgen & Hlab & _ & Hex & H0 & Hz & _).
  - lia.
  - reflexivity.
  - lia.
  - lia.
  - exists asm, m'. repeat split; try assumption; apply Hz; lia.
Defined.

(** ** The bootstrap *)

Lemma is_label_label_of s :
  is_label s = match label_of s with Some _ => true | None => false end.
Proof.
  destruct s as [|c s]; [reflexivity|].
  unfold is_label, label_of.
  destruct c as [[] [] [] [] [] [] [] []]; reflexivity.
Qed.

Lemma label_table_app asm1 : forall base asm2,
  label_table base (asm1 ++ asm2)%list
  = (label_table base asm1
     ++ label_table (base + Z.of_nat (List.length (instructions asm1))) asm2)%list.
Proof.
  induction asm1 as [|s asm1 IH]; intros base asm2;
    cbn [List.app label_table instructions].
  - cbn [List.length]. f_equal. lia.
  - rewrite is_label_label_of. destruct (label_of s).
    + rewrite IH. reflexivity.
    + rewrite IH. cbn [List.length]. do 2 f_equal. lia.
Qed.

(** X20: The bootstrap code sets the stack pointer to 256 and calls [Sys.init]
    with no argument: 46 steps after power-on control is at [Sys.init]
    with [SP = LCL = 261] and [ARG = 256], the five cells from 256 on
    holding the saved frame.  The return address saved is that of the
    first instruction of the program to which the bootstrap is attached. *)
Theorem bootstrap_calls_Sys_init program_asm symtab rom m :
  exists bootstrap asm,
    HackCodeGenerator.GenerateBootstrapAsm = Ret (Some bootstrap) /\
    AttachBootstrapCode program_asm = Ret asm /\
    asm = List.app bootstrap program_asm /\
    List.length (instructions bootstrap) = 46%nat /\
    (loaded_at rom 0 asm -> PC m = 0 ->
     exists m',
       run symtab rom 46 m = Some m' /\
       PC m' = symtab "Sys.init" /\
       RAM m' 0 = 261 /\ RAM m' 1 = 261 /\ RAM m' 2 = 256 /\
       RAM m' 256 = symtab (return_address "Sys" 1000000) /\
       (forall x, 261 <= x -> RAM m' x = RAM m x)) /\
    (labels_resolved symtab 0 asm ->
     symtab (return_address "Sys" 1000000) = 46).
Proof.
  unfold AttachBootstrapCode, HackCodeGenerator.GenerateBootstrapAsm.
  rewrite GenerateAsmCallCommand_eq. cbn [bind].
  unfold HackCodeGenerator.sum_lists. cbn [List.concat]. rewrite app_nil_r.
  do 2 eexists. split; [reflexivity|]. split; [reflexivity|].
  split; [reflexivity|]. split; [reflexivity|]. split.
  - intros Hrom Hpc. unfold loaded_at in Hrom.
    rewrite !instructions_app in Hrom.
    apply in_rom_app in Hrom as [Hboot _].
    apply in_rom_app in Hboot as [Hset Hcall].
    change (instructions ["@256"; "D=A"; "@0"; "M=D"])
      with ["@256"; "D=A"; "@0"; "M=D"] in Hset, Hcall.
    cbn [List.length Nat.add] in Hcall.
    pose proof (run_exec_seq symtab rom _ 0 m _ Hset Hpc
                  (exec_bootstrap_prefix symtab m)) as Hrun.
    cbn [List.length] in Hrun.
    change 46%nat with (4 + 42)%nat. rewrite run_add, Hrun.
    rewrite (run_call symtab rom "Sys.init" 0 "Sys" 1000000 4 256
               (symtab "Sys.init") _ Hcall eq_refl);
      [| cbn [PC]; lia | cbn [RAM]; simp_store; reflexivity
       | lia | lia | lia | lia].
    eexists. split; [reflexivity|]. cbn [PC RAM]. unfold call_ram.
    repeat split; reads.
  - unfold labels_resolved.
    rewrite label_table_app, (label_table_app ["@256"; "D=A"; "@0"; "M=D"]).
    rewrite !Forall_app. intros [[_ H] _].
    change (instructions ["@256"; "D=A"; "@0"; "M=D"])
      with ["@256"; "D=A"; "@0"; "M=D"] in H.
    cbn [List.length] in H. rewrite label_table_call in H.
    apply Forall_inv in H. cbn [fst snd] in H. rewrite H. reflexivity.
Qed.

Lemma bootstrap_calls_Sys_init_witness :
  exists bootstrap,
    HackCodeGenerator.GenerateBootstrapAsm = Ret (Some bootstrap) /\
    exists m',
      run (fun _ => 46) (instructions bootstrap) 46 (mkMachine 0 0 0 (fun _ => 0))
      = Some m' /\
      PC m' = 46 /\ RAM m' 0 = 261 /\ RAM m' 1 = 261 /\ RAM m' 2 = 256.
Proof.
  destruct (bootstrap_calls_Sys_init [] (fun _ => 46)
              (instructions
                 (List.app
                    ["@256"; "D=A"; "@0"; "M=D"]
                    (List.app (call_frame_code "Sys" 1000000 0)
                       (List.app (HackCodeGenerator._GotoLabel "Sys.init")
                          (HackCodeGenerator._CreateLabel
                             (return_address "Sys" 1000000))))))
              (mkMachine 0 0 0 (fun _ => 0)))
    as (bootstrap & asm & Hgen & Hatt & Hasm & _ & Hrun & _).
  exists bootstrap. split; [exact Hgen|].
  injection Hgen as <-. subst asm.
  destruct Hrun as (m' & Hrun & Hpc & H0 & H1 & H2 & _);
    [reflexivity|reflexivity|].
  exists m'. repeat split; assumption.
Defined.

(** ** Composition *)

Ltac reads_by_cases :=
  intros;
  repeat match goal with
  | |- context [store ?r ?a ?v ?x] =>
      first [ rewrite (store_same r a v x) by lia
            | rewrite (store_other r a v x) by lia
            | destruct (Z.eq_dec x a) ]
  end;
  try reflexivity; try lia; try (f_equal; lia).

(** X21: [pop segment i] followed by [push segment i] stores the top of the
    stack in the segment and leaves the stack as it was, provided that the
    cell accessed is none of the stack pointer and the base pointers. *)
Theorem pop_push_round_trip segment index name function_name number symtab m sp
  address :
  segment_address symtab name (RAM m) segment index = Some address ->
  0 <= index -> index + 5 < 32768 -> 4 < address ->
  RAM m 0 = sp -> 14 < sp < 65535 ->
  exists pop push m',
    HackCodeGenerator.GenerateAsm (Some (PopCommand segment index))
      name function_name number = Ret (Some pop) /\
    HackCodeGenerator.GenerateAsm (Some (PushCommand segment index))
      name function_name number = Ret (Some push) /\
    executes symtab (List.app pop push) m m' /\
    RAM m' 0 = sp /\
    RAM m' (sp - 1) = RAM m (sp - 1) /\
    RAM m' address = RAM m (sp - 1) /\
    (forall x, x <> 0 -> x <> 13 -> x <> address -> RAM m' x = RAM m x).
Proof.
  intros Ha Hi Hi' H4 Hsp Hr.
  destruct (segment_address_cases _ _ _ _ _ _ function_name number Ha)
    as [(base & Hb & Hadd & -> & ->)|[(base & Hb & Hadd & -> & ->)
                                      |(Hadd & -> & ->)]];
    do 3 eexists; (split; [reflexivity|]); (split; [reflexivity|]); split.
  - apply exec_seq_executes; [reflexivity|].
    rewrite exec_seq_app.
    rewrite (exec_ApplyPopDirectTemplate symtab address sp m) by lia.
    rewrite (exec_ApplyPushDirectTemplate symtab address (sp - 1));
      [reflexivity|lia|cbn [RAM]; simp_store; reflexivity|lia].
  - cbn [RAM PC]. repeat split; reads_by_cases.
  - apply exec_seq_executes; [reflexivity|].
    rewrite exec_seq_app.
    rewrite (exec_ApplyPopIndirectTemplate symtab base index sp m) by lia.
    rewrite (exec_ApplyPushIndirectTemplate symtab base index (sp - 1));
      [reflexivity|lia|lia|cbn [RAM]; rewrite <- Hadd; simp_store; reflexivity|lia].
  - cbn [RAM PC]. repeat (rewrite <- ?Hadd; progress simp_store).
    rewrite <- ?Hadd. repeat split; reads_by_cases.
  - apply exec_seq_executes; [reflexivity|].
    rewrite exec_seq_app.
    rewrite (exec_ApplyPopDirectTemplate_resolved symtab
               (VStr (name ++ "." ++ str_of_int index)) address sp m);
      [|rewrite Hadd; apply resolve_static|assumption|lia].
    rewrite (exec_ApplyPushDirectTemplate_resolved symtab
               (VStr (name ++ "." ++ str_of_int index)) address (sp - 1));
      [reflexivity|rewrite Hadd; apply resolve_static
      |cbn [RAM]; simp_store; reflexivity|lia].
  - cbn [RAM PC]. repeat split; reads_by_cases.
Qed.

Lemma pop_push_round_trip_witness :
  exists pop push m',
    HackCodeGenerator.GenerateAsm (Some (PopCommand "local" 2))
      "Foo" "Foo.f" 5 = Ret (Some pop) /\
    HackCodeGenerator.GenerateAsm (Some (PushCommand "local" 2))
      "Foo" "Foo.f" 5 = Ret (Some push) /\
    executes example_symtab (List.app pop push) example_machine m' /\
    RAM m' 0 = 258 /\ RAM m' 257 = 22 /\ RAM m' 302 = 22.
Proof.
  destruct (pop_push_round_trip "local" 2 "Foo" "Foo.f" 5 example_symtab
              example_machine 258 302)
    as (pop & push & m' & Hpop & Hpush & Hex & H0 & Htop & Hcell & _).
  - reflexivity.
  - lia.
  - lia.
  - lia.
  - reflexivity.
  - lia.
  - exists pop, push, m'. repeat split; assumption.
Defined.

(** X22: [eq] is exact on all pairs of words: it leaves all ones when the two
    operands are the same word and zero otherwise, whatever their
    difference. *)
Theorem eq_command_exact name function_name number symtab rom base m sp :
  RAM m 0 = sp -> 2 < sp < 65536 ->
  0 <= RAM m (sp - 2) < 65536 -> 0 <= RAM m (sp - 1) < 65536 ->
  exists asm,
    HackCodeGenerator.GenerateAsm (Some EqCommand) name function_name number
      = Ret (Some asm) /\
    (loaded_at rom base asm -> labels_resolved symtab base asm ->
     PC m = Z.of_nat base ->
     exists k m',
       run symtab rom k m = Some m' /\
       PC m' = Z.of_nat base + Z.of_nat (List.length (instructions asm)) /\
       RAM m' 0 = sp - 1 /\
       RAM m' (sp - 2) = (if (RAM m (sp - 2) =? RAM m (sp - 1))%Z
                          then all_ones else 0)).
Proof.
  intros Hsp Hr Hx Hy. eexists. split; [reflexivity|].
  intros Hrom Hlab Hpc.
  destruct (run_comparison symtab rom "JEQ" JEQ name number base sp m
              eq_refl Hrom Hlab Hpc Hsp Hr)
    as (k & m' & Hrun & Hpc' & H0 & Hres & _).
  exists k, m'. split; [exact Hrun|]. split; [exact Hpc'|].
  split; [exact H0|].
  rewrite Hres. cbn [taken]. unfold wrap.
  destruct (Z.eqb_spec ((RAM m (sp - 1) - RAM m (sp - 2)) mod 65536) 0) as [E|E];
    destruct (Z.eqb_spec (RAM m (sp - 2)) (RAM m (sp - 1))) as [E'|E'];
    try reflexivity; exfalso; revert E; Z.div_mod_to_equations; lia.
Qed.

Lemma eq_command_exact_witness :
  exists asm k m',
    HackCodeGenerator.GenerateAsm (Some EqCommand) "Foo" "Foo.f" 2
      = Ret (Some asm) /\
    run (symtab_of asm 16) (instructions asm) k example_machine = Some m' /\
    RAM m' 0 = 257 /\ RAM m' 256 = 0.
Proof.
  destruct (eq_command_exact "Foo" "Foo.f" 2
              (symtab_of (HackCodeGenerator._ApplyComparisonTemplate "JEQ" "Foo" 2) 16)
              (instructions (HackCodeGenerator._ApplyComparisonTemplate "JEQ" "Foo" 2))
              0 example_machine 258)
    as (asm & Hgen & Hrun).
  - reflexivity.
  - lia.
  - vm_compute. split; congruence.
  - vm_compute. split; congruence.
  - injection Hgen as <-.
    destruct Hrun as (k & m' & Hrun & _ & H0 & Hres).
    + reflexivity.
    + repeat constructor.
    + reflexivity.
    + eexists. exists k, m'. split; [reflexivity|]. repeat split; assumption.
Defined.
